(** * proxy-checker: the scan loop of [pc.py], embedded and verified

    The development follows the source file top to bottom:
    - [Py]: the Python built-ins the script relies on ([str.split],
      [str.replace], [str.startswith], [str.strip], [int], exceptions);
    - [format_proxy], [format_domain], [validate_proxy];
    - [visit_target] over a network oracle;
    - the statistics dictionary and the body of the [stats_lock] section;
    - the worker pool as an interleaving step function over the two locks;
    - [run_scan] with its report and the persisted file;
    - the marks of a console line, the command line, and [get_isp_info]
      over what its three providers answer.

    Python [str] is a sequence of code points ([list N]), Python [int] is
    [Z] (counters that only count up from zero are [nat]), Python [float]
    is Rocq's primitive binary64 [float], a [dict] is a [gmap] and a [set]
    is a [gset]. *)

From Stdlib Require Import ZArith NArith List Floats Lia Permutation.
From Stdlib Require Import Ascii String.
From stdpp Require Import base option list gmap sets.

Set Warnings "-inexact-float".
#[local] Open Scope Z_scope.

(** ** Python built-ins *)

Module Py.

(** A Python string: its code points, in order. *)
Definition str := list N.

(** String literals of the script, written as Rocq strings. *)
Definition lit (s : string) : str := map N_of_ascii (list_ascii_of_string s).

(** Exceptions that the modelled fragment can raise. *)
Inductive exn :=
| ValueError
| IndexError
| ZeroDivisionError
| AttributeError
| RequestException.

(** A computation that returns or raises. *)
Inductive result (A : Type) :=
| Ok (a : A)
| Raise (e : exn).
Arguments Ok {A} a.
Arguments Raise {A} e.

Definition bind {A B} (r : result A) (k : A → result B) : result B :=
  match r with
  | Ok a => k a
  | Raise e => Raise e
  end.

(** [try: body except: handler] with a bare [except]. *)
Definition try_except {A} (body : result A) (handler : A) : result A :=
  match body with
  | Ok a => Ok a
  | Raise _ => Ok handler
  end.

(** What the interpreter contributes besides the ASCII rules: the Unicode
    database (white space and decimal digits beyond ASCII) and the limit
    on the digits of an integer literal ([sys.get_int_max_str_digits()],
    0 when the interpreter has none). *)
Record Runtime := {
  unicode_isspace : N → bool;
  unicode_todecimal : N → option N;
  int_max_str_digits : nat
}.

(** [l[i]] for a non-negative index. *)
Definition index {A} (l : list A) (i : nat) : result A :=
  match l !! i with
  | Some a => Ok a
  | None => Raise IndexError
  end.

(** [s.startswith(p)] *)
Fixpoint startswith (s p : str) : bool :=
  match p, s with
  | [], _ => true
  | _ :: _, [] => false
  | a :: p', b :: s' => (a =? b)%N && startswith s' p'
  end.

(** [s.split(sep)] for a separator of one character. *)
Fixpoint split (sep : N) (s : str) : list str :=
  match s with
  | [] => [[]]
  | c :: s' =>
      if (c =? sep)%N then [] :: split sep s'
      else match split sep s' with
           | p :: ps => (c :: p) :: ps
           | [] => [[c]]
           end
  end.

(** [s.replace(old, new)] for a non-empty [old]: occurrences are found
    left to right and do not overlap. [skip] counts the characters of
    the occurrence that is being dropped. *)
Fixpoint replace_from (old new : str) (skip : nat) (s : str) : str :=
  match s with
  | [] => []
  | c :: s' =>
      match skip with
      | S k => replace_from old new k s'
      | O =>
          if startswith s old
          then new ++ replace_from old new (Nat.pred (length old)) s'
          else c :: replace_from old new O s'
      end
  end.

Definition replace (s old new : str) : str := replace_from old new O s.

(** [Py_UNICODE_ISSPACE]: the ASCII table, then the Unicode database. *)
Definition isspace (rt : Runtime) (c : N) : bool :=
  if (c <? 128)%N
  then ((9 <=? c) && (c <=? 13) || (28 <=? c) && (c <=? 32))%N
  else unicode_isspace rt c.

(** [s.strip()] *)
Fixpoint lstrip (rt : Runtime) (s : str) : str :=
  match s with
  | c :: s' => if isspace rt c then lstrip rt s' else s
  | [] => []
  end.

Definition rstrip (rt : Runtime) (s : str) : str := rev (lstrip rt (rev s)).

Definition strip (rt : Runtime) (s : str) : str := rstrip rt (lstrip rt s).

(** *** [int(s)] in base 10

    CPython first maps the string to ASCII (a non-ASCII space becomes a
    blank, a non-ASCII decimal digit its ASCII digit, anything else ends
    the text with a question mark), then reads: blanks, an optional sign,
    digits with single underscores between them, blanks, end of text. *)

Fixpoint transform_decimal_and_space (rt : Runtime) (s : str) : str :=
  match s with
  | [] => []
  | c :: s' =>
      if (c <? 127)%N then c :: transform_decimal_and_space rt s'
      else if unicode_isspace rt c then 32%N :: transform_decimal_and_space rt s'
      else match unicode_todecimal rt c with
           | Some d => (48 + d)%N :: transform_decimal_and_space rt s'
           | None => [63%N]
           end
  end.

(** A string that is ASCII already is read as it is. *)
Definition to_ascii (rt : Runtime) (s : str) : str :=
  if forallb (λ c, c <? 128)%N s then s
  else transform_decimal_and_space rt s.

(** [Py_ISSPACE], the C-locale table that [PyLong_FromString] uses. *)
Definition c_isspace (c : N) : bool :=
  ((9 <=? c) && (c <=? 13) || (c =? 32))%N.

Fixpoint skip_spaces (s : str) : str :=
  match s with
  | c :: s' => if c_isspace c then skip_spaces s' else s
  | [] => []
  end.

Definition digit_value (c : N) : option Z :=
  if ((48 <=? c) && (c <=? 57))%N then Some (Z.of_N c - 48) else None.

(** The digits and underscores after the sign: the value read so far,
    the number of digits, whether the previous character was an
    underscore. Returns the value, the digit count and the rest. *)
Fixpoint scan_digits (acc : Z) (n : nat) (prev_us : bool) (s : str)
  : option (Z * nat * str) :=
  match s with
  | [] => if prev_us then None else Some (acc, n, [])
  | c :: s' =>
      match digit_value c with
      | Some d => scan_digits (10 * acc + d) (S n) false s'
      | None =>
          if (c =? 95)%N
          then if prev_us then None else scan_digits acc n true s'
          else if prev_us then None else Some (acc, n, s)
      end
  end.

Definition exceeds_digit_limit (rt : Runtime) (n : nat) : bool :=
  (640 <? n)%nat && (0 <? int_max_str_digits rt)%nat
  && (int_max_str_digits rt <? n)%nat.

Definition parse_int (rt : Runtime) (s : str) : option Z :=
  let s1 := skip_spaces (to_ascii rt s) in
  let '(sign, s2) :=
    match s1 with
    | 43%N :: r => (1, r)
    | 45%N :: r => (-1, r)
    | _ => (1, s1)
    end in
  match s2 with
  | 95%N :: _ => None
  | _ =>
      match scan_digits 0 O false s2 with
      | Some (v, n, rest) =>
          match n, skip_spaces rest with
          | S _, [] => if exceeds_digit_limit rt n then None else Some (sign * v)
          | _, _ => None
          end
      | None => None
      end
  end.

(** [int(s)]: the value, or [ValueError]. *)
Definition int (rt : Runtime) (s : str) : result Z :=
  match parse_int rt s with
  | Some v => Ok v
  | None => Raise ValueError
  end.

(** [str(n)] for a natural number: its decimal digits. *)
Fixpoint digits_fuel (fuel : nat) (n : N) (acc : str) : str :=
  match fuel with
  | O => acc
  | S f =>
      let acc' := (48 + n mod 10)%N :: acc in
      if (n <? 10)%N then acc' else digits_fuel f (n / 10)%N acc'
  end.

Definition str_of_nat (n : nat) : str :=
  digits_fuel (S n) (N.of_nat n) [].

(** An interpreter with no Unicode digits or spaces beyond ASCII in its
    tables and CPython's default digit limit; used for examples. *)
Definition ascii_runtime : Runtime :=
  {| unicode_isspace := λ _, false;
     unicode_todecimal := λ _, None;
     int_max_str_digits := 4300 |}.

End Py.

Arguments Py.lit s%_string_scope.
Abbreviation str := Py.str.
Abbreviation u := Py.lit.

(** ** [format_proxy], [format_domain], [validate_proxy] *)

(** [format_proxy(proxy)] for a string argument: a falsy (empty) string is
    returned as it is. *)
Definition format_proxy (proxy : str) : str :=
  match proxy with
  | [] => proxy
  | _ => Py.replace (Py.replace proxy (u "http://") []) (u "https://") []
  end.

(** [format_domain(domain)] *)
Definition format_domain (domain : str) : str :=
  if negb (Py.startswith domain (u "http"))
  then u "http://" ++ domain
  else domain.

Section Validator.
Context (rt : Py.Runtime).

(** The body of the [try] block of [validate_proxy]. *)
Definition validate_proxy_try (proxy : str) : Py.result bool :=
  let parts := Py.split 58 proxy in
  if negb (length parts =? 2)%nat then Py.Ok false
  else
    Py.bind (Py.index parts 1) (λ p1,
    Py.bind (Py.int rt p1) (λ port,
    if negb ((0 <=? port) && (port <=? 65535)) then Py.Ok false
    else Py.Ok true)).

(** [validate_proxy(proxy)] *)
Definition validate_proxy (proxy : str) : Py.result bool :=
  match proxy with
  | [] => Py.Ok false
  | _ => Py.try_except (validate_proxy_try proxy) false
  end.

(** The validator as the specification words it: two colon-separated
    parts, the second an integer in [0, 65535]. *)
Definition splits_into_host_and_port (raw : str) : Prop :=
  ∃ host port_text port,
    Py.split 58 raw = [host; port_text]
    ∧ Py.parse_int rt port_text = Some port
    ∧ 0 ≤ port ≤ 65535.

End Validator.


(** ** The network, and [visit_target] *)

(** The exception classes that [visit_target] catches. *)
Inductive failure :=
| Timeout
| ProxyError
| ConnectionError
| RequestException.

(** What one [requests.get] of the target comes back with: a response
    (its status code, and the seconds the caller measured around the
    call), or an exception with its text. The exceptions are those of
    [requests], which all derive from [RequestException]: the library
    raises no others for a request. *)
Inductive reply :=
| Response (status_code : Z) (elapsed_time : float)
| Failed (kind : failure) (message : str).

(** The tuple that [visit_target] returns: [(True, status, elapsed)] or
    [(False, None, None)]. *)
Inductive outcome :=
| Succeeded (status_code : Z) (elapsed_time : float)
| NotSucceeded.

Definition as_tuple (o : outcome) : bool * option Z * option float :=
  match o with
  | Succeeded c e => (true, Some c, Some e)
  | NotSucceeded => (false, None, None)
  end.

(** Truth value of an optional string: [None] and the empty string are falsy. *)
Definition truthy (p : option str) : bool :=
  match p with
  | Some (_ :: _) => true
  | _ => false
  end.

(** One line printed by [visit_target], before rendering. *)
Inductive line_detail :=
| StatusDetail (status_code : Z) (elapsed_time : float)
| ErrorDetail (error_msg : str).

Record probe_line := {
  line_thread : nat;
  line_proxy : str;
  line_isp : option str;
  line_target : str;
  line_detail_of : line_detail
}.

(** The part of the outside world that [visit_target] changes: how many
    GETs of the target were sent so far, and the console. *)
Record world := {
  sent : nat;
  console : list probe_line
}.

Section Probe.
(** [network n] is what the [n]-th GET of the target comes back with.
    [get_isp_info] is the geolocation lookup: it asks other hosts, and it
    returns a label or raises (the script's own lookup is [Geo.get_isp_info]
    below; [Geo.lookup] makes it a lookup of this type). *)
Context (network : nat → reply) (get_isp_info : str → Py.result str).

(** [requests.get(domain, ...)]: one request leaves, one reply returns. *)
Definition requests_get (w : world) : reply * world :=
  (network (sent w), {| sent := S (sent w); console := console w |}).

Definition print_line (l : probe_line) (w : world) : world :=
  {| sent := sent w; console := console w ++ [l] |}.

(** [str(e)[:50] + "..." if len(str(e)) > 50 else str(e)] *)
Definition error_msg (message : str) : str :=
  if (50 <? length message)%nat then take 50 message ++ u "..." else message.

(** [visit_target(domain, proxy, thread_id, isp_flag)]. The lookup of
    lines 83-86 comes before the [try] of line 88: what it raises leaves
    [visit_target], and the GET of the target is not reached. *)
Definition visit_target (domain : str) (proxy : option str) (thread_id : nat)
    (isp_flag : bool) (w : world) : Py.result (outcome * world) :=
  Py.bind
    (if isp_flag && truthy proxy
     then Py.bind (get_isp_info
                     (hd [] (Py.split 58 (format_proxy (default [] proxy)))))
                  (λ label, Py.Ok (Some label))
     else Py.Ok None) (λ isp_info,
  let proxy_info := if truthy proxy then default [] proxy else u "Direct" in
  let '(r, w1) := requests_get w in
  match r with
  | Response status_code elapsed_time =>
      Py.Ok
        (Succeeded status_code elapsed_time,
         print_line {| line_thread := thread_id; line_proxy := proxy_info;
                       line_isp := if truthy isp_info then isp_info else None;
                       line_target := domain;
                       line_detail_of := StatusDetail status_code elapsed_time |} w1)
  | Failed _ message =>
      Py.Ok
        (NotSucceeded,
         print_line {| line_thread := thread_id; line_proxy := proxy_info;
                       line_isp := None; line_target := domain;
                       line_detail_of := ErrorDetail (error_msg message) |} w1)
  end).
End Probe.

(** ** The statistics dictionary *)

Record Stats := {
  successful_requests : nat;
  failed_requests : nat;
  status_codes : gmap Z nat;
  total_time : float;
  fastest_proxy : option str * float;
  slowest_proxy : option str * float
}.

(** What [stats_lock] guards: [stats] and [successful_proxies]. *)
Record Tally := {
  stats : Stats;
  successful_proxies : gset str
}.

(** [stats] and [successful_proxies] as [run_scan] creates them. The
    integer zeros of [total_time] and [slowest_proxy] are the float zero:
    Python adds and compares an [int] 0 and a [float] as it does 0.0. *)
Definition initial_tally : Tally :=
  {| stats := {| successful_requests := 0; failed_requests := 0;
                 status_codes := ∅; total_time := 0%float;
                 fastest_proxy := (None, infinity);
                 slowest_proxy := (None, 0%float) |};
     successful_proxies := ∅ |}.

(** The body of [with stats_lock:] in [worker]. *)
Definition record_outcome (t : Tally) (current_proxy : option str) (o : outcome) : Tally :=
  let st := stats t in
  match o with
  | Succeeded status_code elapsed_time =>
      {| stats :=
           {| successful_requests := S (successful_requests st);
              failed_requests := failed_requests st;
              status_codes :=
                <[status_code := S (default O (status_codes st !! status_code))]>
                  (status_codes st);
              total_time := (total_time st + elapsed_time)%float;
              fastest_proxy :=
                if (elapsed_time <? snd (fastest_proxy st))%float
                then (current_proxy, elapsed_time) else fastest_proxy st;
              slowest_proxy :=
                if (snd (slowest_proxy st) <? elapsed_time)%float
                then (current_proxy, elapsed_time) else slowest_proxy st |};
         successful_proxies :=
           if (status_code =? 200) && truthy current_proxy
           then {[ Py.replace (Py.replace (default [] current_proxy) (u "http://") [])
                              (u "https://") [] ]} ∪ successful_proxies t
           else successful_proxies t |}
  | NotSucceeded =>
      {| stats :=
           {| successful_requests := successful_requests st;
              failed_requests := S (failed_requests st);
              status_codes := status_codes st;
              total_time := total_time st;
              fastest_proxy := fastest_proxy st;
              slowest_proxy := slowest_proxy st |};
         successful_proxies := successful_proxies t |}
  end.

(** Outcomes merged one after the other, in the order the workers took
    [stats_lock]. *)
Definition replay (t : Tally) (log : list (option str * outcome)) : Tally :=
  fold_left (λ acc e, record_outcome acc (fst e) (snd e)) log t.

(** ** The worker pool

    [worker] runs in [threads] threads of the interpreter. A thread is at
    one of the places below; a step of the pool is one thread moving to
    its next place. Taking a lock is a step of its own, enabled only while
    the lock is free, so mutual exclusion is something the model has to
    earn, not something it assumes. [worker] has no handler around
    [visit_target]: an exception that leaves it ends the thread, with the
    entry it had claimed. The progress bar and the rate line at the end
    of the loop body are display only and are left out. *)

Inductive place :=
| AtLoopHead                                          (* [while True:], about to take [request_count_lock] *)
| HoldsCursor                                         (* inside the lock, at the test of line 216 *)
| Claimed (current_proxy : option str)                (* inside the lock, at [request_count += 1] *)
| Probing (current_proxy : option str)                (* lock released, at [visit_target] *)
| AwaitsStats (current_proxy : option str) (o : outcome)  (* about to take [stats_lock] *)
| HoldsStats (current_proxy : option str) (o : outcome)   (* inside [stats_lock] *)
| Returned                                            (* left the loop by [break] *)
| Died (e : Py.exn).                                  (* killed by an exception nobody caught *)

(** A claim, as it is made at line 218-219: who, which index, which entry. *)
Record claim := {
  claimant : nat;
  claimed_index : nat;
  claimed_entry : option str
}.

Record pool := {
  request_count : nat;
  request_count_lock : option nat;
  stats_lock : option nat;
  shared : Tally;
  places : list place;
  outside : world;
  (* history, kept for the statements only: the script does not store it *)
  claims : list claim;
  recorded : list (option str * outcome);
  lost : list (option str * Py.exn)   (* the entries whose probe raised, with what was raised *)
}.

Definition move (w : nat) (p : place) (s : pool) : pool :=
  {| request_count := request_count s; request_count_lock := request_count_lock s;
     stats_lock := stats_lock s; shared := shared s;
     places := <[w := p]> (places s); outside := outside s;
     claims := claims s; recorded := recorded s; lost := lost s |}.

Definition set_cursor_lock (l : option nat) (s : pool) : pool :=
  {| request_count := request_count s; request_count_lock := l;
     stats_lock := stats_lock s; shared := shared s;
     places := places s; outside := outside s;
     claims := claims s; recorded := recorded s; lost := lost s |}.

Definition set_stats_lock (l : option nat) (s : pool) : pool :=
  {| request_count := request_count s; request_count_lock := request_count_lock s;
     stats_lock := l; shared := shared s;
     places := places s; outside := outside s;
     claims := claims s; recorded := recorded s; lost := lost s |}.

Definition advance_cursor (c : claim) (s : pool) : pool :=
  {| request_count := S (request_count s); request_count_lock := request_count_lock s;
     stats_lock := stats_lock s; shared := shared s;
     places := places s; outside := outside s;
     claims := claims s ++ [c]; recorded := recorded s; lost := lost s |}.

Definition set_outside (w : world) (s : pool) : pool :=
  {| request_count := request_count s; request_count_lock := request_count_lock s;
     stats_lock := stats_lock s; shared := shared s;
     places := places s; outside := w;
     claims := claims s; recorded := recorded s; lost := lost s |}.

Definition merge (current_proxy : option str) (o : outcome) (s : pool) : pool :=
  {| request_count := request_count s; request_count_lock := request_count_lock s;
     stats_lock := stats_lock s;
     shared := record_outcome (shared s) current_proxy o;
     places := places s; outside := outside s;
     claims := claims s; recorded := recorded s ++ [(current_proxy, o)];
     lost := lost s |}.

(** The worker that held [current_proxy] is gone with the exception [e]. *)
Definition lose (current_proxy : option str) (e : Py.exn) (s : pool) : pool :=
  {| request_count := request_count s; request_count_lock := request_count_lock s;
     stats_lock := stats_lock s; shared := shared s;
     places := places s; outside := outside s;
     claims := claims s; recorded := recorded s;
     lost := lost s ++ [(current_proxy, e)] |}.

Section Pool.
Context (network : nat → reply) (get_isp_info : str → Py.result str).
Context (domain : str) (proxies : list str) (isp_flag : bool).

(** [total_requests = len(proxies)] *)
Definition total_requests : nat := length proxies.

(** The pool when the threads are started: [threads] workers at the top
    of their loop, nothing claimed, and [w0] the world after the
    preliminary check. *)
Definition start (threads : nat) (w0 : world) : pool :=
  {| request_count := 0; request_count_lock := None; stats_lock := None;
     shared := initial_tally; places := replicate threads AtLoopHead;
     outside := w0; claims := []; recorded := []; lost := [] |}.

(** One step of thread [w]; [None] when the thread is blocked on a lock,
    has ended, or does not exist. *)
Definition step (w : nat) (s : pool) : option pool :=
  match places s !! w with
  | Some AtLoopHead =>
      match request_count_lock s with
      | None => Some (move w HoldsCursor (set_cursor_lock (Some w) s))
      | Some _ => None
      end
  | Some HoldsCursor =>
      if (total_requests <=? request_count s)%nat
      then Some (move w Returned (set_cursor_lock None s))
      else
        match proxies with
        | [] => Some (move w (Claimed None) s)
        | _ =>
            match Py.index proxies (request_count s) with
            | Py.Ok p => Some (move w (Claimed (Some p)) s)
            | Py.Raise e => Some (move w (Died e) (set_cursor_lock None s))
            end
        end
  | Some (Claimed current_proxy) =>
      Some (move w (Probing current_proxy)
              (set_cursor_lock None
                 (advance_cursor {| claimant := w;
                                    claimed_index := request_count s;
                                    claimed_entry := current_proxy |} s)))
  | Some (Probing current_proxy) =>
      match visit_target network get_isp_info domain current_proxy w isp_flag (outside s) with
      | Py.Ok (o, w') => Some (move w (AwaitsStats current_proxy o) (set_outside w' s))
      | Py.Raise e => Some (move w (Died e) (lose current_proxy e s))
      end
  | Some (AwaitsStats current_proxy o) =>
      match stats_lock s with
      | None => Some (move w (HoldsStats current_proxy o) (set_stats_lock (Some w) s))
      | Some _ => None
      end
  | Some (HoldsStats current_proxy o) =>
      Some (move w AtLoopHead (set_stats_lock None (merge current_proxy o s)))
  | Some Returned | Some (Died _) | None => None
  end.

(** The pool under a schedule: the threads named, one step each, in
    order; a thread that cannot move when it is scheduled loses its turn. *)
Fixpoint exec (schedule : list nat) (s : pool) : pool :=
  match schedule with
  | [] => s
  | w :: rest => exec rest (default s (step w s))
  end.

(** A run of the pool: the threads that moved, in order. *)
Inductive runs : list nat → pool → pool → Prop :=
| runs_nil s : runs [] s s
| runs_cons w trace s s1 s2 : step w s = Some s1 → runs trace s1 s2 → runs (w :: trace) s s2.

(** The threads of a schedule that did move. *)
Fixpoint effective (schedule : list nat) (s : pool) : list nat :=
  match schedule with
  | [] => []
  | w :: rest =>
      match step w s with
      | Some s1 => w :: effective rest s1
      | None => effective rest s
      end
  end.

(** Every thread has ended: [t.join()] returns for each of them. *)
Definition ended (p : place) : bool :=
  match p with
  | Returned | Died _ => true
  | _ => false
  end.

Definition all_joined (s : pool) : bool := forallb ended (places s).

End Pool.

(** ** The report and the persisted file *)

(** [float(n)] for a counter: exact below 2^53, which request counts are. *)
Definition float_of_nat (n : nat) : float :=
  PrimFloat.of_uint63 (Uint63.of_Z (Z.of_nat n)).

(** [x / n] with [n] an [int]: raises when [n] is zero. For two counters
    below 2^53 Python's correctly rounded [int / int] is the float
    quotient of their conversions. *)
Definition truediv (x : float) (n : nat) : Py.result float :=
  match n with
  | O => Py.Raise Py.ZeroDivisionError
  | S _ => Py.Ok (x / float_of_nat n)%float
  end.

Record performance := {
  avg_time : float;
  fastest_shown : option str * float;
  slowest_shown : option str * float
}.

Record report := {
  shown_total : nat;
  shown_successful : nat;
  shown_failed : nat;
  shown_status : list (Z * nat * float);
  shown_performance : option performance
}.

(** The loop of lines 269-281: one line per status code, with
    [percentage = (count / total_requests) * 100]. *)
Fixpoint status_lines (total : nat) (items : list (Z * nat))
  : Py.result (list (Z * nat * float)) :=
  match items with
  | [] => Py.Ok []
  | (status, count) :: rest =>
      Py.bind (truediv (float_of_nat count) total) (λ q,
      Py.bind (status_lines total rest) (λ ls,
      Py.Ok ((status, count, (q * 100)%float) :: ls)))
  end.

(** Lines 262-288. The items of the histogram are listed in the order of
    [map_to_list], where Python lists them by first insertion. *)
Definition summary (total : nat) (st : Stats) : Py.result report :=
  Py.bind (status_lines total (map_to_list (status_codes st))) (λ ls,
  Py.bind
    (if (0 <? successful_requests st)%nat
     then Py.bind (truediv (total_time st) (successful_requests st)) (λ avg,
          Py.Ok (Some {| avg_time := avg;
                         fastest_shown := fastest_proxy st;
                         slowest_shown := slowest_proxy st |}))
     else Py.Ok None) (λ perf,
  Py.Ok {| shown_total := total;
           shown_successful := successful_requests st;
           shown_failed := failed_requests st;
           shown_status := ls;
           shown_performance := perf |})).

(** [datetime.now()]: Python keeps the year in 1..9999, the month in
    1..12, the day in 1..31, the hour below 24, minute and second below 60. *)
Record datetime := {
  year : N; month : N; day : N;
  hour : N; minute : N; second : N
}.

(** The last decimal digit of a number, as a character. *)
Definition digit (n : N) : N := (48 + n mod 10)%N.

(** [%m], [%d], [%H], [%M], [%S]: two digits; [%Y]: four digits (for a
    year below 1000 the C libraries disagree about the padding, and the
    clock is not there). *)
Definition two_digits (n : N) : str := [digit (n / 10); digit n].

Definition four_digits (n : N) : str :=
  [digit (n / 1000); digit (n / 100); digit (n / 10); digit n].

(** [strftime('%Y%m%d_%H%M%S')] *)
Definition strftime (d : datetime) : str :=
  four_digits (year d) ++ two_digits (month d) ++ two_digits (day d) ++ u "_"
  ++ two_digits (hour d) ++ two_digits (minute d) ++ two_digits (second d).

(** A file as [run_scan] writes it: its name and the strings written. *)
Record file := {
  filename : str;
  written : list str
}.

Definition newline : str := [10%N].

(** Lines 291-300. The set is written in the order of [elements], where
    Python iterates in the order of its hash table. *)
Definition persist (domain : str) (now : datetime) (working : gset str) : option file :=
  if decide (working = ∅) then None
  else Some
    {| filename := u "working_proxies_" ++ strftime now ++ u ".txt";
       written :=
         [ u "Target Domain: " ++ domain ++ newline;
           u "Total Working Proxies Found: " ++ Py.str_of_nat (size working) ++ newline;
           u "-----------------------" ++ newline ]
         ++ map (λ proxy, proxy ++ newline) (elements working) |}.

(** ** [run_scan] *)

(** What [run_scan] is given from outside the program. [schedule] is the
    order in which the interpreter runs the worker threads while the main
    thread waits in [join]; it ends when every thread has ended, or
    earlier when the operator interrupts. *)
Record environment := {
  runtime : Py.Runtime;
  network : nat → reply;
  get_isp_info : str → Py.result str;
  open_file : str → option (list str);
  now : datetime;
  schedule : list nat
}.

(** How a call of [run_scan] ends. *)
Inductive scan_end :=
| TargetUnreachable
| ProxyListNotFound
| NoValidProxies (skipped : list str)
| InvalidProxyFormat
| Scanned (skipped : list str) (queue : list str) (final : pool)
          (interrupted : bool) (shown : report) (saved : option file).

(** The loop of lines 183-188: the proxies kept, and the lines skipped. *)
Fixpoint load_proxies (rt : Py.Runtime) (lines : list str)
  : Py.result (list str * list str) :=
  match lines with
  | [] => Py.Ok ([], [])
  | line :: rest =>
      let proxy := format_proxy (Py.strip rt line) in
      Py.bind (validate_proxy rt proxy) (λ valid,
      Py.bind (load_proxies rt rest) (λ r,
      Py.Ok (if valid : bool then (proxy :: fst r, snd r)
             else (fst r, Py.strip rt line :: snd r))))
  end.

(** Lines 204-304: the threads, the report, the file. *)
Definition scan (env : environment) (domain : str) (skipped proxies : list str)
    (threads : nat) (isp_flag : bool) (w1 : world) : Py.result scan_end :=
  let final :=
    exec (network env) (get_isp_info env) domain proxies isp_flag
         (schedule env) (start threads w1) in
  Py.bind (summary (total_requests proxies) (stats (shared final))) (λ shown,
  Py.Ok (Scanned skipped proxies final
           (negb (all_joined final)) shown
           (persist domain (now env) (successful_proxies (shared final))))).

(** Lines 179-201: the work queue (the lines skipped, the proxies kept),
    or the reason why there is no scan. *)
Definition work_queue (env : environment) (proxy proxy_list : option str)
  : Py.result (scan_end + list str * list str) :=
  if truthy proxy_list then
    match open_file env (default [] proxy_list) with
    | None => Py.Ok (inl ProxyListNotFound)
    | Some lines =>
        Py.bind (load_proxies (runtime env) lines) (λ r,
        match fst r with
        | [] => Py.Ok (inl (NoValidProxies (snd r)))
        | proxies => Py.Ok (inr (snd r, proxies))
        end)
    end
  else if truthy proxy then
    Py.bind (validate_proxy (runtime env) (format_proxy (default [] proxy))) (λ valid,
    if negb valid then Py.Ok (inl InvalidProxyFormat)
    else Py.Ok (inr ([], [format_proxy (default [] proxy)])))
  else Py.Ok (inr ([], [])).

(** [run_scan(domain, proxy, proxy_list, threads, isp_flag)] *)
Definition run_scan (env : environment) (domain : str) (proxy proxy_list : option str)
    (threads : nat) (isp_flag : bool) : Py.result scan_end :=
  let domain := format_domain domain in
  let '(r, w1) := requests_get (network env) {| sent := 0; console := [] |} in
  match r with
  | Failed _ _ => Py.Ok TargetUnreachable
  | Response _ _ =>
      Py.bind (work_queue env proxy proxy_list) (λ q,
      match q with
      | inl stop => Py.Ok stop
      | inr (skipped, proxies) => scan env domain skipped proxies threads isp_flag w1
      end)
  end.

(** ** Vocabulary of the statements *)

(** The part of the tally that is counts and sets: successes, failures,
    the histogram and the working proxies. *)
Definition counted (t : Tally) : nat * nat * gmap Z nat * gset str :=
  (successful_requests (stats t), failed_requests (stats t),
   status_codes (stats t), successful_proxies t).

(** Two merged outcomes cannot be told apart by the extrema, or one of
    them is strictly faster: what is excluded is a tie between different
    (proxy, duration) pairs. *)
Definition same_or_ordered (x y : option str * outcome) : Prop :=
  match snd x, snd y with
  | Succeeded _ e1, Succeeded _ e2 =>
      (fst x, e1) = (fst y, e2) ∨ (e1 <? e2)%float = true ∨ (e2 <? e1)%float = true
  | _, _ => True
  end.

Definition tie_free (log : list (option str * outcome)) : Prop :=
  ∀ x y, x ∈ log → y ∈ log → same_or_ordered x y.

(** Equal as numbers ([==] of Python floats): +0.0 and -0.0 are, and a NaN
    is to nothing, itself included. *)
Definition same_duration (a b : float) : Prop := (a =? b)%float = true.

Definition is_number (a : float) : Prop := same_duration a a.

(** The elapsed time of a merged outcome is a number, as the difference of
    two clock readings is. *)
Definition measured (x : option str * outcome) : Prop :=
  match snd x with
  | Succeeded _ e => is_number e
  | NotSucceeded => True
  end.

(** What a thread at a given place holds or owes. *)
Definition holds_cursor (p : place) : bool :=
  match p with
  | HoldsCursor | Claimed _ => true
  | _ => false
  end.

Definition holds_stats (p : place) : bool :=
  match p with
  | HoldsStats _ _ => true
  | _ => false
  end.

(** An entry was claimed and its outcome is not merged yet. *)
Definition in_flight (p : place) : nat :=
  match p with
  | Probing _ | AwaitsStats _ _ | HoldsStats _ _ => 1
  | _ => 0
  end.

(** The probe was made and its outcome is not merged yet. *)
Definition answered (p : place) : nat :=
  match p with
  | AwaitsStats _ _ | HoldsStats _ _ => 1
  | _ => 0
  end.

(** The entry a thread has in hand. *)
Definition in_hand (p : place) : list (option str) :=
  match p with
  | Probing cur | AwaitsStats cur _ | HoldsStats cur _ => [cur]
  | _ => []
  end.

(** The thread was killed by an exception. *)
Definition dead (p : place) : nat :=
  match p with
  | Died _ => 1
  | _ => 0
  end.


Definition tally_of (f : place → nat) (ps : list place) : nat :=
  sum_list_with f ps.

(** A lock is held by the thread that is inside its section, and by no
    other; [inside] tells the places of the section. *)
Definition lock_owned (inside : place → bool) (lock : option nat) (ps : list place) : Prop :=
  (∀ w p, ps !! w = Some p → (inside p = true ↔ lock = Some w))
  ∧ (∀ w, lock = Some w → (w < length ps)%nat).


(** What holds of the pool at every moment of a scan of [proxies] that
    started in the world [w0]. *)
Record invariant (proxies : list str) (w0 : world) (s : pool) : Prop := {
  inv_cursor_bound : (request_count s ≤ length proxies)%nat;
  inv_cursor_lock : lock_owned holds_cursor (request_count_lock s) (places s);
  inv_stats_lock : lock_owned holds_stats (stats_lock s) (places s);
  inv_claimed : ∀ w cur, places s !! w = Some (Claimed cur) →
      ∃ p, proxies !! request_count s = Some p ∧ cur = Some p;
  inv_claims_index : claimed_index <$> claims s = seq 0 (request_count s);
  inv_claims_entry : claimed_entry <$> claims s = Some <$> take (request_count s) proxies;
  inv_claimants : ∀ c, c ∈ claims s → (claimant c < length (places s))%nat;
  inv_in_flight :
    (length (recorded s) + length (lost s) + tally_of in_flight (places s)
     = request_count s)%nat;
  inv_shared : shared s = replay initial_tally (recorded s);
  inv_returned : ∀ w, places s !! w = Some Returned → request_count s = length proxies;
  inv_dead : tally_of dead (places s) = length (lost s);
  inv_sent :
    (sent (outside s)
     = sent w0 + length (recorded s) + tally_of answered (places s))%nat;
  inv_entries :
    (fst <$> recorded s) ++ (fst <$> lost s) ++ (places s ≫= in_hand)
    ≡ₚ Some <$> take (request_count s) proxies
}.

(** ** More of the script: vocabulary *)

(** A line of the proxy file as line 184 prepares it. *)
Definition cleaned (rt : Py.Runtime) (line : str) : str :=
  format_proxy (Py.strip rt line).

(** [if validate_proxy(proxy):] as a Boolean. *)
Definition accepts (rt : Py.Runtime) (proxy : str) : bool :=
  match validate_proxy rt proxy with
  | Py.Ok true => true
  | _ => false
  end.

(** The merged successes with a given status code. *)
Definition with_status (c : Z) (log : list (option str * outcome)) : nat :=
  length (List.filter (λ x, match snd x with
                            | Succeeded c' _ => bool_decide (c' = c)
                            | NotSucceeded => false
                            end) log).

(** The sum of the counts of a histogram. *)
Definition histogram_total (m : gmap Z nat) : nat :=
  sum_list_with snd (map_to_list m).

(** ** The marks of a console line *)

(** Line 99: the icon in front of a probe line. *)
Inductive icon := CheckMark | WarningSign | CrossMark.

Definition status_icon (status_code : Z) : icon :=
  if status_code =? 200 then CheckMark
  else if status_code <? 500 then WarningSign
  else CrossMark.

(** Lines 109-115, and again 273-279 in the report: the colour of a
    status code. *)
Inductive colour := Green | Red | Yellow | Blue.

Definition status_color (status_code : Z) : colour :=
  if 500 <=? status_code then Red
  else if 400 <=? status_code then Yellow
  else if 300 <=? status_code then Blue
  else Green.

(** ** The command line *)

(** The namespace that [parser.parse_args()] returns: [-d], [-p], [-l],
    [-t] (an [int], 1 when absent) and [-isp]. An option that is absent
    is [None]. *)
Record arguments := {
  arg_d : str;
  arg_p : option str;
  arg_l : option str;
  arg_t : Z;
  arg_isp : bool
}.

Inductive main_end :=
| UsageError
| Ran (r : Py.result scan_end).

(** Lines 316-319. [range(threads)] is empty for a count that is not
    positive, so [run_scan] starts [Z.to_nat threads] workers. *)
Definition main (env : environment) (args : arguments) : main_end :=
  if negb (truthy (arg_p args)) && negb (truthy (arg_l args)) then UsageError
  else Ran (run_scan env (arg_d args) (arg_p args) (arg_l args)
                     (Z.to_nat (arg_t args)) (arg_isp args)).

(** ** More of the pool: vocabulary *)

(** What [visit_target] makes of the reply to its GET. *)
Definition outcome_of (r : reply) : outcome :=
  match r with
  | Response status_code elapsed_time => Succeeded status_code elapsed_time
  | Failed _ _ => NotSucceeded
  end.

(** The outcome a thread carries from [visit_target] to the merge. *)
Definition outcome_in_hand (p : place) : list outcome :=
  match p with
  | AwaitsStats _ o | HoldsStats _ o => [o]
  | _ => []
  end.

Definition succeeded (o : outcome) : bool :=
  match o with
  | Succeeded _ _ => true
  | NotSucceeded => false
  end.

(** How many elements of a list pass a test. *)
Definition count_of {A} (f : A → bool) (l : list A) : nat := length (List.filter f l).

(** A line that a worker of the scan can have printed: it names the
    target and a thread of the pool, and an entry of the queue (or
    [Direct] in place of an entry that is the empty string); it shows an
    ISP only when the lookup was asked for. *)
Definition printed_by (domain : str) (proxies : list str) (isp_flag : bool)
    (threads : nat) (l : probe_line) : Prop :=
  line_target l = domain
  ∧ (line_thread l < threads)%nat
  ∧ ((line_proxy l ∈ proxies ∧ line_proxy l ≠ [])
     ∨ (line_proxy l = u "Direct" ∧ [] ∈ proxies))
  ∧ (isp_flag = false → line_isp l = None).

(** The books of a scan that started in the world [w0]: the threads are
    those that were started; the outcomes merged or carried to the merge
    are the replies to the GETs sent since, each once; and the console
    grew by one line for each of these GETs. *)
Record ledger (network : nat → reply) (domain : str) (proxies : list str)
    (isp_flag : bool) (threads : nat) (w0 : world) (s : pool) : Prop := {
  led_threads : length (places s) = threads;
  led_outcomes :
    (snd <$> recorded s) ++ (places s ≫= outcome_in_hand)
    ≡ₚ (λ n, outcome_of (network n)) <$> seq (sent w0) (sent (outside s) - sent w0);
  led_console :
    ∃ new, console (outside s) = console w0 ++ new
      ∧ length new = (sent (outside s) - sent w0)%nat
      ∧ Forall (printed_by domain proxies isp_flag threads) new
}.

(** The address that [visit_target] looks up for a proxy (line 85). *)
Definition proxy_ip (proxy : str) : str :=
  hd [] (Py.split 58 (format_proxy proxy)).

(** No lookup that the scan can make raises: the lookups are not asked
    for, or the lookup returns for every entry of the queue. *)
Definition lookups_return (get_isp_info : str → Py.result str) (isp_flag : bool)
    (proxies : list str) : Prop :=
  isp_flag = true →
  ∀ p, p ∈ proxies → ∃ label, get_isp_info (proxy_ip p) = Py.Ok label.

(** An entry was lost to the lookup: the lookups were asked for, and the
    lookup of this entry of the queue raised what the worker died of. *)
Definition lost_to_lookup (get_isp_info : str → Py.result str) (isp_flag : bool)
    (proxies : list str) (x : option str * Py.exn) : Prop :=
  isp_flag = true
  ∧ ∃ p, fst x = Some p ∧ p ∈ proxies ∧ get_isp_info (proxy_ip p) = Py.Raise (snd x).

(** The merges of a scan by a single worker that has merged [n] outcomes:
    entry [i] of the queue with the reply to GET number [i] of the scan. *)
Definition sequential_log (network : nat → reply) (w0 : world) (proxies : list str)
    (n : nat) : list (option str * outcome) :=
  imap (λ i p, (Some p, outcome_of (network (sent w0 + i)%nat))) (take n proxies).

(** A pool of one worker: what the worker has in hand is the next entry
    of the queue and the reply to the next GET; a worker that died has
    lost the next entry. *)
Definition sequential (network : nat → reply) (proxies : list str) (w0 : world)
    (s : pool) : Prop :=
  recorded s = sequential_log network w0 proxies (length (recorded s))
  ∧ ∃ p, places s = [p]
      ∧ match p with
        | Probing cur =>
            ∃ x, proxies !! length (recorded s) = Some x ∧ cur = Some x
        | AwaitsStats cur o | HoldsStats cur o =>
            (∃ x, proxies !! length (recorded s) = Some x ∧ cur = Some x)
            ∧ o = outcome_of (network (sent w0 + length (recorded s))%nat)
        | Died e =>
            ∃ x, proxies !! length (recorded s) = Some x ∧ lost s = [(Some x, e)]
        | _ => True
        end.

(** ** [get_isp_info]

    The lookup as the script has it, over what the three providers
    answer. The scan above takes its lookup as a parameter; [Geo.lookup]
    is this one in that place. *)

Module Geo.

Set Warnings "-register-all".

(** A value that [response.json()] returns. *)
Inductive json :=
| JNull
| JBool (b : bool)
| JInt (n : Z)
| JFloat (x : float)
| JStr (s : str)
| JList (items : list json)
| JDict (items : gmap str json).

(** The truth value of a value, as [and], [or] and [if] take it. *)
Definition truth (v : json) : bool :=
  match v with
  | JNull => false
  | JBool b => b
  | JInt n => negb (n =? 0)
  | JFloat x => negb (x =? 0)%float
  | JStr s => match s with [] => false | _ => true end
  | JList items => match items with [] => false | _ => true end
  | JDict items => match map_to_list items with [] => false | _ => true end
  end.

(** What [session.get] comes back with: a response, with its status code
    and its body as [response.json()] reads it ([None] for a body that is
    not JSON), or a [RequestException]. *)
Inductive answer :=
| Answered (status_code : Z) (body : option json)
| Refused.

(** The exceptions of the lookup: a [RequestException] of [session.get],
    the error of [response.json()] on a body that is not JSON, and the
    [AttributeError] of [.get] on a value that is not a [dict]. *)
Inductive error :=
| RequestError
| JSONError
| AttributeError.

Inductive result (A : Type) :=
| Ok (a : A)
| Raise (e : error).
Arguments Ok {A} a.
Arguments Raise {A} e.

Definition bind {A B} (r : result A) (k : A → result B) : result B :=
  match r with
  | Ok a => k a
  | Raise e => Raise e
  end.

Definition unknown : json := JStr (u "Unknown ISP").

Definition is_dict (v : json) : bool :=
  match v with
  | JDict _ => true
  | _ => false
  end.

Section Lookup.
(** [web] is what a GET of a URL comes back with. [str_of] is [str()] on
    the values that are not strings, which an f-string applies to what it
    is given. [json_error_is_request_exception] tells the version of
    [requests]: from 2.27 on the error of [response.json()] derives from
    [RequestException], before it is a bare [ValueError]. *)
Context (web : str → answer) (str_of : json → str).
Context (json_error_is_request_exception : bool).

(** [f"{v}"] *)
Definition format (v : json) : str :=
  match v with
  | JStr s => s
  | _ => str_of v
  end.

(** [response.json()] *)
Definition json_of (body : option json) : result json :=
  match body with
  | Some data => Ok data
  | None => Raise JSONError
  end.

(** [data.get(key, default)] *)
Definition get (data : json) (key : str) (default_value : json) : result json :=
  match data with
  | JDict items => Ok (default default_value (items !! key))
  | _ => Raise AttributeError
  end.

Definition ipapi_url (ip : str) : str := u "https://ipapi.co/" ++ ip ++ u "/json/".

Definition ip_api_url (ip : str) : str :=
  u "http://ip-api.com/json/" ++ ip ++ u "?fields=status,message,isp,org".

Definition ipwho_url (ip : str) : str := u "https://ipwho.is/" ++ ip.

(** Lines 45-47 *)
Definition from_ipapi (data : json) : result json :=
  bind (get data (u "org") (JStr [])) (λ org,
  bind (get data (u "asn") (JStr [])) (λ asn,
  Ok (if truth org && truth asn
      then JStr (format org ++ u " (" ++ format asn ++ u ")")
      else if truth org then org
      else if truth asn then asn
      else unknown))).

(** Lines 57-60. [data.get('status')] has the default [None], and only
    the string [success] equals ['success']. *)
Definition from_ip_api (data : json) : result json :=
  bind (get data (u "status") JNull) (λ status,
  match status with
  | JStr s =>
      if decide (s = u "success") then
        bind (get data (u "isp") (JStr [])) (λ isp,
        bind (get data (u "org") (JStr [])) (λ org,
        Ok (if truth isp then isp else if truth org then org else unknown)))
      else Ok unknown
  | _ => Ok unknown
  end).

(** Line 71 *)
Definition from_ipwho (data : json) : result json :=
  bind (get data (u "connection") (JDict ∅)) (λ connection,
  get connection (u "isp") unknown).

(** The body of the outer [try], lines 38-60: the URLs asked, in order,
    and how the body ends. *)
Definition first_providers (ip : str) : list str * result json :=
  match web (ipapi_url ip) with
  | Refused => ([ipapi_url ip], Raise RequestError)
  | Answered status_code body =>
      if status_code =? 200
      then ([ipapi_url ip], bind (json_of body) from_ipapi)
      else
        match web (ip_api_url ip) with
        | Refused => ([ipapi_url ip; ip_api_url ip], Raise RequestError)
        | Answered status_code body =>
            ([ipapi_url ip; ip_api_url ip],
             if status_code =? 200
             then bind (json_of body) from_ip_api
             else Ok unknown)
        end
  end.

(** The handler, lines 63-75: its inner [try] has a bare [except], so
    whatever is raised there ends in ["Unknown ISP"]. *)
Definition last_provider (ip : str) : json :=
  match web (ipwho_url ip) with
  | Refused => unknown
  | Answered status_code body =>
      if status_code =? 200
      then match bind (json_of body) from_ipwho with
           | Ok v => v
           | Raise _ => unknown
           end
      else unknown
  end.

(** [except requests.RequestException] *)
Definition is_request_exception (e : error) : bool :=
  match e with
  | RequestError => true
  | JSONError => json_error_is_request_exception
  | AttributeError => false
  end.

(** [get_isp_info(ip)]: what it returns or raises, and the URLs it asked.
    The session is closed on every path, by [finally]. *)
Definition get_isp_info (ip : str) : result json * list str :=
  let '(asked, r) := first_providers ip in
  match r with
  | Ok v => (Ok v, asked)
  | Raise e =>
      if is_request_exception e
      then (Ok (last_provider ip), asked ++ [ipwho_url ip])
      else (Raise e, asked)
  end.

(** The exception that leaves the lookup, as the interpreter names it:
    the error of [response.json()], where it is not a [RequestException],
    is a [ValueError]. *)
Definition escaped (e : error) : Py.exn :=
  match e with
  | RequestError => Py.RequestException
  | JSONError => Py.ValueError
  | AttributeError => Py.AttributeError
  end.

(** The lookup as [visit_target] uses it: what it raises is raised, and
    of what it returns [visit_target] shows [f"{isp_info}"] when the value
    is truthy and nothing otherwise, which the empty label stands for. *)
Definition lookup (ip : str) : Py.result str :=
  match fst (get_isp_info ip) with
  | Ok v => Py.Ok (if truth v then format v else [])
  | Raise e => Py.Raise (escaped e)
  end.

End Lookup.

End Geo.

(** ** A scan for the examples *)

(** The target answers the preliminary check, then 200 in half a second,
    then a time-out, then 200 again, then 404 for every later request. *)
Definition example_network (n : nat) : reply :=
  match n with
  | 0%nat => Response 200 0.1
  | 1%nat => Response 200 0.5
  | 2%nat => Failed Timeout (u "timed out")
  | 3%nat => Response 200 0.25
  | _ => Response 404 0.25
  end.

(** The threads in turn, round after round. *)
Fixpoint round_robin (threads rounds : nat) : list nat :=
  match rounds with
  | O => []
  | S r => seq 0 threads ++ round_robin threads r
  end.

Definition example_env : environment :=
  {| runtime := Py.ascii_runtime;
     network := example_network;
     get_isp_info := λ _, Py.Ok (u "Unknown ISP");
     open_file := λ path,
       if decide (path = u "proxies.txt")
       then Some [u "1.2.3.4:80" ++ newline; u "1.2.3.4" ++ newline;
                  u "http://5.6.7.8:8080" ++ newline; u "1.2.3.4:80"]
       else None;
     now := {| year := 2024; month := 3; day := 7;
               hour := 9; minute := 5; second := 0 |};
     schedule := round_robin 2 20 |}.

(** * Properties *)

(** ** The built-ins *)

Example split_host_port : Py.split 58 (u "1.2.3.4:8080") = [u "1.2.3.4"; u "8080"].
Proof. reflexivity. Qed.

Example split_of_empty : Py.split 58 (u "") = [u ""].
Proof. reflexivity. Qed.

Example split_keeps_empty_parts : Py.split 58 (u ":80:") = [u ""; u "80"; u ""].
Proof. reflexivity. Qed.

Example replace_does_not_rescan :
  Py.replace (u "hthttp://tp://x") (u "http://") (u "") = u "http://x".
Proof. reflexivity. Qed.

Example strip_both_ends (rt : Py.Runtime) :
  Py.strip rt (u "  1.2.3.4:80 " ++ [13; 10]%N) = u "1.2.3.4:80".
Proof. reflexivity. Qed.

Example int_accepts (rt : Py.Runtime) :
  map (Py.parse_int rt) [u "8080"; u " 8080 "; u "+80"; u "-0"; u "8_0"; u "007"; u "-5"]
  = [Some 8080; Some 8080; Some 80; Some 0; Some 80; Some 7; Some (-5)].
Proof. reflexivity. Qed.

Example int_rejects (rt : Py.Runtime) :
  map (Py.parse_int rt)
      [u ""; u " "; u "+"; u "_1"; u "1_"; u "1__0"; u "1.0"; u "0x10"; u "8 0"; u "+ 1"]
  = replicate 10 None.
Proof. reflexivity. Qed.

(** Digits of another script are digits to [int] when the interpreter's
    tables say so: here the Arabic-Indic digits. *)
Example int_reads_unicode_digits :
  let rt := {| Py.unicode_isspace := λ _, false;
               Py.unicode_todecimal := λ c,
                 if ((1632 <=? c) && (c <=? 1641))%N then Some (c - 1632)%N else None;
               Py.int_max_str_digits := 4300 |} in
  Py.parse_int rt [1640; 1632]%N = Some 80.
Proof. reflexivity. Qed.

Example str_of_counts :
  map Py.str_of_nat [0; 7; 10; 4300]%nat = [u "0"; u "7"; u "10"; u "4300"].
Proof. reflexivity. Qed.

Section PyFacts.
Context (rt : Py.Runtime).

Lemma split_cons_nonempty sep s : Py.split sep s ≠ [].
Proof.
  destruct s as [|c s]; simpl; [done|].
  destruct (c =? sep)%N; [done|]. by destruct (Py.split sep s).
Qed.

Lemma split_without_separator sep s : sep ∉ s → Py.split sep s = [s].
Proof.
  induction s as [|c s IH]; intros Hs; simpl; [done|].
  apply not_elem_of_cons in Hs as [Hc Hs].
  destruct (N.eqb_spec c sep) as [->|_]; [done|]. by rewrite IH.
Qed.

Lemma split_at_separator sep host rest :
  sep ∉ host → Py.split sep (host ++ sep :: rest) = host :: Py.split sep rest.
Proof.
  induction host as [|c host IH]; intros Hs; simpl.
  - by rewrite N.eqb_refl.
  - apply not_elem_of_cons in Hs as [Hc Hs].
    destruct (N.eqb_spec c sep) as [->|_]; [done|]. by rewrite IH.
Qed.

(** The parts of a split hold no separator. *)
Lemma split_parts_without_separator sep s p :
  p ∈ Py.split sep s → sep ∉ p.
Proof.
  revert p. induction s as [|c s IH]; intros p; simpl.
  - intros ->%list_elem_of_singleton. apply not_elem_of_nil.
  - destruct (N.eqb_spec c sep) as [->|Hne].
    + intros [->|Hp]%elem_of_cons; [apply not_elem_of_nil | by apply IH].
    + destruct (Py.split sep s) as [|q qs] eqn:E.
      * intros ->%list_elem_of_singleton.
        by destruct (split_cons_nonempty sep s).
      * intros [->|Hp]%elem_of_cons.
        -- apply not_elem_of_cons. split; [done|]. apply IH. by left.
        -- apply IH. by right.
Qed.

(** Joining the parts with the separator gives the string back. *)
Lemma split_one sep s p : Py.split sep s = [p] → s = p.
Proof.
  revert p. induction s as [|c s IH]; intros p; simpl; [congruence|].
  destruct (N.eqb_spec c sep) as [->|Hne].
  - intros [= _ Hs]. by destruct (split_cons_nonempty sep s).
  - destruct (Py.split sep s) as [|q qs] eqn:E;
      [by destruct (split_cons_nonempty sep s)|].
    intros [= <- ->]. f_equal. by apply IH.
Qed.

Lemma split_two sep s host port :
  Py.split sep s = [host; port] → s = host ++ sep :: port.
Proof.
  revert host. induction s as [|c s IH]; intros host; simpl; [done|].
  destruct (N.eqb_spec c sep) as [->|Hne].
  - intros [= <- Hs]. simpl. f_equal. by apply (split_one sep).
  - destruct (Py.split sep s) as [|q qs] eqn:E; [done|].
    intros [= <- ->]. simpl. f_equal. by apply IH.
Qed.

End PyFacts.

(** ** [validate_proxy] and [format_domain] *)

Section ValidatorFacts.
Context (rt : Py.Runtime).

Lemma validate_proxy_try_true raw :
  validate_proxy_try rt raw = Py.Ok true ↔ splits_into_host_and_port rt raw.
Proof.
  unfold validate_proxy_try, splits_into_host_and_port, Py.int, Py.index.
  split.
  - destruct (Py.split 58 raw) as [|host [|port_text [|? ?]]] eqn:E; simpl; try done.
    destruct (Py.parse_int rt port_text) as [port|] eqn:Ep; simpl; [|done].
    destruct (0 <=? port) eqn:E0; simpl; [|done].
    destruct (port <=? 65535) eqn:E1; simpl; [|done].
    intros _. exists host, port_text, port. split_and!; [done..|lia|lia].
  - intros (host & port_text & port & -> & Hp & H0 & H1). simpl. rewrite Hp. simpl.
    destruct (Z.leb_spec 0 port); [|lia].
    destruct (Z.leb_spec port 65535); [done|lia].
Qed.

(** Whatever the [try] block does, [validate_proxy] returns a Boolean. *)
Lemma validate_proxy_returns raw : ∃ b, validate_proxy rt raw = Py.Ok b.
Proof.
  destruct raw as [|c raw]; simpl; [by eexists|].
  destruct (validate_proxy_try rt (c :: raw)); simpl; by eexists.
Qed.

Lemma validate_proxy_true raw :
  validate_proxy rt raw = Py.Ok true ↔ splits_into_host_and_port rt raw.
Proof.
  rewrite <- validate_proxy_try_true.
  destruct raw as [|c raw]; simpl.
  - split; [done|]. unfold validate_proxy_try. simpl. done.
  - destruct (validate_proxy_try rt (c :: raw)) as [[]|]; simpl; split; congruence.
Qed.

Lemma validate_proxy_host_port host port_text port :
  58%N ∉ host → 58%N ∉ port_text →
  Py.parse_int rt port_text = Some port → 0 ≤ port ≤ 65535 →
  validate_proxy rt (host ++ 58%N :: port_text) = Py.Ok true.
Proof.
  intros Hh Hp Hint Hrange. apply validate_proxy_true.
  exists host, port_text, port. split_and!; [|done|lia|lia].
  by rewrite split_at_separator, split_without_separator.
Qed.

End ValidatorFacts.

(** C2. For every string, [validate_proxy] returns [True] exactly when the
    string splits on the colon into exactly two parts of which the second
    parses as an integer in [0, 65535]; for every other string (the empty
    one included) it returns [False]; it never raises. *)
Theorem validate_proxy_exact (rt : Py.Runtime) (raw : str) :
  (validate_proxy rt raw = Py.Ok true ∧ splits_into_host_and_port rt raw)
  ∨ (validate_proxy rt raw = Py.Ok false ∧ ¬ splits_into_host_and_port rt raw).
Proof.
  destruct (validate_proxy_returns rt raw) as [[] Hb].
  - left. split; [done|]. by apply validate_proxy_true.
  - right. split; [done|]. intros H%validate_proxy_true. congruence.
Qed.

(** The kinds of rejected input that the specification lists. *)
Example validate_proxy_rejects (rt : Py.Runtime) :
  map (validate_proxy rt)
      [ u ""; u "1.2.3.4"; u "1.2.3.4:80:80"; u "1.2.3.4:http"; u "1.2.3.4:";
        u "1.2.3.4:65536"; u "1.2.3.4:-1"; u "1.2.3.4:80.0" ]
  = replicate 8 (Py.Ok false).
Proof. reflexivity. Qed.

(** C10. The validator looks at nothing but the number of colon-separated
    parts and the integer value of the second one: any host part, the empty
    one too, passes, and so does a port written with blanks around it or an
    underscore inside it. Such strings enter the work queue, by [-p] as
    they are, from a file after [strip()]. *)
Theorem validator_accepts_any_host_and_lenient_port (rt : Py.Runtime) :
  (∀ host port_text port,
     58%N ∉ host → 58%N ∉ port_text →
     Py.parse_int rt port_text = Some port → 0 ≤ port ≤ 65535 →
     validate_proxy rt (host ++ 58%N :: port_text) = Py.Ok true)
  ∧ validate_proxy rt (u ":80") = Py.Ok true
  ∧ validate_proxy rt (u "1.2.3.4: 8080 ") = Py.Ok true
  ∧ validate_proxy rt (u "1.2.3.4:8_0") = Py.Ok true
  ∧ (∀ env, runtime env = rt →
       work_queue env (Some (u ":80")) None = Py.Ok (inr ([], [u ":80"]))
       ∧ work_queue env (Some (u "1.2.3.4: 8080 ")) None
         = Py.Ok (inr ([], [u "1.2.3.4: 8080 "])))
  ∧ (∀ env path,
       runtime env = rt → truthy (Some path) = true →
       open_file env path
         = Some [u ":80" ++ newline; u "1.2.3.4: 8080 " ++ newline; u "1.2.3.4:8_0"] →
       work_queue env None (Some path)
         = Py.Ok (inr ([], [u ":80"; u "1.2.3.4: 8080"; u "1.2.3.4:8_0"]))).
Proof.
  split_and!; try reflexivity.
  - apply validate_proxy_host_port.
  - intros env <-. split; reflexivity.
  - intros env path <- Hpath Hopen. unfold work_queue.
    rewrite Hpath. simpl default. rewrite Hopen. reflexivity.
Qed.

(** The general part of C10 at the empty host and the port [" 80 "]. *)
Lemma validator_accepts_any_host_and_lenient_port_witness :
  validate_proxy Py.ascii_runtime ([] ++ 58%N :: u " 80 ") = Py.Ok true.
Proof.
  apply (proj1 (validator_accepts_any_host_and_lenient_port Py.ascii_runtime)
           [] (u " 80 ") 80).
  - apply not_elem_of_nil.
  - vm_compute. intros H. repeat (apply elem_of_cons in H as [H|H]; [discriminate H|]).
    by apply not_elem_of_nil in H.
  - reflexivity.
  - lia.
Defined.

(** [format_domain] tests the first four characters, nothing else. *)
Lemma format_domain_cases domain :
  format_domain domain
  = if Py.startswith domain (u "http") then domain else u "http://" ++ domain.
Proof. unfold format_domain. by destruct (Py.startswith domain (u "http")). Qed.

Lemma format_domain_with_http_scheme rest :
  format_domain (u "http://" ++ rest) = u "http://" ++ rest
  ∧ format_domain (u "https://" ++ rest) = u "https://" ++ rest.
Proof. split; reflexivity. Qed.

(** C9, at the inputs where the code departs from it: a domain without a
    scheme whose name begins with the letters [http] gets no prefix, and a
    URL with another scheme gets [http://] in front of its own. *)
Theorem format_domain_tests_four_letters :
  format_domain (u "httpbin.org") = u "httpbin.org"
  ∧ format_domain (u "ftp://example.com") = u "http://ftp://example.com"
  ∧ format_domain (u "example.com") = u "http://example.com".
Proof. split_and!; reflexivity. Qed.

(** ** [visit_target] *)

(** The two ways a call of [visit_target] ends: the lookup raises, which
    takes the ISP flag and a proxy, and nothing else happens; or one GET
    is sent, one line is printed and the outcome is that of the reply. *)
Lemma visit_target_cases network get_isp_info domain proxy thread_id isp_flag w :
  (∃ e, isp_flag = true ∧ truthy proxy = true
     ∧ get_isp_info (hd [] (Py.split 58 (format_proxy (default [] proxy)))) = Py.Raise e
     ∧ visit_target network get_isp_info domain proxy thread_id isp_flag w = Py.Raise e)
  ∨ (∃ l, visit_target network get_isp_info domain proxy thread_id isp_flag w
          = Py.Ok (outcome_of (network (sent w)),
                   {| sent := S (sent w); console := console w ++ [l] |})
       ∧ line_target l = domain
       ∧ line_thread l = thread_id
       ∧ line_proxy l = (if truthy proxy then default [] proxy else u "Direct")
       ∧ (isp_flag = false → line_isp l = None)
       ∧ (isp_flag && truthy proxy = false
          ∨ ∃ label,
              get_isp_info (hd [] (Py.split 58 (format_proxy (default [] proxy))))
              = Py.Ok label)).
Proof.
  unfold visit_target, requests_get, print_line.
  destruct (isp_flag && truthy proxy) eqn:Hlookup.
  - apply andb_prop in Hlookup as [-> Hproxy].
    destruct (get_isp_info _) as [label|e] eqn:Hlabel; simpl.
    + right. destruct (network (sent w)) as [status elapsed|kind message]; simpl;
        eexists; (split; [reflexivity|]); simpl; split_and!; try done; right; by eexists.
    + left. by exists e.
  - right. simpl.
    destruct (network (sent w)) as [status elapsed|kind message]; simpl;
      eexists; (split; [reflexivity|]); simpl; split_and!; try done; by left.
Qed.

(** C3. A call of [visit_target] that reaches its GET sends exactly one
    (there is no second attempt). When the GET raises a timeout, a proxy
    error, a connection error or any other request exception, the result
    is [(False, None, None)]; when it returns a response, the result is
    [(True, status, elapsed)] whatever the status code, 4xx and 5xx too.
    The GET is reached unless the lookup of the ISP, which comes before
    the [try], raises: that takes the ISP flag and a proxy, and then
    [visit_target] raises what the lookup raised and sends nothing. *)
Theorem visit_target_outcome
    (network : nat → reply) (get_isp_info : str → Py.result str)
    (domain : str) (proxy : option str) (thread_id : nat) (isp_flag : bool) (w : world) :
  match visit_target network get_isp_info domain proxy thread_id isp_flag w with
  | Py.Ok (o, w') =>
      sent w' = S (sent w)
      ∧ match network (sent w) with
        | Response status_code elapsed_time =>
            as_tuple o = (true, Some status_code, Some elapsed_time)
        | Failed _ _ => as_tuple o = (false, None, None)
        end
  | Py.Raise e =>
      isp_flag = true ∧ truthy proxy = true
      ∧ get_isp_info (hd [] (Py.split 58 (format_proxy (default [] proxy)))) = Py.Raise e
  end
  ∧ (isp_flag && truthy proxy = false
     ∨ (∃ label,
          get_isp_info (hd [] (Py.split 58 (format_proxy (default [] proxy))))
          = Py.Ok label) ↔
     ∃ o w', visit_target network get_isp_info domain proxy thread_id isp_flag w
             = Py.Ok (o, w')).
Proof.
  destruct (visit_target_cases network get_isp_info domain proxy thread_id isp_flag w)
    as [(e & -> & Hproxy & Hlookup & ->)|(l & -> & _ & _ & _ & _ & Hreached)].
  - split; [done|]. rewrite Hproxy, Hlookup. simpl.
    split; [intros [?|[label ?]]; done|intros (o & w' & ?); done].
  - split; [|split; [by eexists _, _|done]].
    split; [done|]. by destruct (network (sent w)).
Qed.

Example visit_target_server_error :
  match visit_target (λ _, Response 503 0.5) (λ _, Py.Ok []) (u "http://example.com")
                     (Some (u "1.2.3.4:80")) 0 true {| sent := 0; console := [] |} with
  | Py.Ok (o, _) => as_tuple o = (true, Some 503, Some 0.5%float)
  | Py.Raise _ => False
  end.
Proof. reflexivity. Qed.

Example visit_target_lookup_raises :
  visit_target (λ _, Response 200 0.5) (λ _, Py.Raise Py.AttributeError)
               (u "http://example.com") (Some (u "1.2.3.4:80")) 0 true
               {| sent := 0; console := [] |}
  = Py.Raise Py.AttributeError.
Proof. reflexivity. Qed.

(** ** Order on floats

    The comparisons of binary64 through their specification: [<] is a
    strict order, [==] is a partial equivalence (a NaN equals nothing),
    and numbers that are [==] compare alike with every other float. *)

Ltac spec_float_cases :=
  unfold SFeqb, SFltb, SFcompare;
  repeat match goal with
         | x : spec_float |- _ => destruct x as [[]|[]| |[] ? ?]
         end;
  simpl; try congruence;
  change (PosDef.Pos.compare_cont Eq) with Pos.compare;
  repeat match goal with
         | |- context [(?a ?= ?b)%Z] => destruct (Z.compare_spec a b); subst
         | H : context [(?a ?= ?b)%Z] |- _ => destruct (Z.compare_spec a b); subst
         | |- context [(?a ?= ?b)%positive] => destruct (Pos.compare_spec a b); subst
         | H : context [(?a ?= ?b)%positive] |- _ => destruct (Pos.compare_spec a b); subst
         end;
  simpl in *; try congruence; try lia.

Lemma SFltb_asym a b : SFltb a b = true → SFltb b a = false.
Proof. spec_float_cases. Qed.

Lemma SFltb_trans a b c : SFltb a b = true → SFltb b c = true → SFltb a c = true.
Proof. spec_float_cases. Qed.

Lemma SFeqb_sym a b : SFeqb a b = true → SFeqb b a = true.
Proof. spec_float_cases. Qed.

Lemma SFeqb_trans a b c : SFeqb a b = true → SFeqb b c = true → SFeqb a c = true.
Proof. spec_float_cases. Qed.

Lemma SFltb_eqb_r e m m' : SFeqb m m' = true → SFltb e m = SFltb e m'.
Proof. spec_float_cases. Qed.

Lemma SFltb_eqb_l e m m' : SFeqb m m' = true → SFltb m e = SFltb m' e.
Proof. spec_float_cases. Qed.

Lemma SFeqb_unordered a b :
  SFeqb a a = true → SFeqb b b = true →
  SFltb a b = false → SFltb b a = false → SFeqb a b = true.
Proof. spec_float_cases. Qed.

Lemma float_ltb_asym x y : (x <? y)%float = true → (y <? x)%float = false.
Proof. rewrite !ltb_spec. apply SFltb_asym. Qed.

Lemma float_ltb_trans x y z :
  (x <? y)%float = true → (y <? z)%float = true → (x <? z)%float = true.
Proof. rewrite !ltb_spec. apply SFltb_trans. Qed.

Lemma float_ltb_irrefl x : (x <? x)%float = false.
Proof.
  destruct (x <? x)%float eqn:E; [|done].
  by rewrite (float_ltb_asym _ _ E) in E.
Qed.

Lemma same_duration_sym a b : same_duration a b → same_duration b a.
Proof. unfold same_duration. rewrite !FloatAxioms.eqb_spec. apply SFeqb_sym. Qed.

Lemma same_duration_trans a b c :
  same_duration a b → same_duration b c → same_duration a c.
Proof. unfold same_duration. rewrite !FloatAxioms.eqb_spec. apply SFeqb_trans. Qed.

Lemma same_duration_ltb_r e m m' : same_duration m m' → (e <? m)%float = (e <? m')%float.
Proof. unfold same_duration. rewrite FloatAxioms.eqb_spec, !ltb_spec. apply SFltb_eqb_r. Qed.

Lemma same_duration_ltb_l e m m' : same_duration m m' → (m <? e)%float = (m' <? e)%float.
Proof. unfold same_duration. rewrite FloatAxioms.eqb_spec, !ltb_spec. apply SFltb_eqb_l. Qed.

Lemma same_duration_unordered a b :
  is_number a → is_number b →
  (a <? b)%float = false → (b <? a)%float = false → same_duration a b.
Proof.
  unfold is_number, same_duration. rewrite !FloatAxioms.eqb_spec, !ltb_spec. apply SFeqb_unordered.
Qed.

(** ** The statistics *)

Lemma replay_snoc t log p o :
  replay t (log ++ [(p, o)]) = record_outcome (replay t log) p o.
Proof. unfold replay. by rewrite fold_left_app. Qed.

Lemma replay_cons t p o log :
  replay t ((p, o) :: log) = replay (record_outcome t p o) log.
Proof. done. Qed.



Lemma replay_failures t log :
  Forall (λ x, snd x = NotSucceeded) log →
  fastest_proxy (stats (replay t log)) = fastest_proxy (stats t)
  ∧ slowest_proxy (stats (replay t log)) = slowest_proxy (stats t).
Proof.
  revert t. induction log as [|[p o] log IH]; intros t Hall; [done|].
  apply Forall_cons in Hall as [Ho Hall]. simpl in Ho. subst o.
  rewrite replay_cons. destruct (IH (record_outcome t p NotSucceeded) Hall) as [-> ->].
  done.
Qed.

(** The extrema as [run_scan] creates them and as [worker] moves them. *)
Lemma extrema_follow_strict_comparison t p c e :
  fastest_proxy (stats initial_tally) = (None, infinity)
  ∧ slowest_proxy (stats initial_tally) = (None, 0%float)
  ∧ fastest_proxy (stats (record_outcome t p (Succeeded c e)))
    = (if (e <? snd (fastest_proxy (stats t)))%float
       then (p, e) else fastest_proxy (stats t))
  ∧ slowest_proxy (stats (record_outcome t p (Succeeded c e)))
    = (if (snd (slowest_proxy (stats t)) <? e)%float
       then (p, e) else slowest_proxy (stats t)).
Proof. done. Qed.

(** C6, as the code has it. The extrema start at [+infinity] and [0] and
    move on a strict comparison only, so the first successful outcome sets
    both of them when its elapsed time lies strictly between 0 and
    [+infinity], as every positive finite float does. *)
Theorem first_success_sets_both_extrema
    (failures : list (option str * outcome)) (p : option str) (c : Z) (e : float) :
  Forall (λ x, snd x = NotSucceeded) failures →
  (0 <? e)%float = true → (e <? infinity)%float = true →
  let t := record_outcome (replay initial_tally failures) p (Succeeded c e) in
  fastest_proxy (stats t) = (p, e) ∧ slowest_proxy (stats t) = (p, e).
Proof.
  intros Hall Hpos Hfin. simpl.
  destruct (replay_failures initial_tally failures Hall) as [-> ->]. simpl.
  by rewrite Hpos, Hfin.
Qed.

Lemma first_success_sets_both_extrema_witness :
  let t := record_outcome
             (replay initial_tally [(Some (u "9.9.9.9:1"), NotSucceeded)])
             (Some (u "1.2.3.4:80")) (Succeeded 200 0.3) in
  fastest_proxy (stats t) = (Some (u "1.2.3.4:80"), 0.3%float)
  ∧ slowest_proxy (stats t) = (Some (u "1.2.3.4:80"), 0.3%float).
Proof.
  apply (first_success_sets_both_extrema
           [(Some (u "9.9.9.9:1"), NotSucceeded)] (Some (u "1.2.3.4:80")) 200 0.3%float).
  - repeat constructor.
  - reflexivity.
  - reflexivity.
Defined.

(** C6 as stated fails at an elapsed time of zero, which is [>= 0]: the
    comparison [0 > 0] is false, and the slowest record stays [(None, 0)]
    while the fastest one is set. *)
Lemma first_success_in_no_time_keeps_slowest :
  let t := record_outcome initial_tally (Some (u "1.2.3.4:80")) (Succeeded 200 0) in
  (0 <=? 0)%float = true
  ∧ fastest_proxy (stats t) = (Some (u "1.2.3.4:80"), 0%float)
  ∧ slowest_proxy (stats t) = (None, 0%float)
  ∧ slowest_proxy (stats t) ≠ (Some (u "1.2.3.4:80"), 0%float).
Proof. split_and!; try reflexivity. vm_compute. discriminate. Qed.

(** The same for every first success that is not strictly positive. *)
Lemma first_success_not_positive_keeps_slowest p c e :
  (0 <? e)%float = false →
  slowest_proxy (stats (record_outcome initial_tally p (Succeeded c e))) = (None, 0%float).
Proof. intros H. simpl. by rewrite H. Qed.

(** *** The report *)

Lemma status_lines_returns total items :
  (0 < total)%nat → ∃ ls, status_lines total items = Py.Ok ls.
Proof.
  intros Hpos. induction items as [|[status count] items [ls IH]]; simpl; [by eexists|].
  destruct total as [|n]; [lia|]. simpl. rewrite IH. simpl. by eexists.
Qed.

Lemma summary_returns total st :
  (0 < total)%nat ∨ status_codes st = ∅ →
  ∃ shown, summary total st = Py.Ok shown
    ∧ shown_total shown = total
    ∧ shown_successful shown = successful_requests st
    ∧ shown_failed shown = failed_requests st
    ∧ match successful_requests st with
      | O => shown_performance shown = None
      | S _ =>
          ∃ perf, shown_performance shown = Some perf
            ∧ avg_time perf
              = (total_time st / float_of_nat (successful_requests st))%float
      end.
Proof.
  intros Htotal. unfold summary.
  assert (∃ ls, status_lines total (map_to_list (status_codes st)) = Py.Ok ls) as [ls ->].
  { destruct Htotal as [Hpos| ->]; [by apply status_lines_returns|].
    rewrite map_to_list_empty. by eexists. }
  simpl. destruct (successful_requests st) as [|n] eqn:E; simpl.
  - eexists. split_and!; done.
  - eexists. split_and!; [done..|]. by eexists.
Qed.

(** C7. After any outcomes have been merged, the report is produced
    without a division by zero; it shows an average exactly when at least
    one request succeeded, and the average is the cumulative latency of
    the successes divided by their number. *)
Theorem average_only_with_successes
    (log : list (option str * outcome)) (total : nat) :
  (length log ≤ total)%nat →
  let st := stats (replay initial_tally log) in
  ∃ shown, summary total st = Py.Ok shown
    ∧ match successful_requests st with
      | O => shown_performance shown = None
      | S _ =>
          ∃ perf, shown_performance shown = Some perf
            ∧ avg_time perf
              = (total_time st / float_of_nat (successful_requests st))%float
      end.
Proof.
  intros Hlen st.
  destruct (summary_returns total st) as (shown & Hs & _ & _ & _ & Hperf).
  - destruct log as [|x log]; [by right|]. left. simpl in Hlen. lia.
  - by exists shown.
Qed.

Lemma average_only_with_successes_witness :
  let st := stats (replay initial_tally
                     [(Some (u "1.2.3.4:80"), Succeeded 200 0.5);
                      (Some (u "5.6.7.8:80"), NotSucceeded);
                      (Some (u "9.9.9.9:80"), Succeeded 404 0.25)]) in
  ∃ shown, summary 3 st = Py.Ok shown
    ∧ match successful_requests st with
      | O => shown_performance shown = None
      | S _ =>
          ∃ perf, shown_performance shown = Some perf
            ∧ avg_time perf
              = (total_time st / float_of_nat (successful_requests st))%float
      end.
Proof.
  apply (average_only_with_successes
           [(Some (u "1.2.3.4:80"), Succeeded 200 0.5);
            (Some (u "5.6.7.8:80"), NotSucceeded);
            (Some (u "9.9.9.9:80"), Succeeded 404 0.25)] 3).
  simpl. lia.
Defined.

Example average_of_two :
  (λ r, match r with
        | Py.Ok shown => avg_time <$> shown_performance shown
        | Py.Raise _ => None
        end)
    (summary 3 (stats (replay initial_tally
                         [(Some (u "1.2.3.4:80"), Succeeded 200 0.5);
                          (Some (u "5.6.7.8:80"), NotSucceeded);
                          (Some (u "9.9.9.9:80"), Succeeded 404 0.25)])))
  = Some 0.375%float.
Proof. vm_compute. reflexivity. Qed.

Example no_average_without_success :
  (λ r, match r with
        | Py.Ok shown => Some (shown_performance shown)
        | Py.Raise _ => None
        end)
    (summary 2 (stats (replay initial_tally
                         [(Some (u "1.2.3.4:80"), NotSucceeded);
                          (Some (u "5.6.7.8:80"), NotSucceeded)])))
  = Some None.
Proof. vm_compute. reflexivity. Qed.

(** *** Merging in another order *)

Section MergeOrder.
(** A view of the tally, compared by [same]; [good] are the outcomes that
    the argument is about, [compatible] those that may change places. *)
Context {X : Type} (view : Tally → X) (same : relation X).
Context (good : option str * outcome → Prop).
Context (compatible : relation (option str * outcome)).

Hypothesis same_sym : ∀ a b, same a b → same b a.
Hypothesis same_trans : ∀ a b c, same a b → same b c → same a c.

(** The view after a merge depends on the view before it only. *)
Hypothesis view_congruent : ∀ t1 t2 x,
  good x → same (view t1) (view t2) →
  same (view (record_outcome t1 (fst x) (snd x)))
       (view (record_outcome t2 (fst x) (snd x))).

(** Two compatible outcomes can be merged in either order. *)
Hypothesis view_commutes : ∀ t x y,
  good x → good y → compatible x y → same (view t) (view t) →
  same (view (record_outcome (record_outcome t (fst x) (snd x)) (fst y) (snd y)))
       (view (record_outcome (record_outcome t (fst y) (snd y)) (fst x) (snd x))).

Lemma replay_view_congruent log t1 t2 :
  Forall good log → same (view t1) (view t2) →
  same (view (replay t1 log)) (view (replay t2 log)).
Proof.
  revert t1 t2. induction log as [|[p o] log IH]; intros t1 t2 Hgood Ht; [done|].
  apply Forall_cons in Hgood as [Hx Hgood].
  rewrite !replay_cons. apply IH; [done|]. by apply (view_congruent t1 t2 (p, o)).
Qed.

Lemma replay_view_permutation l1 l2 :
  l1 ≡ₚ l2 →
  Forall good l1 →
  (∀ x y, x ∈ l1 → y ∈ l1 → compatible x y) →
  ∀ t1 t2, same (view t1) (view t2) →
  same (view (replay t1 l1)) (view (replay t2 l2)).
Proof.
  induction 1 as [|[p o] l1 l2 Hperm IH|[p o] [q r] l|l1 l2 l3 H12 IH12 H23 IH23];
    intros Hgood Hcompat t1 t2 Ht.
  - done.
  - apply Forall_cons in Hgood as [Hx Hgood].
    rewrite !replay_cons. apply IH; [done| |].
    + intros x y Hx' Hy'. apply Hcompat; by right.
    + by apply (view_congruent t1 t2 (p, o)).
  - apply Forall_cons in Hgood as [Hy Hgood]. apply Forall_cons in Hgood as [Hx Hgood].
    rewrite !replay_cons. apply replay_view_congruent; [done|].
    apply same_trans with
      (view (record_outcome (record_outcome t1 p o) q r)).
    + apply (view_commutes t1 (q, r) (p, o)); [done..| |].
      * apply Hcompat; [by left | right; by left].
      * eapply same_trans; [done|by apply same_sym].
    + apply (view_congruent _ _ (q, r)); [done|].
      by apply (view_congruent _ _ (p, o)).
  - apply same_trans with (view (replay t1 l2)).
    + apply IH12; [done..|]. eapply same_trans; [done|by apply same_sym].
    + apply IH23; [by rewrite <- H12| |done].
      intros x y Hx Hy. apply Hcompat; by rewrite H12.
Qed.

End MergeOrder.

Lemma histogram_commutes (m : gmap Z nat) (c d : Z) :
  <[d := S (default O (<[c := S (default O (m !! c))]> m !! d))]>
    (<[c := S (default O (m !! c))]> m)
  = <[c := S (default O (<[d := S (default O (m !! d))]> m !! c))]>
      (<[d := S (default O (m !! d))]> m).
Proof.
  destruct (decide (c = d)) as [->|Hne]; [done|].
  rewrite !lookup_insert_ne by done. by apply insert_insert_ne.
Qed.

Lemma counted_congruent t1 t2 p o :
  counted t1 = counted t2 →
  counted (record_outcome t1 p o) = counted (record_outcome t2 p o).
Proof.
  unfold counted. intros [= H1 H2 H3 H4].
  destruct o; simpl; rewrite ?H1, ?H2, ?H3, ?H4; done.
Qed.

Lemma counted_commutes t p o q r :
  counted (record_outcome (record_outcome t p o) q r)
  = counted (record_outcome (record_outcome t q r) p o).
Proof.
  unfold counted. destruct o as [c e|], r as [d f|]; simpl; try done.
  f_equal; [f_equal; apply histogram_commutes|].
  destruct ((c =? 200) && truthy p), ((d =? 200) && truthy q); try done.
  rewrite !(assoc_L (∪)). f_equal. apply (comm_L (∪)).
Qed.

Lemma fastest_commutes t x y :
  same_or_ordered x y →
  fastest_proxy (stats (record_outcome (record_outcome t (fst x) (snd x)) (fst y) (snd y)))
  = fastest_proxy (stats (record_outcome (record_outcome t (fst y) (snd y)) (fst x) (snd x))).
Proof.
  destruct x as [p [c e|]], y as [q [d f|]]; unfold same_or_ordered; simpl; try done.
  intros Hxy.
  destruct (e <? snd (fastest_proxy (stats t)))%float eqn:He,
           (f <? snd (fastest_proxy (stats t)))%float eqn:Hf; simpl;
    rewrite ?He, ?Hf; try done.
  - destruct Hxy as [[= -> ->]|[Hlt|Hlt]]; [done| |];
      rewrite Hlt, (float_ltb_asym _ _ Hlt); done.
  - destruct (f <? e)%float eqn:Hfe; [|done].
    by rewrite (float_ltb_trans _ _ _ Hfe He) in Hf.
  - destruct (e <? f)%float eqn:Hef; [|done].
    by rewrite (float_ltb_trans _ _ _ Hef Hf) in He.
Qed.

Lemma slowest_commutes t x y :
  same_or_ordered x y →
  slowest_proxy (stats (record_outcome (record_outcome t (fst x) (snd x)) (fst y) (snd y)))
  = slowest_proxy (stats (record_outcome (record_outcome t (fst y) (snd y)) (fst x) (snd x))).
Proof.
  destruct x as [p [c e|]], y as [q [d f|]]; unfold same_or_ordered; simpl; try done.
  intros Hxy.
  destruct (snd (slowest_proxy (stats t)) <? e)%float eqn:He,
           (snd (slowest_proxy (stats t)) <? f)%float eqn:Hf; simpl;
    rewrite ?He, ?Hf; try done.
  - destruct Hxy as [[= -> ->]|[Hlt|Hlt]]; [done| |];
      rewrite Hlt, (float_ltb_asym _ _ Hlt); done.
  - destruct (e <? f)%float eqn:Hef; [|done].
    by rewrite (float_ltb_trans _ _ _ He Hef) in Hf.
  - destruct (f <? e)%float eqn:Hfe; [|done].
    by rewrite (float_ltb_trans _ _ _ Hf Hfe) in He.
Qed.

(** The durations of the extrema, up to [==]. *)
Lemma fastest_duration_congruent t1 t2 x :
  measured x →
  same_duration (snd (fastest_proxy (stats t1))) (snd (fastest_proxy (stats t2))) →
  same_duration
    (snd (fastest_proxy (stats (record_outcome t1 (fst x) (snd x)))))
    (snd (fastest_proxy (stats (record_outcome t2 (fst x) (snd x))))).
Proof.
  destruct x as [p [c e|]]; unfold measured, is_number; simpl; [|done]. intros He Hsame.
  rewrite (same_duration_ltb_r e _ _ Hsame).
  by destruct (e <? snd (fastest_proxy (stats t2)))%float.
Qed.

Lemma slowest_duration_congruent t1 t2 x :
  measured x →
  same_duration (snd (slowest_proxy (stats t1))) (snd (slowest_proxy (stats t2))) →
  same_duration
    (snd (slowest_proxy (stats (record_outcome t1 (fst x) (snd x)))))
    (snd (slowest_proxy (stats (record_outcome t2 (fst x) (snd x))))).
Proof.
  destruct x as [p [c e|]]; unfold measured, is_number; simpl; [|done]. intros He Hsame.
  rewrite (same_duration_ltb_l e _ _ Hsame).
  by destruct (snd (slowest_proxy (stats t2)) <? e)%float.
Qed.

Lemma fastest_duration_commutes t x y :
  measured x → measured y →
  is_number (snd (fastest_proxy (stats t))) →
  same_duration
    (snd (fastest_proxy
            (stats (record_outcome (record_outcome t (fst x) (snd x)) (fst y) (snd y)))))
    (snd (fastest_proxy
            (stats (record_outcome (record_outcome t (fst y) (snd y)) (fst x) (snd x))))).
Proof.
  destruct x as [p [c e|]], y as [q [d f|]]; unfold measured, is_number; simpl;
    intros He Hf Hm; try done; try by destruct (_ <? _)%float.
  destruct (e <? snd (fastest_proxy (stats t)))%float eqn:Hem,
           (f <? snd (fastest_proxy (stats t)))%float eqn:Hfm; simpl;
    rewrite ?Hem, ?Hfm; try done.
  - destruct (f <? e)%float eqn:Hfe, (e <? f)%float eqn:Hef; simpl; try done.
    + by rewrite (float_ltb_asym _ _ Hfe) in Hef.
    + by apply same_duration_unordered.
  - destruct (f <? e)%float eqn:Hfe; [|done].
    by rewrite (float_ltb_trans _ _ _ Hfe Hem) in Hfm.
  - destruct (e <? f)%float eqn:Hef; [|done].
    by rewrite (float_ltb_trans _ _ _ Hef Hfm) in Hem.
Qed.

Lemma slowest_duration_commutes t x y :
  measured x → measured y →
  is_number (snd (slowest_proxy (stats t))) →
  same_duration
    (snd (slowest_proxy
            (stats (record_outcome (record_outcome t (fst x) (snd x)) (fst y) (snd y)))))
    (snd (slowest_proxy
            (stats (record_outcome (record_outcome t (fst y) (snd y)) (fst x) (snd x))))).
Proof.
  destruct x as [p [c e|]], y as [q [d f|]]; unfold measured, is_number; simpl;
    intros He Hf Hm; try done; try by destruct (_ <? _)%float.
  destruct (snd (slowest_proxy (stats t)) <? e)%float eqn:Hem,
           (snd (slowest_proxy (stats t)) <? f)%float eqn:Hfm; simpl;
    rewrite ?Hem, ?Hfm; try done.
  - destruct (e <? f)%float eqn:Hef, (f <? e)%float eqn:Hfe; simpl; try done.
    + by rewrite (float_ltb_asym _ _ Hef) in Hfe.
    + by apply same_duration_unordered.
  - destruct (e <? f)%float eqn:Hef; [|done].
    by rewrite (float_ltb_trans _ _ _ Hem Hef) in Hfm.
  - destruct (f <? e)%float eqn:Hfe; [|done].
    by rewrite (float_ltb_trans _ _ _ Hfm Hfe) in Hem.
Qed.

(** C4, as the code has it. Merging the same outcomes in another order
    gives the same success and failure counts, the same status-code
    histogram and the same set of working proxies. The durations of the
    fastest and slowest records are equal as numbers in every order, and
    the records name the same proxies when no two different (proxy,
    duration) pairs tie. (On a tie the record keeps the proxy that was
    merged first, and the cumulative latency is a floating-point sum in
    merge order: neither is promised.) *)
Theorem merge_order_independent_up_to_ties
    (t : Tally) (l1 l2 : list (option str * outcome)) :
  l1 ≡ₚ l2 →
  successful_requests (stats (replay t l1)) = successful_requests (stats (replay t l2))
  ∧ failed_requests (stats (replay t l1)) = failed_requests (stats (replay t l2))
  ∧ status_codes (stats (replay t l1)) = status_codes (stats (replay t l2))
  ∧ successful_proxies (replay t l1) = successful_proxies (replay t l2)
  ∧ (Forall measured l1 →
     is_number (snd (fastest_proxy (stats t))) →
     is_number (snd (slowest_proxy (stats t))) →
       same_duration (snd (fastest_proxy (stats (replay t l1))))
                     (snd (fastest_proxy (stats (replay t l2))))
       ∧ same_duration (snd (slowest_proxy (stats (replay t l1))))
                       (snd (slowest_proxy (stats (replay t l2)))))
  ∧ (tie_free l1 →
       fastest_proxy (stats (replay t l1)) = fastest_proxy (stats (replay t l2))
       ∧ slowest_proxy (stats (replay t l1)) = slowest_proxy (stats (replay t l2))).
Proof.
  intros Hperm.
  assert (Forall (λ _ : option str * outcome, True) l1) as Hany
    by (apply Forall_forall; done).
  pose proof (replay_view_permutation counted eq (λ _, True) (λ _ _, True)
                (λ _ _ H, eq_sym H) (λ _ _ _ H H', eq_trans H H')
                (λ t1 t2 x _, counted_congruent t1 t2 (fst x) (snd x))
                (λ t x y _ _ _ _, counted_commutes t (fst x) (snd x) (fst y) (snd y))
                l1 l2 Hperm Hany (λ _ _ _ _, I) t t eq_refl) as Hcounted.
  unfold counted in Hcounted. injection Hcounted as H1 H2 H3 H4.
  split_and!; try done.
  - intros Hmeasured Hfast Hslow. split.
    + apply (replay_view_permutation
               (λ t, snd (fastest_proxy (stats t))) same_duration measured (λ _ _, True)
               same_duration_sym same_duration_trans fastest_duration_congruent
               (λ t x y Hx Hy _, fastest_duration_commutes t x y Hx Hy) l1 l2); done.
    + apply (replay_view_permutation
               (λ t, snd (slowest_proxy (stats t))) same_duration measured (λ _ _, True)
               same_duration_sym same_duration_trans slowest_duration_congruent
               (λ t x y Hx Hy _, slowest_duration_commutes t x y Hx Hy) l1 l2); done.
  - intros Hties. split.
    + apply (replay_view_permutation
               (λ t, fastest_proxy (stats t)) eq (λ _, True) same_or_ordered
               (λ _ _ H, eq_sym H) (λ _ _ _ H H', eq_trans H H')); try done.
      * intros t1 t2 [p o] _ Ht. destruct o; simpl; by rewrite ?Ht.
      * intros t' x y _ _ Hxy _. by apply fastest_commutes.
    + apply (replay_view_permutation
               (λ t, slowest_proxy (stats t)) eq (λ _, True) same_or_ordered
               (λ _ _ H, eq_sym H) (λ _ _ _ H H', eq_trans H H')); try done.
      * intros t1 t2 [p o] _ Ht. destruct o; simpl; by rewrite ?Ht.
      * intros t' x y _ _ Hxy _. by apply slowest_commutes.
Qed.

Lemma merge_order_independent_up_to_ties_witness :
  let a := (Some (u "1.1.1.1:80"), Succeeded 200 0.5) in
  let b := (Some (u "2.2.2.2:80"), NotSucceeded) in
  let c := (Some (u "3.3.3.3:80"), Succeeded 404 0.25) in
  let d := (Some (u "4.4.4.4:80"), Succeeded 200 0.5) in
  let r1 := replay initial_tally [a; b; c; d] in
  let r2 := replay initial_tally [d; a; b; c] in
  successful_requests (stats r1) = successful_requests (stats r2)
  ∧ failed_requests (stats r1) = failed_requests (stats r2)
  ∧ status_codes (stats r1) = status_codes (stats r2)
  ∧ successful_proxies r1 = successful_proxies r2
  ∧ same_duration (snd (fastest_proxy (stats r1))) (snd (fastest_proxy (stats r2)))
  ∧ same_duration (snd (slowest_proxy (stats r1))) (snd (slowest_proxy (stats r2))).
Proof.
  intros a b c d r1 r2.
  destruct (merge_order_independent_up_to_ties initial_tally [a; b; c; d] [d; a; b; c])
    as (H1 & H2 & H3 & H4 & H5 & _).
  - change [d; a; b; c] with ([d] ++ [a; b; c]).
    change [a; b; c; d] with ([a; b; c] ++ [d]).
    apply Permutation_app_comm.
  - destruct H5 as [H5 H6]; [repeat constructor..|].
    split_and!; done.
Defined.

(** C4 as stated fails twice. Two proxies that answer in the same time:
    each order of merging names another one as the fastest and as the
    slowest. Three latencies of 0.1 s, 0.2 s and 0.3 s: their sum in one
    order is not their sum in the opposite order. *)
Lemma merge_order_decides_ties_and_rounding :
  let a := (Some (u "1.1.1.1:80"), Succeeded 200 0.5) in
  let b := (Some (u "2.2.2.2:80"), Succeeded 200 0.5) in
  let x := (Some (u "1.1.1.1:80"), Succeeded 200 0.1) in
  let y := (Some (u "2.2.2.2:80"), Succeeded 200 0.2) in
  let z := (Some (u "3.3.3.3:80"), Succeeded 200 0.3) in
  ([a; b] ≡ₚ [b; a]
   ∧ fastest_proxy (stats (replay initial_tally [a; b])) = (Some (u "1.1.1.1:80"), 0.5%float)
   ∧ fastest_proxy (stats (replay initial_tally [b; a])) = (Some (u "2.2.2.2:80"), 0.5%float)
   ∧ fastest_proxy (stats (replay initial_tally [a; b]))
     ≠ fastest_proxy (stats (replay initial_tally [b; a]))
   ∧ slowest_proxy (stats (replay initial_tally [a; b]))
     ≠ slowest_proxy (stats (replay initial_tally [b; a])))
  ∧ ([x; y; z] ≡ₚ [z; y; x]
     ∧ (total_time (stats (replay initial_tally [x; y; z]))
        =? total_time (stats (replay initial_tally [z; y; x])))%float = false
     ∧ total_time (stats (replay initial_tally [x; y; z]))
       ≠ total_time (stats (replay initial_tally [z; y; x]))).
Proof.
  intros a b x y z. split_and!; try reflexivity.
  - apply perm_swap.
  - vm_compute. discriminate.
  - vm_compute. discriminate.
  - change [z; y; x] with (rev [x; y; z]). apply Permutation_rev.
  - intros Heq.
    assert ((total_time (stats (replay initial_tally [x; y; z]))
             =? total_time (stats (replay initial_tally [z; y; x])))%float
            = (total_time (stats (replay initial_tally [z; y; x]))
               =? total_time (stats (replay initial_tally [z; y; x])))%float) as Hsame
      by (by rewrite Heq).
    vm_compute in Hsame. discriminate Hsame.
Qed.

(** ** The worker pool *)

Lemma tally_of_app f ps qs : tally_of f (ps ++ qs) = (tally_of f ps + tally_of f qs)%nat.
Proof.
  apply sum_list_with_app.
Qed.

Lemma tally_of_cons f p ps : tally_of f (p :: ps) = (f p + tally_of f ps)%nat.
Proof. done. Qed.

Lemma tally_of_move (f : place → nat) (ps : list place) (w : nat) (p q : place) :
  ps !! w = Some p →
  (tally_of f (<[w := q]> ps) + f p = tally_of f ps + f q)%nat.
Proof.
  intros Hw.
  rewrite <- (take_drop_middle ps w p Hw) at 2.
  rewrite (insert_take_drop ps w q) by (by eapply lookup_lt_Some).
  rewrite !tally_of_app, !tally_of_cons. lia.
Qed.

Lemma in_hand_move (ps : list place) (w : nat) (p q : place) :
  ps !! w = Some p →
  (<[w := q]> ps ≫= in_hand) ++ in_hand p ≡ₚ (ps ≫= in_hand) ++ in_hand q.
Proof.
  intros Hw.
  rewrite <- (take_drop_middle ps w p Hw) at 2.
  rewrite (insert_take_drop ps w q) by (by eapply lookup_lt_Some).
  rewrite !bind_app, !bind_cons.
  rewrite <- !(assoc_L (++)).
  apply Permutation_app_head.
  rewrite (Permutation_app_comm (in_hand q) ((drop (S w) ps ≫= in_hand) ++ in_hand p)).
  rewrite (Permutation_app_comm (drop (S w) ps ≫= in_hand) (in_hand p)).
  by rewrite <- (assoc_L (++)).
Qed.

Lemma lock_acquire inside ps w p q :
  lock_owned inside None ps → ps !! w = Some p → inside q = true →
  lock_owned inside (Some w) (<[w := q]> ps).
Proof.
  intros [Hown Hlen] Hw Hq. split.
  - intros w' p' [(<- & <- & _)|(Hne & Hw')]%list_lookup_insert_Some.
    + done.
    + destruct (Hown w' p' Hw') as [H1 _]. split; [intros H%H1; done|congruence].
  - intros w' [= <-]. rewrite length_insert. by eapply lookup_lt_Some.
Qed.

Lemma lock_release inside ps w p q :
  lock_owned inside (Some w) ps → ps !! w = Some p → inside q = false →
  lock_owned inside None (<[w := q]> ps).
Proof.
  intros [Hown Hlen] Hw Hq. split; [|done].
  intros w' p' [(<- & <- & _)|(Hne & Hw')]%list_lookup_insert_Some.
  - rewrite Hq. done.
  - destruct (Hown w' p' Hw') as [H1 _]. split; [|done].
    intros H%H1. congruence.
Qed.

Lemma lock_keep inside lock ps w p q :
  lock_owned inside lock ps → ps !! w = Some p → inside q = inside p →
  lock_owned inside lock (<[w := q]> ps).
Proof.
  intros [Hown Hlen] Hw Hq. split.
  - intros w' p' [(<- & <- & _)|(Hne & Hw')]%list_lookup_insert_Some.
    + rewrite Hq. by apply Hown.
    + by apply Hown.
  - intros w' Hl. rewrite length_insert. by apply Hlen.
Qed.

Lemma lock_holder inside lock ps w p :
  lock_owned inside lock ps → ps !! w = Some p → inside p = true → lock = Some w.
Proof. intros [Hown _] Hw Hp. by apply (Hown w p Hw). Qed.


Lemma tally_of_replicate f n p : tally_of f (replicate n p) = (n * f p)%nat.
Proof. induction n as [|n IH]; simpl; [done|]. unfold tally_of in *. simpl. rewrite IH. lia. Qed.

Lemma in_hand_replicate n : replicate n AtLoopHead ≫= in_hand = [].
Proof.
  induction n as [|n IH]; [done|].
  change (replicate (S n) AtLoopHead) with (AtLoopHead :: replicate n AtLoopHead).
  by rewrite bind_cons, IH.
Qed.

Lemma in_hand_move_same (ps : list place) (w : nat) (p q : place) :
  ps !! w = Some p → in_hand q = in_hand p →
  <[w := q]> ps ≫= in_hand ≡ₚ ps ≫= in_hand.
Proof.
  intros Hw Heq. apply (Permutation_app_inv_r (in_hand p)).
  rewrite (in_hand_move ps w p q Hw). by rewrite Heq.
Qed.


Lemma invariant_start proxies w0 threads : invariant proxies w0 (start threads w0).
Proof.
  split; simpl.
  - lia.
  - split; [|done]. intros w p [-> _]%lookup_replicate. done.
  - split; [|done]. intros w p [-> _]%lookup_replicate. done.
  - by intros w cur [? _]%lookup_replicate.
  - done.
  - done.
  - intros c Hc. by apply not_elem_of_nil in Hc.
  - rewrite tally_of_replicate. simpl. lia.
  - done.
  - by intros w [? _]%lookup_replicate.
  - rewrite tally_of_replicate. simpl. lia.
  - rewrite tally_of_replicate. simpl. lia.
  - by rewrite in_hand_replicate.
Qed.

(** The facts about the threads at a given kind of place, after thread
    [w] has moved to a place of another kind. *)
Ltac other_threads :=
  let H := fresh "H" in
  intros ? ? H; apply list_lookup_insert_Some in H as [(<- & H & _)|(_ & H)];
  [try discriminate H | by eauto].

Ltac other_threads1 :=
  let H := fresh "H" in
  intros ? H; apply list_lookup_insert_Some in H as [(<- & H & _)|(_ & H)];
  [try discriminate H | eauto].

Lemma invariant_step network get_isp_info domain proxies isp_flag w0 w s s' :
  invariant proxies w0 s →
  step network get_isp_info domain proxies isp_flag w s = Some s' →
  invariant proxies w0 s'.
Proof.
  intros [Hbound Hcl Hsl Hclaimed Hidx Hent Hwho Hfl Hsh Hret Hdead Hsent Hperm] Hstep.
  unfold step in Hstep.
  destruct (places s !! w) as [p|] eqn:Hw; [|done].
  destruct p as [| |cur|cur|cur o|cur o| |e]; try done.
  - (* takes [request_count_lock] *)
    destruct (request_count_lock s) eqn:Hlock; [done|]. injection Hstep as <-.
    pose proof (tally_of_move in_flight _ _ _ HoldsCursor Hw) as Hfl'.
    pose proof (tally_of_move answered _ _ _ HoldsCursor Hw) as Hans'.
    pose proof (tally_of_move dead _ _ _ HoldsCursor Hw) as Hdead'.
    split; simpl in *; try done; try lia.
    + by eapply lock_acquire.
    + by eapply lock_keep.
    + other_threads.
    + intros c Hc. rewrite length_insert. auto.
    + other_threads1.
    + by rewrite (in_hand_move_same _ _ _ HoldsCursor Hw).
  - (* tests the cursor *)
    pose proof (lock_holder _ _ _ _ _ Hcl Hw eq_refl) as Hlock.
    unfold total_requests in Hstep.
    destruct (length proxies <=? request_count s)%nat eqn:Hcmp.
    + apply Nat.leb_le in Hcmp. injection Hstep as <-. rewrite Hlock in Hcl.
      pose proof (tally_of_move in_flight _ _ _ Returned Hw) as Hfl'.
      pose proof (tally_of_move answered _ _ _ Returned Hw) as Hans'.
      pose proof (tally_of_move dead _ _ _ Returned Hw) as Hdead'.
      split; simpl in *; try done; try lia.
      * by eapply lock_release.
      * by eapply lock_keep.
      * other_threads.
      * intros c Hc. rewrite length_insert. auto.
      * by rewrite (in_hand_move_same _ _ _ Returned Hw).
    + apply Nat.leb_gt in Hcmp.
      destruct (lookup_lt_is_Some_2 proxies _ Hcmp) as [p0 Hp0].
      assert (s' = move w (Claimed (Some p0)) s) as ->.
      { unfold Py.index in Hstep. rewrite Hp0 in Hstep.
        destruct proxies; [done|]. by injection Hstep as <-. }
      pose proof (tally_of_move in_flight _ _ _ (Claimed (Some p0)) Hw) as Hfl'.
      pose proof (tally_of_move answered _ _ _ (Claimed (Some p0)) Hw) as Hans'.
      pose proof (tally_of_move dead _ _ _ (Claimed (Some p0)) Hw) as Hdead'.
      split; simpl in *; try done; try lia.
      * by eapply lock_keep.
      * by eapply lock_keep.
      * intros w' cur H. apply list_lookup_insert_Some in H as [(<- & H & _)|(_ & H)]; [|eauto].
        injection H as <-. eauto.
      * intros c Hc. rewrite length_insert. auto.
      * other_threads1.
      * by rewrite (in_hand_move_same _ _ _ (Claimed (Some p0)) Hw).
  - (* advances the cursor and leaves the lock *)
    pose proof (lock_holder _ _ _ _ _ Hcl Hw eq_refl) as Hlock. rewrite Hlock in Hcl.
    destruct (Hclaimed w cur Hw) as (p0 & Hp0 & ->).
    pose proof (lookup_lt_Some _ _ _ Hp0) as Hlt.
    injection Hstep as <-.
    pose proof (tally_of_move in_flight _ _ _ (Probing (Some p0)) Hw) as Hfl'.
    pose proof (tally_of_move answered _ _ _ (Probing (Some p0)) Hw) as Hans'.
    pose proof (tally_of_move dead _ _ _ (Probing (Some p0)) Hw) as Hdead'.
    pose proof (in_hand_move _ _ _ (Probing (Some p0)) Hw) as Hhand.
    pose proof (seq_S (request_count s) 0) as Hseq.
    split; simpl in *; try done; try lia.
    + by eapply lock_release.
    + by eapply lock_keep.
    + intros w' cur H. apply list_lookup_insert_Some in H as [(_ & H & _)|(Hne & H)]; [done|].
      destruct Hcl as [Hown _]. destruct (Hown w' _ H) as [Hh _].
      specialize (Hh eq_refl). congruence.
    + rewrite Hseq, fmap_app, Hidx. done.
    + rewrite fmap_app, Hent, (take_S_r _ _ _ Hp0), fmap_app. done.
    + intros c [Hc| ->%list_elem_of_singleton]%elem_of_app; rewrite length_insert; [auto|].
      simpl. by eapply lookup_lt_Some.
    + other_threads1. apply Hret in H. lia.
    + rewrite app_nil_r in Hhand. rewrite Hhand, !(assoc_L (++)).
      rewrite <- (assoc_L (++) (fst <$> recorded s)), Hperm.
      by rewrite (take_S_r _ _ _ Hp0), fmap_app.
  - (* probes *)
    destruct (visit_target_cases network get_isp_info domain cur w isp_flag (outside s))
      as [(e & _ & _ & _ & Hvisit)|(l & Hvisit & _)];
      rewrite Hvisit in Hstep; injection Hstep as <-.
    + (* the lookup raises: the worker is gone, and its entry with it *)
      pose proof (tally_of_move in_flight _ _ _ (Died e) Hw) as Hfl'.
      pose proof (tally_of_move answered _ _ _ (Died e) Hw) as Hans'.
      pose proof (tally_of_move dead _ _ _ (Died e) Hw) as Hdead'.
      pose proof (in_hand_move _ _ _ (Died e) Hw) as Hhand.
      split; simpl in *; try done; try lia; try (rewrite length_app; simpl; lia).
      * by eapply lock_keep.
      * by eapply lock_keep.
      * other_threads.
      * intros c Hc. rewrite length_insert. auto.
      * other_threads1.
      * rewrite app_nil_r in Hhand. rewrite fmap_app. simpl.
        rewrite <- Hperm, <- Hhand. apply Permutation_app_head.
        rewrite <- (assoc_L (++)). apply Permutation_app_head.
        apply Permutation_app_comm.
    + pose proof (tally_of_move in_flight _ _ _
                    (AwaitsStats cur (outcome_of (network (sent (outside s))))) Hw) as Hfl'.
      pose proof (tally_of_move answered _ _ _
                    (AwaitsStats cur (outcome_of (network (sent (outside s))))) Hw) as Hans'.
      pose proof (tally_of_move dead _ _ _
                    (AwaitsStats cur (outcome_of (network (sent (outside s))))) Hw) as Hdead'.
      split; simpl in *; try done; try lia.
      * by eapply lock_keep.
      * by eapply lock_keep.
      * other_threads.
      * intros c Hc. rewrite length_insert. auto.
      * other_threads1.
      * by rewrite (in_hand_move_same _ _ _
                      (AwaitsStats cur (outcome_of (network (sent (outside s))))) Hw).
  - (* takes [stats_lock] *)
    destruct (stats_lock s) eqn:Hlock; [done|]. injection Hstep as <-.
    pose proof (tally_of_move in_flight _ _ _ (HoldsStats cur o) Hw) as Hfl'.
    pose proof (tally_of_move answered _ _ _ (HoldsStats cur o) Hw) as Hans'.
    pose proof (tally_of_move dead _ _ _ (HoldsStats cur o) Hw) as Hdead'.
    split; simpl in *; try done; try lia.
    + by eapply lock_keep.
    + by eapply lock_acquire.
    + other_threads.
    + intros c Hc. rewrite length_insert. auto.
    + other_threads1.
    + by rewrite (in_hand_move_same _ _ _ (HoldsStats cur o) Hw).
  - (* merges the outcome and leaves the lock *)
    pose proof (lock_holder _ _ _ _ _ Hsl Hw eq_refl) as Hlock. rewrite Hlock in Hsl.
    injection Hstep as <-.
    pose proof (tally_of_move in_flight _ _ _ AtLoopHead Hw) as Hfl'.
    pose proof (tally_of_move answered _ _ _ AtLoopHead Hw) as Hans'.
    pose proof (tally_of_move dead _ _ _ AtLoopHead Hw) as Hdead'.
    pose proof (in_hand_move _ _ _ AtLoopHead Hw) as Hhand.
    split; simpl in *; try done; try lia; try (rewrite length_app; simpl; lia).
    + by eapply lock_keep.
    + by eapply lock_release.
    + other_threads.
    + intros c Hc. rewrite length_insert. auto.
    + by rewrite replay_snoc, Hsh.
    + other_threads1.
    + rewrite app_nil_r in Hhand. rewrite fmap_app, <- !(assoc_L (++)). simpl.
      rewrite <- Hperm, <- Hhand. apply Permutation_app_head.
      rewrite (assoc_L (++) (fst <$> lost s)).
      apply Permutation_cons_append.
Qed.

Section Runs.
Context (network : nat → reply) (get_isp_info : str → Py.result str).
Context (domain : str) (proxies : list str) (isp_flag : bool) (w0 : world).

#[local] Abbreviation step_ := (step network get_isp_info domain proxies isp_flag).
#[local] Abbreviation runs_ := (runs network get_isp_info domain proxies isp_flag).
#[local] Abbreviation exec_ := (exec network get_isp_info domain proxies isp_flag).
#[local] Abbreviation effective_ := (effective network get_isp_info domain proxies isp_flag).

Lemma invariant_runs trace s s' :
  runs_ trace s s' → invariant proxies w0 s → invariant proxies w0 s'.
Proof.
  induction 1 as [|w trace s s1 s2 Hstep _ IH]; [done|].
  intros Hinv. apply IH. by eapply invariant_step.
Qed.

Lemma runs_app t1 t2 s1 s2 s3 : runs_ t1 s1 s2 → runs_ t2 s2 s3 → runs_ (t1 ++ t2) s1 s3.
Proof.
  induction 1 as [|w trace s s1 s2 Hstep _ IH]; [done|].
  intros H. simpl. eapply runs_cons; [done|]. by apply IH.
Qed.

(** A schedule runs the threads that could move when their turn came. *)
Lemma runs_exec schedule s : runs_ (effective_ schedule s) s (exec_ schedule s).
Proof.
  revert s. induction schedule as [|w rest IH]; intros s; simpl; [constructor|].
  destruct (step_ w s) as [s1|] eqn:Hstep; simpl; [|apply IH].
  eapply runs_cons; [done|apply IH].
Qed.

(** And a run is the schedule of itself. *)
Lemma exec_runs trace s s' : runs_ trace s s' → exec_ trace s = s' ∧ effective_ trace s = trace.
Proof.
  induction 1 as [|w trace s s1 s2 Hstep _ [IH1 IH2]]; [done|].
  simpl. rewrite Hstep. simpl. by rewrite IH1, IH2.
Qed.

Lemma invariant_exec schedule s :
  invariant proxies w0 s → invariant proxies w0 (exec_ schedule s).
Proof. apply invariant_runs with (effective_ schedule s), runs_exec. Qed.







Lemma ended_places s :
  all_joined s = true → ∀ w p, places s !! w = Some p → ended p = true.
Proof.
  unfold all_joined. intros Hall w p Hw.
  rewrite forallb_forall in Hall. apply Hall. apply list_elem_of_In.
  by eapply list_elem_of_lookup_2.
Qed.

(** A thread that died is in the count of the dead. *)
Lemma dead_counted (ps : list place) w e :
  ps !! w = Some (Died e) → (1 ≤ tally_of dead ps)%nat.
Proof.
  intros Hw. apply (sum_list_with_in (Died e) dead ps).
  by eapply list_elem_of_lookup_2.
Qed.

Lemma nothing_lost_nobody_died s :
  invariant proxies w0 s → lost s = [] → ∀ w e, places s !! w ≠ Some (Died e).
Proof.
  intros Hinv Hlost w e Hw. pose proof (dead_counted _ _ _ Hw) as Hdead.
  rewrite (inv_dead _ _ _ Hinv), Hlost in Hdead. simpl in Hdead. lia.
Qed.

Lemma all_joined_places s :
  all_joined s = true → invariant proxies w0 s → lost s = [] →
  ∀ w p, places s !! w = Some p → p = Returned.
Proof.
  intros Hall Hinv Hlost w p Hw.
  pose proof (ended_places s Hall w p Hw) as Hp.
  destruct p; try done. by destruct (nothing_lost_nobody_died s Hinv Hlost w e).
Qed.

Lemma tally_of_zero f ps :
  (∀ w p, ps !! w = Some p → f p = 0%nat) → tally_of f ps = 0%nat.
Proof.
  induction ps as [|p ps IH]; intros H; [done|]. unfold tally_of in *. simpl.
  rewrite (H O p eq_refl), IH; [done|]. intros w q Hq. by apply (H (S w)).
Qed.

Lemma in_hand_none ps :
  (∀ w p, ps !! w = Some p → in_hand p = []) → ps ≫= in_hand = [].
Proof.
  induction ps as [|p ps IH]; intros H; [done|]. rewrite bind_cons.
  rewrite (H O p eq_refl), IH; [done|]. intros w q Hq. by apply (H (S w)).
Qed.

(** When every thread has ended: each entry claimed was merged or lost. *)
Lemma joined_pool_accounts s :
  invariant proxies w0 s → all_joined s = true →
  (length (recorded s) + length (lost s) = request_count s)%nat
  ∧ (fst <$> recorded s) ++ (fst <$> lost s) ≡ₚ Some <$> take (request_count s) proxies
  ∧ sent (outside s) = (sent w0 + length (recorded s))%nat.
Proof.
  intros Hinv Hall.
  pose proof (ended_places s Hall) as Hplaces.
  pose proof (inv_in_flight _ _ _ Hinv) as Hfl.
  pose proof (inv_sent _ _ _ Hinv) as Hsent.
  pose proof (inv_entries _ _ _ Hinv) as Hent.
  rewrite tally_of_zero in Hfl
    by (intros w q Hq; specialize (Hplaces _ _ Hq); by destruct q).
  rewrite tally_of_zero in Hsent
    by (intros w q Hq; specialize (Hplaces _ _ Hq); by destruct q).
  rewrite in_hand_none in Hent
    by (intros w q Hq; specialize (Hplaces _ _ Hq); by destruct q).
  rewrite app_nil_r in Hent.
  split_and!; [lia|done|lia].
Qed.

(** When every thread has returned and there was at least one. *)
Lemma joined_pool s :
  invariant proxies w0 s → all_joined s = true → (0 < length (places s))%nat →
  lost s = [] →
  request_count s = length proxies
  ∧ length (recorded s) = length proxies
  ∧ (fst <$> recorded s) ≡ₚ Some <$> proxies
  ∧ sent (outside s) = (sent w0 + length proxies)%nat.
Proof.
  intros Hinv Hall Hlen Hlost.
  pose proof (all_joined_places s Hall Hinv Hlost) as Hplaces.
  destruct (lookup_lt_is_Some_2 _ _ Hlen) as [p Hp].
  assert (request_count s = length proxies) as Hrc.
  { apply (inv_returned _ _ _ Hinv 0%nat). by rewrite Hp, (Hplaces _ _ Hp). }
  destruct (joined_pool_accounts s Hinv Hall) as (Hcount & Hent & Hsent).
  rewrite Hlost in Hcount, Hent. simpl in Hcount, Hent.
  rewrite app_nil_r, Hrc, firstn_all in Hent.
  split_and!; [done|lia|done|lia].
Qed.

End Runs.



(** *** A fair schedule *)

Section FairSchedule.
Context (network : nat → reply) (get_isp_info : str → Py.result str).
Context (domain : str) (proxies : list str) (isp_flag : bool) (w0 : world).

#[local] Abbreviation step' := (step network get_isp_info domain proxies isp_flag).
#[local] Abbreviation exec' := (exec network get_isp_info domain proxies isp_flag).
#[local] Abbreviation effective' := (effective network get_isp_info domain proxies isp_flag).



Lemma joined_stays schedule s : all_joined s = true → exec' schedule s = s.
Proof.
  intros Hall. induction schedule as [|w rest IH]; simpl; [done|].
  assert (step' w s = None) as ->; [|done].
  unfold step, all_joined in *. destruct (places s !! w) as [p|] eqn:Hw; [|done].
  assert (ended p = true) as Hp.
  { rewrite forallb_forall in Hall. apply Hall, list_elem_of_In.
    by eapply list_elem_of_lookup_2. }
  by destruct p.
Qed.





End FairSchedule.

(** ** A lookup that raises *)

(** The providers of the examples below: whatever is asked, the answer is
    200 with a body that is JSON and no object. *)
Example lookup_of_a_list_raises :
  Geo.get_isp_info (λ _, Geo.Answered 200 (Some (Geo.JList []))) (λ _, []) true
                   (u "1.2.3.4")
  = (Geo.Raise Geo.AttributeError, [Geo.ipapi_url (u "1.2.3.4")])
  ∧ Geo.lookup (λ _, Geo.Answered 200 (Some (Geo.JList []))) (λ _, []) true (u "1.2.3.4")
    = Py.Raise Py.AttributeError.
Proof. split; reflexivity. Qed.

(** C1, at an input where the code departs from it. Three proxies, one
    worker, the ISP display asked for, and [ipapi.co] answering 200 with
    a JSON list: the lookup raises [AttributeError], [visit_target]
    raises it before its [try], and the worker, which has no handler, is
    gone after its first claim. Every thread has ended, so the scan is
    not taken for interrupted; the cursor stands at 1 of 3, no probe was
    sent, no outcome was merged, and the report shows 3 requests with 0
    successful and 0 failed. *)
Theorem lookup_failure_ends_the_scan_early :
  let env := {| runtime := Py.ascii_runtime;
                network := λ _, Response 200 0.3;
                get_isp_info :=
                  Geo.lookup (λ _, Geo.Answered 200 (Some (Geo.JList []))) (λ _, []) true;
                open_file := λ _, Some [u "1.2.3.4:80" ++ newline;
                                        u "5.6.7.8:80" ++ newline;
                                        u "9.9.9.9:80" ++ newline];
                now := now example_env;
                schedule := round_robin 1 20 |} in
  match run_scan env (u "example.com") None (Some (u "proxies.txt")) 1 true with
  | Py.Ok (Scanned skipped queue final interrupted shown saved) =>
      queue = [u "1.2.3.4:80"; u "5.6.7.8:80"; u "9.9.9.9:80"]
      ∧ places final = [Died Py.AttributeError]
      ∧ all_joined final = true
      ∧ interrupted = false
      ∧ request_count final = 1%nat
      ∧ claimed_entry <$> claims final = [Some (u "1.2.3.4:80")]
      ∧ lost final = [(Some (u "1.2.3.4:80"), Py.AttributeError)]
      ∧ recorded final = []
      ∧ sent (outside final) = 1%nat
      ∧ (shown_total shown, shown_successful shown, shown_failed shown) = (3, 0, 0)%nat
      ∧ saved = None
  | _ => False
  end.
Proof. vm_compute. by split_and!. Qed.

(** ** Validated proxies carry no scheme *)

Lemma startswith_prefix s p : Py.startswith s p = true → ∃ r, s = p ++ r.
Proof.
  revert s. induction p as [|a p IH]; intros s; simpl; [by exists s|].
  destruct s as [|b s]; [done|].
  intros [->%N.eqb_eq [r ->]%IH]%andb_prop. by exists r.
Qed.

Lemma replace_absent old new s :
  (∀ k, Py.startswith (drop k s) old = false) → Py.replace s old new = s.
Proof.
  unfold Py.replace. induction s as [|c s IH]; intros Habsent; simpl; [done|].
  pose proof (Habsent O) as H0. simpl in H0. rewrite H0. f_equal.
  apply IH. intros k. apply (Habsent (S k)).
Qed.

Lemma single_separator (sep : N) host port a b :
  sep ∉ host → sep ∉ port → host ++ sep :: port = a ++ sep :: b →
  a = host ∧ b = port.
Proof.
  revert a. induction host as [|h host IH]; intros a Hh Hp; simpl.
  - destruct a as [|c a]; simpl; [by intros [= ->]|].
    intros [= <- ->]. destruct Hp. apply elem_of_app. right. by left.
  - apply not_elem_of_cons in Hh as [Hne Hh].
    destruct a as [|c a]; simpl; [by intros [= ->]|].
    intros [= <- Heq]. destruct (IH a Hh Hp Heq) as [-> ->]. done.
Qed.

Lemma parse_int_slash rt x : Py.parse_int rt (47%N :: x) = None.
Proof.
  unfold Py.parse_int, Py.to_ascii.
  destruct (forallb _ _); simpl; done.
Qed.

Lemma validated_without_scheme rt p scheme :
  validate_proxy rt p = Py.Ok true →
  ∀ k, Py.startswith (drop k p) (scheme ++ u "://") = false.
Proof.
  intros (host & port_text & port & Hsplit & Hint & _)%validate_proxy_true k.
  destruct (Py.startswith _ _) eqn:Hstart; [|done].
  apply startswith_prefix in Hstart as [r Hr].
  pose proof (split_two _ _ _ _ Hsplit) as Hp.
  assert (58%N ∉ host) as Hh.
  { apply (split_parts_without_separator 58 p). rewrite Hsplit. by left. }
  assert (58%N ∉ port_text) as Hpt.
  { apply (split_parts_without_separator 58 p). rewrite Hsplit. right. by left. }
  rewrite <- (take_drop k p), Hr in Hp.
  change (scheme ++ u "://") with (scheme ++ 58%N :: u "//") in Hp.
  rewrite <- (assoc_L (++)), (assoc_L (++) (take k p)) in Hp. simpl in Hp.
  symmetry in Hp. destruct (single_separator _ _ _ _ _ Hh Hpt Hp) as [_ Hport].
  rewrite <- Hport in Hint. simpl in Hint. by rewrite parse_int_slash in Hint.
Qed.

Lemma validated_is_clean rt p :
  validate_proxy rt p = Py.Ok true →
  p ≠ [] ∧ Py.replace (Py.replace p (u "http://") []) (u "https://") [] = p.
Proof.
  intros Hvalid. split; [by intros ->|].
  rewrite (replace_absent (u "http://") [] p).
  - apply replace_absent. apply (validated_without_scheme rt p (u "https") Hvalid).
  - apply (validated_without_scheme rt p (u "http") Hvalid).
Qed.

Lemma validated_format_proxy rt p :
  validate_proxy rt p = Py.Ok true → format_proxy p = p.
Proof.
  intros Hvalid. destruct (validated_is_clean rt p Hvalid) as [Hne Hclean].
  by destruct p.
Qed.

(** ** [run_scan] *)

Lemma load_proxies_returns rt lines :
  ∃ kept skipped, load_proxies rt lines = Py.Ok (kept, skipped)
    ∧ Forall (λ p, validate_proxy rt p = Py.Ok true) kept.
Proof.
  induction lines as [|line lines (kept & skipped & IH & Hvalid)]; simpl.
  - by exists [], [].
  - destruct (validate_proxy_returns rt (format_proxy (Py.strip rt line))) as [b Hb].
    rewrite Hb, IH. simpl. destruct b; simpl.
    + eexists _, _. split; [done|]. by constructor.
    + by eexists _, _.
Qed.

Lemma work_queue_returns env proxy proxy_list :
  (∃ stop, work_queue env proxy proxy_list = Py.Ok (inl stop)
           ∧ match stop with Scanned _ _ _ _ _ _ => False | _ => True end)
  ∨ (∃ skipped proxies,
       work_queue env proxy proxy_list = Py.Ok (inr (skipped, proxies))
       ∧ Forall (λ p, validate_proxy (runtime env) p = Py.Ok true) proxies).
Proof.
  unfold work_queue. destruct (truthy proxy_list).
  - destruct (open_file env _) as [lines|]; [|left; by eexists].
    destruct (load_proxies_returns (runtime env) lines) as (kept & skipped & -> & Hvalid).
    simpl. destruct kept; [left; by eexists|right; by eexists _, _].
  - destruct (truthy proxy); [|right; by eexists _, _].
    destruct (validate_proxy_returns (runtime env) (format_proxy (default [] proxy)))
      as [b Hb].
    rewrite Hb. simpl. destruct b; simpl; [right|left; by eexists].
    eexists _, _. split; [done|]. by repeat constructor.
Qed.

Lemma tally_of_le f g ps : (∀ p, f p ≤ g p)%nat → (tally_of f ps ≤ tally_of g ps)%nat.
Proof.
  intros Hle. unfold tally_of. induction ps as [|p ps IH]; simpl; [lia|].
  pose proof (Hle p). lia.
Qed.

(** The threads, the report and the file always come to an end. *)
Lemma scan_returns env domain skipped proxies threads isp_flag w1 :
  let final := exec (network env) (get_isp_info env) domain proxies isp_flag
                    (schedule env) (start threads w1) in
  ∃ shown,
    scan env domain skipped proxies threads isp_flag w1
    = Py.Ok (Scanned skipped proxies final (negb (all_joined final)) shown
               (persist domain (now env) (successful_proxies (shared final))))
    ∧ invariant proxies w1 final
    ∧ summary (length proxies) (stats (shared final)) = Py.Ok shown
    ∧ shown_total shown = length proxies
    ∧ shown_successful shown = successful_requests (stats (shared final))
    ∧ shown_failed shown = failed_requests (stats (shared final))
    ∧ match successful_requests (stats (shared final)) with
      | O => shown_performance shown = None
      | S _ =>
          ∃ perf, shown_performance shown = Some perf
            ∧ avg_time perf
              = (total_time (stats (shared final))
                 / float_of_nat (successful_requests (stats (shared final))))%float
      end.
Proof.
  intros final.
  assert (invariant proxies w1 final) as Hinv.
  { apply invariant_exec, invariant_start. }
  unfold scan. fold final.
  assert ((0 < total_requests proxies)%nat ∨ status_codes (stats (shared final)) = ∅)
    as Htotal.
  { unfold total_requests. destruct proxies as [|p ps]; [right|left; simpl; lia].
    pose proof (inv_cursor_bound _ _ _ Hinv) as Hb.
    pose proof (inv_in_flight _ _ _ Hinv) as Hf. simpl in Hb.
    rewrite (inv_shared _ _ _ Hinv).
    destruct (recorded final); [done|simpl in Hf; lia]. }
  unfold summary in *.
  destruct (summary_returns (total_requests proxies) (stats (shared final)) Htotal)
    as (shown & Hshown & H0 & H1 & H2 & H3).
  unfold summary in Hshown.
  exists shown. rewrite Hshown. simpl. split_and!; done.
Qed.

Lemma run_scan_returns env domain proxy proxy_list threads isp_flag :
  ∃ e, run_scan env domain proxy proxy_list threads isp_flag = Py.Ok e.
Proof.
  unfold run_scan, requests_get. simpl.
  destruct (network env 0%nat); [|by eexists].
  destruct (work_queue_returns env proxy proxy_list)
    as [(stop & -> & _)|(skipped & proxies & -> & _)]; simpl; [by eexists|].
  destruct (scan_returns env (format_domain domain) skipped proxies threads isp_flag
              {| sent := 1; console := [] |}) as (shown & -> & _).
  by eexists.
Qed.

(** What a scan that was made consists of. *)
Lemma run_scan_scanned env domain proxy proxy_list threads isp_flag
    skipped queue final interrupted shown saved :
  run_scan env domain proxy proxy_list threads isp_flag
  = Py.Ok (Scanned skipped queue final interrupted shown saved) →
  work_queue env proxy proxy_list = Py.Ok (inr (skipped, queue))
  ∧ Forall (λ p, validate_proxy (runtime env) p = Py.Ok true) queue
  ∧ final = exec (network env) (get_isp_info env) (format_domain domain) queue isp_flag
                 (schedule env) (start threads {| sent := 1; console := [] |})
  ∧ invariant queue {| sent := 1; console := [] |} final
  ∧ interrupted = negb (all_joined final)
  ∧ summary (length queue) (stats (shared final)) = Py.Ok shown
  ∧ saved = persist (format_domain domain) (now env) (successful_proxies (shared final)).
Proof.
  unfold run_scan, requests_get. simpl.
  destruct (network env 0%nat); [|done].
  destruct (work_queue_returns env proxy proxy_list)
    as [(stop & -> & Hstop)|(sk & q & -> & Hvalid)]; simpl.
  - by intros [= ->].
  - pose proof (scan_returns env (format_domain domain) sk q threads isp_flag
              {| sent := 1; console := [] |}) as (sh & Hscan & Hinv & Hsum & _).
    rewrite Hscan. intros [= <- <- <- <- <- <-]. split_and!; done.
Qed.

(** The set of working proxies after a replay. *)
Lemma replay_successful_proxies t log x :
  x ∈ successful_proxies (replay t log)
  ↔ x ∈ successful_proxies t
    ∨ ∃ p e, (p, Succeeded 200 e) ∈ log ∧ truthy p = true
        ∧ x = Py.replace (Py.replace (default [] p) (u "http://") []) (u "https://") [].
Proof.
  revert t. induction log as [|[q o] log IH]; intros t.
  - simpl. split; [by left|]. intros [H|(p & e & H & _)]; [done|].
    by apply not_elem_of_nil in H.
  - rewrite replay_cons, IH. split.
    + intros [Hx|(p & e & Hin & Hp & ->)].
      * destruct o as [c f|]; simpl in Hx; [|by left].
        destruct (Z.eqb_spec c 200) as [->|Hne]; simpl in Hx; [|by left].
        destruct (truthy q) eqn:Hq; [|by left].
        apply elem_of_union in Hx as [->%elem_of_singleton|Hx]; [|by left].
        right. exists q, f. split_and!; [by left|done..].
      * right. exists p, e. split_and!; [by right|done..].
    + intros [Hx|(p & e & [[= -> <-]|Hin]%elem_of_cons & Hp & ->)].
      * left. destruct o as [c f|]; simpl; [|done].
        destruct ((c =? 200) && truthy q); [|done]. apply elem_of_union. by right.
      * left. simpl. rewrite Hp. simpl. apply elem_of_union. left. by apply elem_of_singleton.
      * right. by exists p, e.
Qed.



Lemma recorded_from_queue queue w1 s p o :
  invariant queue w1 s → (p, o) ∈ recorded s → ∃ x, p = Some x ∧ x ∈ queue.
Proof.
  intros Hinv Hin.
  assert (p ∈ (fst <$> recorded s) ++ (fst <$> lost s) ++ (places s ≫= in_hand)) as Hp.
  { apply elem_of_app. left. apply list_elem_of_fmap. by exists (p, o). }
  rewrite (inv_entries _ _ _ Hinv) in Hp.
  apply list_elem_of_fmap in Hp as (x & -> & Hx). exists x. split; [done|].
  rewrite <- (take_drop (request_count s) queue). apply elem_of_app. by left.
Qed.

(** The time stamp: eight digits, an underscore, six digits. *)
Lemma strftime_shape d :
  length (strftime d) = 15%nat ∧ strftime d !! 8%nat = Some 95%N.
Proof. done. Qed.

(** In a scan the set of working proxies is the set of the entries whose
    merged outcome has status 200. *)
Lemma working_proxies_of_scan rt queue w1 s x :
  Forall (λ p, validate_proxy rt p = Py.Ok true) queue →
  invariant queue w1 s →
  x ∈ successful_proxies (shared s) ↔ ∃ e, (Some x, Succeeded 200 e) ∈ recorded s.
Proof.
  intros Hvalid Hinv. rewrite (inv_shared _ _ _ Hinv), replay_successful_proxies.
  rewrite Forall_forall in Hvalid. split.
  - intros [Hx|(p & e & Hin & Hp & ->)]; [done|].
    destruct (recorded_from_queue _ _ _ _ _ Hinv Hin) as (y & -> & Hy).
    destruct (validated_is_clean rt y (Hvalid y Hy)) as [_ Hclean].
    simpl. rewrite Hclean. by exists e.
  - intros [e Hin]. right. exists (Some x), e.
    destruct (recorded_from_queue _ _ _ _ _ Hinv Hin) as (y & [= <-] & Hy).
    destruct (validated_is_clean rt x (Hvalid x Hy)) as [Hne Hclean].
    split_and!; [done| |exact (eq_sym Hclean)]. by destruct x.
Qed.

(** C8. After a scan, the file [working_proxies_<YYYYMMDD_HHMMSS>.txt] is
    written exactly when some proxy's merged outcome has status 200. It
    holds a line with the target, a line with the count, a line of dashes,
    and then the working proxies, each [host:port] once however often the
    input named it. *)
Theorem working_proxies_file
    (env : environment) (domain : str) (proxy proxy_list : option str)
    (threads : nat) (isp_flag : bool) (skipped queue : list str) (final : pool)
    (interrupted : bool) (shown : report) (saved : option file) :
  run_scan env domain proxy proxy_list threads isp_flag
  = Py.Ok (Scanned skipped queue final interrupted shown saved) →
  (saved = None ↔ ¬ ∃ p e, (Some p, Succeeded 200 e) ∈ recorded final)
  ∧ (∀ f, saved = Some f →
       filename f = u "working_proxies_" ++ strftime (now env) ++ u ".txt"
       ∧ length (strftime (now env)) = 15%nat
       ∧ strftime (now env) !! 8%nat = Some 95%N
       ∧ ∃ lines,
           written f
           = [ u "Target Domain: " ++ format_domain domain ++ newline;
               u "Total Working Proxies Found: " ++ Py.str_of_nat (length lines) ++ newline;
               u "-----------------------" ++ newline ]
             ++ ((λ p, p ++ newline) <$> lines)
           ∧ NoDup lines
           ∧ (∀ p, p ∈ lines ↔ ∃ e, (Some p, Succeeded 200 e) ∈ recorded final)
           ∧ (∀ p, p ∈ lines → p ∈ queue ∧ splits_into_host_and_port (runtime env) p)).
Proof.
  intros (_ & Hvalid & _ & Hinv & _ & _ & ->)%run_scan_scanned.
  pose proof (λ x, working_proxies_of_scan _ _ _ _ x Hvalid Hinv) as Hworking.
  unfold persist. destruct (decide (successful_proxies (shared final) = ∅)) as [Hempty|Hne].
  - split; [|done]. split; [|done]. intros _ (p & e & Hin).
    assert (p ∈ successful_proxies (shared final)) as Hp by (apply Hworking; by exists e).
    rewrite Hempty in Hp. by apply not_elem_of_empty in Hp.
  - split.
    + split; [done|]. intros Hnone. destruct Hne. apply set_eq. intros x.
      split; [|by intros ?%not_elem_of_empty].
      intros [e He]%Hworking. destruct Hnone. by exists x, e.
    + intros f [= <-]. simpl. split; [done|]. split; [done|]. split; [done|].
      exists (elements (successful_proxies (shared final))). split_and!.
      * done.
      * apply NoDup_elements.
      * intros p. by rewrite elem_of_elements.
      * intros p [e He]%elem_of_elements%Hworking.
        destruct (recorded_from_queue _ _ _ _ _ Hinv He) as (x & [= <-] & Hx).
        split; [done|]. apply validate_proxy_true.
        rewrite Forall_forall in Hvalid. by apply Hvalid.
Qed.

(** C5, at its scenario: no proxy, no proxy list, a target that answers
    200 in 0.3 s. [total_requests] is the length of the empty proxy list,
    so every worker leaves its loop at once: the only request sent is the
    preliminary check, nothing is merged, the report shows no success, no
    status code and no average, and no file is written. *)
Theorem direct_mode_probes_nothing
    (rt : Py.Runtime) (lookup_isp : str → Py.result str) (open : str → option (list str))
    (clock : datetime) (interleaving : list nat)
    (domain : str) (threads : nat) (isp_flag : bool) :
  let env := {| runtime := rt; network := λ _, Response 200 0.3;
                get_isp_info := lookup_isp; open_file := open;
                now := clock; schedule := interleaving |} in
  ∃ final shown,
    run_scan env domain None None threads isp_flag
    = Py.Ok (Scanned [] [] final (negb (all_joined final)) shown None)
    ∧ sent (outside final) = 1%nat
    ∧ recorded final = []
    ∧ shared final = initial_tally
    ∧ shown_total shown = 0%nat
    ∧ shown_successful shown = 0%nat
    ∧ shown_failed shown = 0%nat
    ∧ shown_status shown = []
    ∧ shown_performance shown = None.
Proof.
  intros env. unfold run_scan, requests_get. simpl.
  destruct (scan_returns env (format_domain domain) [] [] threads isp_flag
              {| sent := 1; console := [] |})
    as (shown & Hscan & Hinv & Hsum & _).
  set (final := exec _ _ _ _ _ _ _) in *.
  pose proof (inv_cursor_bound _ _ _ Hinv) as Hb.
  pose proof (inv_in_flight _ _ _ Hinv) as Hf.
  pose proof (inv_sent _ _ _ Hinv) as Hs.
  pose proof (tally_of_le answered in_flight (places final)) as Hle.
  simpl in Hb, Hs.
  assert (recorded final = []) as Hrec by (destruct (recorded final); [done|simpl in Hf; lia]).
  assert (shared final = initial_tally) as Hshared by (by rewrite (inv_shared _ _ _ Hinv), Hrec).
  rewrite Hshared in Hscan, Hsum.
  exists final, shown. rewrite Hscan.
  unfold summary in Hsum. simpl in Hsum. rewrite map_to_list_empty in Hsum.
  simpl in Hsum. injection Hsum as <-. simpl.
  split_and!; try done.
  assert (∀ p, answered p ≤ in_flight p)%nat as Hpt by (by intros []; simpl; lia).
  specialize (Hle Hpt). lia.
Qed.

Lemma working_proxies_file_witness :
  match run_scan example_env (u "example.com") None (Some (u "proxies.txt")) 2 false with
  | Py.Ok (Scanned _ _ final _ _ saved) =>
      (saved = None ↔ ¬ ∃ p e, (Some p, Succeeded 200 e) ∈ recorded final)
      ∧ (∀ f, saved = Some f →
           filename f = u "working_proxies_" ++ strftime (now example_env) ++ u ".txt"
           ∧ length (strftime (now example_env)) = 15%nat
           ∧ strftime (now example_env) !! 8%nat = Some 95%N
           ∧ ∃ lines,
               written f
               = [ u "Target Domain: " ++ format_domain (u "example.com") ++ newline;
                   u "Total Working Proxies Found: " ++ Py.str_of_nat (length lines)
                     ++ newline;
                   u "-----------------------" ++ newline ]
                 ++ ((λ p, p ++ newline) <$> lines)
               ∧ NoDup lines
               ∧ (∀ p, p ∈ lines ↔ ∃ e, (Some p, Succeeded 200 e) ∈ recorded final)
               ∧ (∀ p, p ∈ lines →
                    p ∈ [u "1.2.3.4:80"; u "5.6.7.8:8080"; u "1.2.3.4:80"]
                    ∧ splits_into_host_and_port (runtime example_env) p))
  | _ => False
  end.
Proof.
  destruct (run_scan example_env (u "example.com") None (Some (u "proxies.txt")) 2 false)
    as [[| | | |skipped queue final interrupted shown saved]|e] eqn:E;
    try (vm_compute in E; discriminate E).
  assert (queue = [u "1.2.3.4:80"; u "5.6.7.8:8080"; u "1.2.3.4:80"]) as <-
    by (vm_compute in E; by injection E).
  exact (working_proxies_file _ _ _ _ _ _ _ _ _ _ _ _ E).
Defined.

(** The example scan: four lines, one of them malformed, one proxy named
    twice; both of its probes answer 200 and the file lists it once. *)
Example example_scan :
  match run_scan example_env (u "example.com") None (Some (u "proxies.txt")) 2 false with
  | Py.Ok (Scanned skipped queue final interrupted shown saved) =>
      skipped = [u "1.2.3.4"]
      ∧ queue = [u "1.2.3.4:80"; u "5.6.7.8:8080"; u "1.2.3.4:80"]
      ∧ interrupted = false
      ∧ (shown_total shown, shown_successful shown, shown_failed shown) = (3, 2, 1)%nat
      ∧ saved = Some {| filename := u "working_proxies_20240307_090500.txt";
                        written := [ u "Target Domain: http://example.com" ++ newline;
                                     u "Total Working Proxies Found: 1" ++ newline;
                                     u "-----------------------" ++ newline;
                                     u "1.2.3.4:80" ++ newline ] |}
  | _ => False
  end.
Proof. vm_compute. split_and!; reflexivity. Qed.

(** The scenario of the specification with two proxies: one times out,
    one answers 200 in half a second. *)
Example one_timeout_one_success :
  let env := {| runtime := Py.ascii_runtime;
                network := λ n, match n with
                                | 1%nat => Failed Timeout (u "timed out")
                                | _ => Response 200 0.5
                                end;
                get_isp_info := λ _, Py.Ok [];
                open_file := λ _, Some [u "1.2.3.4:80" ++ newline; u "5.6.7.8:80" ++ newline];
                now := now example_env;
                schedule := round_robin 1 20 |} in
  match run_scan env (u "example.com") None (Some (u "proxies.txt")) 1 false with
  | Py.Ok (Scanned _ _ final _ shown saved) =>
      (shown_successful shown, shown_failed shown) = (1, 1)%nat
      ∧ status_codes (stats (shared final)) = {[ 200 := 1%nat ]}
      ∧ written <$> saved
        = Some [ u "Target Domain: http://example.com" ++ newline;
                 u "Total Working Proxies Found: 1" ++ newline;
                 u "-----------------------" ++ newline;
                 u "5.6.7.8:80" ++ newline ]
  | _ => False
  end.
Proof. vm_compute. split_and!; reflexivity. Qed.

(** Where the scan does not start. *)
Example scan_does_not_start :
  let env network :=
    {| runtime := Py.ascii_runtime; network := network; get_isp_info := λ _, Py.Ok [];
       open_file := λ path, if decide (path = u "empty.txt") then Some [u "1.2.3.4"] else None;
       now := now example_env; schedule := [] |} in
  let up := λ _ : nat, Response 200 0.1 in
  let down := λ _ : nat, Failed ConnectionError (u "refused") in
  run_scan (env down) (u "example.com") (Some (u "1.2.3.4:80")) None 1 false
    = Py.Ok TargetUnreachable
  ∧ run_scan (env up) (u "example.com") None (Some (u "missing.txt")) 1 false
    = Py.Ok ProxyListNotFound
  ∧ run_scan (env up) (u "example.com") None (Some (u "empty.txt")) 1 false
    = Py.Ok (NoValidProxies [u "1.2.3.4"])
  ∧ run_scan (env up) (u "example.com") (Some (u "1.2.3.4")) None 1 false
    = Py.Ok InvalidProxyFormat.
Proof. vm_compute. split_and!; reflexivity. Qed.
(** * More properties of the script *)

(** ** Loading the proxy file *)

Lemma load_proxies_filters (rt : Py.Runtime) (lines : list str) :
  load_proxies rt lines
  = Py.Ok (List.filter (accepts rt) (map (cleaned rt) lines),
           map (Py.strip rt)
               (List.filter (λ line, negb (accepts rt (cleaned rt line))) lines)).
Proof.
  induction lines as [|line lines IH]; [done|]. simpl. rewrite IH. simpl.
  unfold accepts, cleaned.
  destruct (validate_proxy_returns rt (format_proxy (Py.strip rt line))) as [[] ->];
    done.
Qed.

(** X1. The loop over the proxy file never raises. It keeps, in file
    order, the cleaned form of exactly the lines whose cleaned form
    validates, and reports, in file order, the stripped form of exactly
    the others: no line is lost and none is counted twice. *)
Theorem load_proxies_partitions (rt : Py.Runtime) (lines : list str) :
  load_proxies rt lines
  = Py.Ok (List.filter (accepts rt) (map (cleaned rt) lines),
           map (Py.strip rt)
               (List.filter (λ line, negb (accepts rt (cleaned rt line))) lines))
  ∧ (length (List.filter (accepts rt) (map (cleaned rt) lines))
     + length (List.filter (λ line, negb (accepts rt (cleaned rt line))) lines)
     = length lines)%nat
  ∧ Forall (λ p, validate_proxy rt p = Py.Ok true)
           (List.filter (accepts rt) (map (cleaned rt) lines)).
Proof.
  split_and!.
  - apply load_proxies_filters.
  - induction lines as [|line lines IH]; [done|]. simpl.
    destruct (accepts rt (cleaned rt line)); simpl; lia.
  - apply Forall_forall. intros p Hp%list_elem_of_In. apply filter_In in Hp as [_ Hp]. unfold accepts in Hp.
    by destruct (validate_proxy rt p) as [[]|].
Qed.

(** ** Schemes in proxy strings *)

Lemma replace_from_skip old new skipped s :
  Py.replace_from old new (length skipped) (skipped ++ s) = Py.replace_from old new O s.
Proof. induction skipped as [|c skipped IH]; [done|]. simpl. apply IH. Qed.

Lemma startswith_app p s : Py.startswith (p ++ s) p = true.
Proof. induction p as [|a p IH]; [by destruct s|]. simpl. by rewrite N.eqb_refl. Qed.

Lemma replace_leading old new s :
  old ≠ [] →
  (∀ k, Py.startswith (drop k s) old = false) →
  Py.replace (old ++ s) old new = new ++ s.
Proof.
  intros Hold Habsent. destruct old as [|c old]; [done|].
  unfold Py.replace.
  change ((c :: old) ++ s) with (c :: (old ++ s)).
  cbn [Py.replace_from].
  change (c :: (old ++ s)) with ((c :: old) ++ s).
  rewrite startswith_app. f_equal. cbn [length Nat.pred].
  rewrite replace_from_skip. by apply replace_absent.
Qed.

(** X2. A validated proxy written with a leading [http://] or [https://]
    comes out of [format_proxy] as the proxy itself, and a validated proxy
    is left as it is: what the file loader keeps is the plain [host:port]. *)
Theorem format_proxy_strips_scheme (rt : Py.Runtime) (p : str) :
  validate_proxy rt p = Py.Ok true →
  format_proxy (u "http://" ++ p) = p
  ∧ format_proxy (u "https://" ++ p) = p
  ∧ format_proxy p = p.
Proof.
  intros Hvalid.
  pose proof (validated_without_scheme rt p (u "http") Hvalid) as Hhttp.
  pose proof (validated_without_scheme rt p (u "https") Hvalid) as Hhttps.
  split_and!.
  - change (format_proxy (u "http://" ++ p))
      with (Py.replace (Py.replace (u "http://" ++ p) (u "http://") []) (u "https://") []).
    rewrite (replace_leading (u "http://") [] p); [|done|done].
    by apply replace_absent.
  - change (format_proxy (u "https://" ++ p))
      with (Py.replace (Py.replace (u "https://" ++ p) (u "http://") []) (u "https://") []).
    rewrite (replace_absent (u "http://") [] (u "https://" ++ p)).
    + by rewrite (replace_leading (u "https://") [] p).
    + intros k. do 8 (destruct k as [|k]; [done|]). apply Hhttp.
  - by apply (validated_format_proxy rt).
Qed.

Lemma format_proxy_strips_scheme_witness :
  format_proxy (u "http://" ++ u "1.2.3.4:8080") = u "1.2.3.4:8080"
  ∧ format_proxy (u "https://" ++ u "1.2.3.4:8080") = u "1.2.3.4:8080"
  ∧ format_proxy (u "1.2.3.4:8080") = u "1.2.3.4:8080".
Proof.
  apply (format_proxy_strips_scheme Py.ascii_runtime (u "1.2.3.4:8080")). reflexivity.
Defined.

(** Stripping is one pass: what the pass leaves may contain a scheme again. *)
Example format_proxy_is_one_pass :
  format_proxy (u "hthttp://tp://1.2.3.4:80") = u "http://1.2.3.4:80"
  ∧ format_proxy (format_proxy (u "hthttp://tp://1.2.3.4:80")) = u "1.2.3.4:80".
Proof. split; reflexivity. Qed.

(** ** A pool without threads *)

Lemma exec_without_threads network get_isp_info domain proxies isp_flag schedule w0 :
  exec network get_isp_info domain proxies isp_flag schedule (start 0 w0) = start 0 w0.
Proof. by apply joined_stays. Qed.

(** ** The command line *)

(** X4. Started from the command line, the script either prints the usage
    error, which is exactly when neither [-p] nor [-l] has a value, or
    calls [run_scan]; and a scan that it runs has a queue that is not
    empty and holds validated [host:port] strings only: the mode without a
    proxy cannot be reached from the command line. *)
Theorem main_scans_through_proxies (env : environment) (args : arguments) :
  (main env args = UsageError ↔ truthy (arg_p args) = false ∧ truthy (arg_l args) = false)
  ∧ ∀ skipped queue final interrupted shown saved,
      main env args = Ran (Py.Ok (Scanned skipped queue final interrupted shown saved)) →
      queue ≠ []
      ∧ Forall (splits_into_host_and_port (runtime env)) queue
      ∧ ∀ c, c ∈ claims final → ∃ p, claimed_entry c = Some p ∧ p ∈ queue.
Proof.
  unfold main. split.
  - destruct (truthy (arg_p args)), (truthy (arg_l args)); simpl;
      (split; [intros ?|intros [? ?]]); done.
  - intros skipped queue final interrupted shown saved Hmain.
    destruct (negb (truthy (arg_p args)) && negb (truthy (arg_l args))) eqn:Hguard;
      [done|].
    injection Hmain as Hrun.
    apply run_scan_scanned in Hrun as (Hqueue & Hvalid & _ & Hinv & _).
    split_and!.
    + unfold work_queue in Hqueue.
      destruct (truthy (arg_l args)) eqn:Hl.
      * destruct (open_file env _) as [lines|]; [|done].
        destruct (load_proxies (runtime env) lines) as [[kept skip]|]; [|done].
        simpl in Hqueue. destruct kept; [done|]. by injection Hqueue as _ <-.
      * destruct (truthy (arg_p args)) eqn:Hp; [|done].
        destruct (validate_proxy (runtime env) _) as [[]|]; simpl in Hqueue; [|done..].
        by injection Hqueue as _ <-.
    + eapply Forall_impl; [exact Hvalid|]. intros p Hp. by apply validate_proxy_true.
    + intros c Hc.
      assert (claimed_entry c ∈ claimed_entry <$> claims final) as Hin
        by (by apply list_elem_of_fmap_2).
      rewrite (inv_claims_entry _ _ _ Hinv) in Hin.
      apply list_elem_of_fmap in Hin as (p & -> & Hp).
      exists p. split; [done|]. by eapply subseteq_take.
Qed.

(** X5. With [-t 0], or a negative count, no worker is started: the scan
    sends nothing but the preliminary request, merges nothing, and still
    reports the length of the queue as the total, with no success, no
    failure, no status line, no performance block and no file; it is not
    taken for interrupted. *)
Theorem no_threads_no_probes (env : environment) (args : arguments)
    (skipped queue : list str) (final : pool) (interrupted : bool)
    (shown : report) (saved : option file) :
  arg_t args ≤ 0 →
  main env args = Ran (Py.Ok (Scanned skipped queue final interrupted shown saved)) →
  sent (outside final) = 1%nat
  ∧ console (outside final) = []
  ∧ claims final = [] ∧ recorded final = []
  ∧ interrupted = false
  ∧ shown = {| shown_total := length queue; shown_successful := 0; shown_failed := 0;
               shown_status := []; shown_performance := None |}
  ∧ saved = None.
Proof.
  intros Ht Hmain. unfold main in Hmain.
  destruct (negb (truthy (arg_p args)) && negb (truthy (arg_l args))); [done|].
  injection Hmain as Hrun.
  replace (Z.to_nat (arg_t args)) with 0%nat in Hrun by lia.
  apply run_scan_scanned in Hrun as (_ & _ & Hfinal & _ & Hint & Hshown & Hsaved).
  rewrite exec_without_threads in Hfinal. subst final.
  split_and!; try done.
  - unfold summary in Hshown. simpl in Hshown. rewrite map_to_list_empty in Hshown.
    simpl in Hshown. by injection Hshown as <-.
Qed.

Lemma no_threads_no_probes_witness :
  let args := {| arg_d := u "example.com"; arg_p := None;
                 arg_l := Some (u "proxies.txt"); arg_t := 0; arg_isp := false |} in
  match main example_env args with
  | Ran (Py.Ok (Scanned _ queue final interrupted shown saved)) =>
      sent (outside final) = 1%nat
      ∧ console (outside final) = []
      ∧ claims final = [] ∧ recorded final = []
      ∧ interrupted = false
      ∧ shown = {| shown_total := length queue; shown_successful := 0; shown_failed := 0;
                   shown_status := []; shown_performance := None |}
      ∧ saved = None
  | _ => False
  end.
Proof.
  intros args.
  destruct (main example_env args) as [|[[| | | |skipped queue final interrupted shown saved]|]]
    eqn:Hmain; try (by vm_compute in Hmain).
  apply (no_threads_no_probes example_env args skipped queue final interrupted shown saved);
    [by vm_compute|exact Hmain].
Defined.

(** ** The two locks *)

(** X6. At every moment of a scan at most one worker is between taking and
    releasing [request_count_lock], and at most one inside [stats_lock];
    the worker inside is the one the lock records as its holder; and a
    worker that is at [visit_target] holds neither lock, so the probes are
    not serialised by them. *)
Theorem locks_exclude
    (network : nat → reply) (get_isp_info : str → Py.result str) (domain : str)
    (proxies : list str) (isp_flag : bool) (threads : nat) (w0 : world)
    (trace : list nat) (s : pool) :
  runs network get_isp_info domain proxies isp_flag trace (start threads w0) s →
  (∀ v w p q, places s !! v = Some p → places s !! w = Some q →
     (holds_cursor p = true → holds_cursor q = true → v = w)
     ∧ (holds_stats p = true → holds_stats q = true → v = w))
  ∧ (∀ w p, places s !! w = Some p →
       (holds_cursor p = true ↔ request_count_lock s = Some w)
       ∧ (holds_stats p = true ↔ stats_lock s = Some w))
  ∧ (∀ w cur, places s !! w = Some (Probing cur) →
       request_count_lock s ≠ Some w ∧ stats_lock s ≠ Some w).
Proof.
  intros Hruns.
  pose proof (invariant_runs _ _ _ _ _ _ _ _ _ Hruns (invariant_start proxies w0 threads))
    as Hinv.
  destruct (inv_cursor_lock _ _ _ Hinv) as [Hcursor _].
  destruct (inv_stats_lock _ _ _ Hinv) as [Hstats _].
  split_and!.
  - intros v w p q Hv Hw. split; intros Hp Hq.
    + apply (Hcursor _ _ Hv) in Hp. apply (Hcursor _ _ Hw) in Hq. congruence.
    + apply (Hstats _ _ Hv) in Hp. apply (Hstats _ _ Hw) in Hq. congruence.
  - intros w p Hw. split; [apply (Hcursor _ _ Hw)|apply (Hstats _ _ Hw)].
  - intros w cur Hw. split; intros Hlock.
    + by apply (Hcursor _ _ Hw) in Hlock.
    + by apply (Hstats _ _ Hw) in Hlock.
Qed.

Lemma locks_exclude_witness :
  let proxies := [u "1.2.3.4:80"; u "5.6.7.8:80"] in
  let s := exec example_network (λ _, Py.Ok []) (u "http://example.com") proxies false
                [0; 0; 0; 1; 1]%nat (start 2 {| sent := 1; console := [] |}) in
  places s = [Probing (Some (u "1.2.3.4:80")); Claimed (Some (u "5.6.7.8:80"))]
  ∧ (∀ v w p q, places s !! v = Some p → places s !! w = Some q →
       (holds_cursor p = true → holds_cursor q = true → v = w)
       ∧ (holds_stats p = true → holds_stats q = true → v = w))
  ∧ (∀ w p, places s !! w = Some p →
       (holds_cursor p = true ↔ request_count_lock s = Some w)
       ∧ (holds_stats p = true ↔ stats_lock s = Some w))
  ∧ (∀ w cur, places s !! w = Some (Probing cur) →
       request_count_lock s ≠ Some w ∧ stats_lock s ≠ Some w).
Proof.
  intros proxies s. split; [by vm_compute|].
  apply (locks_exclude example_network (λ _, Py.Ok []) (u "http://example.com")
           proxies false 2 {| sent := 1; console := [] |}
           (effective example_network (λ _, Py.Ok []) (u "http://example.com") proxies false
                      [0; 0; 0; 1; 1]%nat (start 2 {| sent := 1; console := [] |}))).
  apply runs_exec.
Defined.

(** ** The statistics *)

Lemma with_status_snoc c log p o :
  with_status c (log ++ [(p, o)])
  = (with_status c log
     + match o with
       | Succeeded c' _ => if bool_decide (c' = c) then 1 else 0
       | NotSucceeded => 0
       end)%nat.
Proof.
  unfold with_status. rewrite List.filter_app, length_app. f_equal.
  simpl. destruct o as [c' e|]; [|done]. by destruct (bool_decide (c' = c)).
Qed.

Lemma histogram_lookup log c :
  status_codes (stats (replay initial_tally log)) !! c
  = match with_status c log with
    | O => None
    | S n => Some (S n)
    end.
Proof.
  induction log as [|[p o] log IH] using rev_ind; [done|].
  rewrite replay_snoc, with_status_snoc.
  destruct o as [c' e|]; simpl.
  - destruct (decide (c' = c)) as [->|Hne].
    + rewrite lookup_insert_eq, IH, bool_decide_eq_true_2 by done.
      destruct (with_status c log); simpl; f_equal; lia.
    + rewrite lookup_insert_ne, IH, bool_decide_eq_false_2 by done.
      by rewrite Nat.add_0_r.
  - by rewrite IH, Nat.add_0_r.
Qed.

Lemma histogram_total_insert (m : gmap Z nat) c :
  histogram_total (<[c := S (default O (m !! c))]> m) = S (histogram_total m).
Proof.
  unfold histogram_total.
  destruct (m !! c) as [n|] eqn:Hc; simpl.
  - rewrite <- (insert_delete_eq m).
    rewrite map_to_list_insert by apply lookup_delete_eq.
    rewrite <- (map_to_list_delete m c n Hc). done.
  - by rewrite map_to_list_insert.
Qed.

Lemma count_of_snoc {A} (f : A → bool) l x :
  count_of f (l ++ [x]) = (count_of f l + if f x then 1 else 0)%nat.
Proof.
  unfold count_of. rewrite List.filter_app, length_app. simpl. by destruct (f x).
Qed.

Lemma successes_counted log :
  successful_requests (stats (replay initial_tally log))
  = count_of (λ x, succeeded (snd x)) log
  ∧ failed_requests (stats (replay initial_tally log))
    = count_of (λ x, negb (succeeded (snd x))) log.
Proof.
  induction log as [|[p o] log [IHs IHf]] using rev_ind; [done|].
  rewrite replay_snoc, !count_of_snoc.
  destruct o as [c e|]; simpl; rewrite IHs, IHf; lia.
Qed.

(** X7. The histogram of status codes counts the merged successes: the
    entry of a status is the number of successes merged with it, a status
    that never came back has no entry (there is no entry of zero), and the
    entries add up to [successful_requests], the number of successes
    merged. *)
Theorem histogram_counts_successes (log : list (option str * outcome)) :
  let st := stats (replay initial_tally log) in
  (∀ c, default O (status_codes st !! c) = with_status c log)
  ∧ (∀ c, status_codes st !! c = None ↔ with_status c log = O)
  ∧ histogram_total (status_codes st) = successful_requests st
  ∧ successful_requests st = count_of (λ x, succeeded (snd x)) log.
Proof.
  simpl. split_and!.
  - intros c. rewrite histogram_lookup. by destruct (with_status c log).
  - intros c. rewrite histogram_lookup. by destruct (with_status c log).
  - induction log as [|[p o] log IH] using rev_ind; [done|].
    rewrite replay_snoc. destruct o as [c e|]; simpl; [|done].
    by rewrite histogram_total_insert, IH.
  - apply successes_counted.
Qed.

(** X8. The extrema are bounds of what was merged, and they are attained:
    no merged success took less than the recorded fastest time or more
    than the recorded slowest, and each record is either the initial one
    ([None] with infinity, [None] with 0) or the proxy and the elapsed
    time of a success that was merged. *)
Theorem extrema_bound_the_merged (log : list (option str * outcome)) :
  let st := stats (replay initial_tally log) in
  (∀ p c e, (p, Succeeded c e) ∈ log →
     (e <? snd (fastest_proxy st))%float = false
     ∧ (snd (slowest_proxy st) <? e)%float = false)
  ∧ (fastest_proxy st = (None, infinity)
     ∨ ∃ c, (fst (fastest_proxy st), Succeeded c (snd (fastest_proxy st))) ∈ log)
  ∧ (slowest_proxy st = (None, 0%float)
     ∨ ∃ c, (fst (slowest_proxy st), Succeeded c (snd (slowest_proxy st))) ∈ log).
Proof.
  simpl. induction log as [|[q o] log IH] using rev_ind.
  - split_and!; [|by left..]. intros p c e Hin. by apply elem_of_nil in Hin.
  - rewrite replay_snoc. destruct IH as (Hbound & Hfast & Hslow).
    destruct o as [c' e'|]; simpl.
    + split_and!.
      * intros p c e [Hin|Hin%list_elem_of_singleton]%elem_of_app.
        -- destruct (Hbound p c e Hin) as [Hf Hs]. split.
           ++ destruct (e' <? snd (fastest_proxy (stats (replay initial_tally log))))%float
                eqn:Hlt; simpl; [|done].
              destruct (e <? e')%float eqn:Hee; [|done].
              by rewrite (float_ltb_trans _ _ _ Hee Hlt) in Hf.
           ++ destruct (snd (slowest_proxy (stats (replay initial_tally log))) <? e')%float
                eqn:Hlt; simpl; [|done].
              destruct (e' <? e)%float eqn:Hee; [|done].
              by rewrite (float_ltb_trans _ _ _ Hlt Hee) in Hs.
        -- injection Hin as -> -> ->. split.
           ++ destruct (e' <? snd (fastest_proxy (stats (replay initial_tally log))))%float
                eqn:Hlt; simpl; [apply float_ltb_irrefl|done].
           ++ destruct (snd (slowest_proxy (stats (replay initial_tally log))) <? e')%float
                eqn:Hlt; simpl; [apply float_ltb_irrefl|done].
      * destruct (e' <? snd (fastest_proxy (stats (replay initial_tally log))))%float; simpl.
        -- right. exists c'. apply elem_of_app. right. by apply list_elem_of_singleton.
        -- destruct Hfast as [?|[c Hc]]; [by left|].
           right. exists c. apply elem_of_app. by left.
      * destruct (snd (slowest_proxy (stats (replay initial_tally log))) <? e')%float; simpl.
        -- right. exists c'. apply elem_of_app. right. by apply list_elem_of_singleton.
        -- destruct Hslow as [?|[c Hc]]; [by left|].
           right. exists c. apply elem_of_app. by left.
    + split_and!.
      * intros p c e [Hin|Hin%list_elem_of_singleton]%elem_of_app; [by apply (Hbound p c e)|done].
      * destruct Hfast as [?|[c Hc]]; [by left|].
        right. exists c. apply elem_of_app. by left.
      * destruct Hslow as [?|[c Hc]]; [by left|].
        right. exists c. apply elem_of_app. by left.
Qed.

(** ** The report *)

Lemma sum_list_with_map {A B} (f : B → nat) (g : A → B) (l : list A) :
  sum_list_with f (map g l) = sum_list_with (λ x, f (g x)) l.
Proof. induction l as [|x l IH]; [done|]. simpl. by rewrite IH. Qed.

Lemma status_lines_spec total items :
  match status_lines total items with
  | Py.Ok ls =>
      ls = map (λ x, (fst x, snd x,
                      (float_of_nat (snd x) / float_of_nat total * 100)%float)) items
      ∧ (total = O → items = [])
  | Py.Raise e => e = Py.ZeroDivisionError ∧ total = O ∧ items ≠ []
  end.
Proof.
  induction items as [|[status count] items IH]; simpl; [done|].
  destruct total as [|total]; simpl; [done|].
  simpl in IH. destruct (status_lines (S total) items) as [ls|e]; simpl.
  - destruct IH as [-> _]. done.
  - by destruct IH as (_ & ? & _).
Qed.

(** X9. The report can fail in one way only, a division by zero at the
    first status line, and that takes a histogram with an entry and a
    total of zero. Otherwise it shows one line for each entry of the
    histogram, with the count of the entry and the percentage
    [(count / total) * 100], and the totals of the statistics as they
    are. *)
Theorem summary_fails_only_without_total (total : nat) (st : Stats) :
  match summary total st with
  | Py.Ok shown =>
      shown_status shown
      = map (λ x, (fst x, snd x,
                   (float_of_nat (snd x) / float_of_nat total * 100)%float))
            (map_to_list (status_codes st))
      ∧ sum_list_with (λ x, snd (fst x)) (shown_status shown)
        = histogram_total (status_codes st)
      ∧ shown_total shown = total
      ∧ shown_successful shown = successful_requests st
      ∧ shown_failed shown = failed_requests st
      ∧ (shown_performance shown = None ↔ successful_requests st = O)
      ∧ (total = O → status_codes st = ∅)
  | Py.Raise e =>
      e = Py.ZeroDivisionError ∧ total = O ∧ status_codes st ≠ ∅
  end.
Proof.
  unfold summary.
  pose proof (status_lines_spec total (map_to_list (status_codes st))) as Hlines.
  destruct (status_lines total (map_to_list (status_codes st))) as [ls|e]; simpl.
  - destruct Hlines as [-> Hempty].
    assert (sum_list_with (λ x : Z * nat * float, snd (fst x))
              (map (λ x : Z * nat, (fst x, snd x,
                      (float_of_nat (snd x) / float_of_nat total * 100)%float))
                   (map_to_list (status_codes st)))
            = histogram_total (status_codes st)) as Hsum.
    { unfold histogram_total. by rewrite sum_list_with_map. }
    destruct (successful_requests st) as [|n] eqn:Hn; simpl.
    + split_and!; try done. intros Ht. by apply map_to_list_empty_iff, Hempty.
    + split_and!; try done. intros Ht. by apply map_to_list_empty_iff, Hempty.
  - destruct Hlines as (-> & -> & Hne). split_and!; try done.
    intros Hm. apply Hne. by rewrite Hm, map_to_list_empty.
Qed.

(** ** The target *)

(** X10. What [format_domain] returns starts with [http], so a second
    pass changes nothing; it is the domain itself or the domain behind
    [http://], and never anything shorter. *)
Theorem format_domain_idempotent (domain : str) :
  Py.startswith (format_domain domain) (u "http") = true
  ∧ format_domain (format_domain domain) = format_domain domain
  ∧ (format_domain domain = domain ∨ format_domain domain = u "http://" ++ domain)
  ∧ (length domain ≤ length (format_domain domain))%nat.
Proof.
  assert (Py.startswith (format_domain domain) (u "http") = true) as Hstarts.
  { rewrite format_domain_cases.
    by destruct (Py.startswith domain (u "http")) eqn:Hd. }
  split_and!.
  - done.
  - by rewrite (format_domain_cases (format_domain domain)), Hstarts.
  - rewrite format_domain_cases. destruct (Py.startswith domain (u "http")); auto.
  - rewrite format_domain_cases. destruct (Py.startswith domain (u "http"));
      rewrite ?length_app; lia.
Qed.

(** ** The console *)

(** X11. The text of an exception is printed whole when it has at most 50
    characters; a longer one is cut to its first 50 characters followed by
    three dots, so that the printed text never exceeds 53 characters and
    always begins as the exception text does. *)
Theorem error_msg_bounded (message : str) :
  (length (error_msg message) ≤ 53)%nat
  ∧ take 50 (error_msg message) = take 50 message
  ∧ ((length message ≤ 50)%nat → error_msg message = message)
  ∧ ((50 < length message)%nat →
       error_msg message = take 50 message ++ u "..."
       ∧ length (error_msg message) = 53%nat).
Proof.
  unfold error_msg.
  destruct (50 <? length message)%nat eqn:Hlen.
  - apply Nat.ltb_lt in Hlen.
    assert (length (take 50 message ++ u "...") = 53%nat) as Hcut.
    { rewrite length_app, length_take_le by lia. done. }
    split_and!.
    + lia.
    + rewrite take_app_le by (rewrite length_take_le; lia).
      by rewrite take_take.
    + lia.
    + done.
  - apply Nat.ltb_ge in Hlen. split_and!; [lia|done|done|lia].
Qed.

(** X12. Icon and colour of a probe line read the status code with
    different thresholds. The cross goes with red, exactly from 500 up;
    the check mark is for 200 alone and is always green; the warning sign
    covers everything else below 500, so it is printed in green for every
    status below 300 other than 200, in blue from 300 and in yellow from
    400. *)
Theorem icon_and_colour (status_code : Z) :
  (status_icon status_code = CrossMark ↔ status_color status_code = Red)
  ∧ (status_icon status_code = CrossMark ↔ 500 ≤ status_code)
  ∧ (status_icon status_code = CheckMark ↔ status_code = 200)
  ∧ (status_icon status_code = CheckMark → status_color status_code = Green)
  ∧ (status_color status_code = Green ↔ status_code < 300)
  ∧ (status_color status_code = Blue ↔ 300 ≤ status_code < 400)
  ∧ (status_color status_code = Yellow ↔ 400 ≤ status_code < 500)
  ∧ (status_icon status_code = WarningSign
     ↔ status_code < 500 ∧ status_code ≠ 200).
Proof.
  unfold status_icon, status_color.
  destruct (Z.eqb_spec status_code 200), (Z.ltb_spec status_code 500),
    (Z.leb_spec 500 status_code), (Z.leb_spec 400 status_code),
    (Z.leb_spec 300 status_code);
    try lia;
    (split_and!; [split|split|split|idtac|split|split|split|split]; intros;
     first [done | lia]).
Qed.

(** ** The books of the pool *)

Lemma bind_move {A} (f : place → list A) (ps : list place) (w : nat) (p q : place) :
  ps !! w = Some p →
  (<[w := q]> ps ≫= f) ++ f p ≡ₚ (ps ≫= f) ++ f q.
Proof.
  intros Hw.
  rewrite <- (take_drop_middle ps w p Hw) at 2.
  rewrite (insert_take_drop ps w q) by (by eapply lookup_lt_Some).
  rewrite !bind_app, !bind_cons.
  rewrite <- !(assoc_L (++)).
  apply Permutation_app_head.
  rewrite (Permutation_app_comm (f q) ((drop (S w) ps ≫= f) ++ f p)).
  rewrite (Permutation_app_comm (drop (S w) ps ≫= f) (f p)).
  by rewrite <- (assoc_L (++)).
Qed.

Lemma bind_move_same {A} (f : place → list A) (ps : list place) (w : nat) (p q : place) :
  ps !! w = Some p → f q = f p → <[w := q]> ps ≫= f ≡ₚ ps ≫= f.
Proof.
  intros Hw Heq. apply (Permutation_app_inv_r (f p)).
  rewrite (bind_move f ps w p q Hw). by rewrite Heq.
Qed.

Lemma in_hand_from_queue proxies w0 s w p cur :
  invariant proxies w0 s → places s !! w = Some p → cur ∈ in_hand p →
  ∃ x, cur = Some x ∧ x ∈ proxies.
Proof.
  intros Hinv Hw Hcur.
  assert (cur ∈ (fst <$> recorded s) ++ (fst <$> lost s) ++ (places s ≫= in_hand)) as Hin.
  { apply elem_of_app. right. apply elem_of_app. right.
    apply list_elem_of_bind. exists p.
    split; [done|]. by eapply list_elem_of_lookup_2. }
  rewrite (inv_entries _ _ _ Hinv) in Hin.
  apply list_elem_of_fmap in Hin as (x & -> & Hx).
  exists x. split; [done|]. by eapply subseteq_take.
Qed.

Lemma ledger_start network domain proxies isp_flag threads w0 :
  ledger network domain proxies isp_flag threads w0 (start threads w0).
Proof.
  split; simpl.
  - by rewrite length_replicate.
  - rewrite Nat.sub_diag. simpl.
    induction threads as [|n IH]; [done|].
    change (replicate (S n) AtLoopHead) with (AtLoopHead :: replicate n AtLoopHead).
    by rewrite bind_cons.
  - exists []. rewrite app_nil_r, Nat.sub_diag. by split_and!.
Qed.

(** A step that sends nothing, merges nothing and leaves the outcome in
    the hand of the thread as it was. *)
Lemma ledger_quiet network domain proxies isp_flag threads w0 s w p q s' :
  ledger network domain proxies isp_flag threads w0 s →
  places s !! w = Some p →
  outcome_in_hand q = outcome_in_hand p →
  places s' = <[w := q]> (places s) →
  outside s' = outside s →
  recorded s' = recorded s →
  ledger network domain proxies isp_flag threads w0 s'.
Proof.
  intros [Hlen Hout Hcon] Hw Hq Hplaces Houtside Hrec. split.
  - by rewrite Hplaces, length_insert.
  - by rewrite Hplaces, Houtside, Hrec, (bind_move_same _ _ _ _ _ Hw Hq).
  - by rewrite Houtside.
Qed.

Lemma ledger_step network get_isp_info domain proxies isp_flag threads w0 w s s' :
  invariant proxies w0 s →
  ledger network domain proxies isp_flag threads w0 s →
  step network get_isp_info domain proxies isp_flag w s = Some s' →
  ledger network domain proxies isp_flag threads w0 s'.
Proof.
  intros Hinv Hled Hstep. unfold step in Hstep.
  destruct (places s !! w) as [p|] eqn:Hw; [|done].
  destruct p as [| |cur|cur|cur o|cur o| |e]; try done.
  - destruct (request_count_lock s); [done|]. injection Hstep as <-.
    by eapply (ledger_quiet _ _ _ _ _ _ s w AtLoopHead HoldsCursor).
  - destruct (total_requests proxies <=? request_count s)%nat.
    + injection Hstep as <-.
      by eapply (ledger_quiet _ _ _ _ _ _ s w HoldsCursor Returned).
    + destruct proxies as [|x proxies'].
      * injection Hstep as <-.
        by eapply (ledger_quiet _ _ _ _ _ _ s w HoldsCursor (Claimed None)).
      * destruct (Py.index (x :: proxies') (request_count s)) as [y|e];
          injection Hstep as <-.
        -- by eapply (ledger_quiet _ _ _ _ _ _ s w HoldsCursor (Claimed (Some y))).
        -- by eapply (ledger_quiet _ _ _ _ _ _ s w HoldsCursor (Died e)).
  - injection Hstep as <-.
    by eapply (ledger_quiet _ _ _ _ _ _ s w (Claimed cur) (Probing cur)).
  - destruct (visit_target_cases network get_isp_info domain cur w isp_flag (outside s))
      as [(e & _ & _ & _ & Hvisit)|(l & Hvisit & Htarget & Hthread & Hproxy & Hisp & _)];
      rewrite Hvisit in Hstep; injection Hstep as <-.
    { by eapply (ledger_quiet _ _ _ _ _ _ s w (Probing cur) (Died e)). }
    destruct Hled as [Hlen Hout (new & Hcon & Hnew & Hall)].
    pose proof (inv_sent _ _ _ Hinv) as Hsent.
    assert (S (sent (outside s)) - sent w0 = S (sent (outside s) - sent w0))%nat as Hsucc
      by lia.
    split; simpl.
    + by rewrite length_insert.
    + pose proof (bind_move outcome_in_hand _ _ _
                    (AwaitsStats cur (outcome_of (network (sent (outside s))))) Hw) as Hmove.
      simpl in Hmove. rewrite app_nil_r in Hmove.
      rewrite Hmove, (assoc_L (++)), Hout, Hsucc, seq_S, fmap_app. simpl.
      by replace (sent w0 + (sent (outside s) - sent w0))%nat with (sent (outside s))
        by lia.
    + exists (new ++ [l]). rewrite Hcon, Hsucc, length_app, Hnew, (assoc_L (++)). simpl.
      split_and!; [done|lia|].
      apply Forall_app. split; [done|]. apply Forall_singleton.
      destruct (in_hand_from_queue proxies w0 s w (Probing cur) cur Hinv Hw)
        as (x & -> & Hx); [by apply list_elem_of_singleton|].
      unfold printed_by. rewrite Htarget, Hthread, Hproxy. split_and!; try done.
      * rewrite <- Hlen. by eapply lookup_lt_Some.
      * destruct x as [|c x]; simpl; [by right|left]. done.
  - destruct (stats_lock s); [done|]. injection Hstep as <-.
    by eapply (ledger_quiet _ _ _ _ _ _ s w (AwaitsStats cur o) (HoldsStats cur o)).
  - injection Hstep as <-.
    destruct Hled as [Hlen Hout Hcon].
    split; simpl.
    + by rewrite length_insert.
    + pose proof (bind_move outcome_in_hand _ _ _ AtLoopHead Hw) as Hmove.
      simpl in Hmove. rewrite app_nil_r in Hmove.
      rewrite fmap_app, <- (assoc_L (++)). simpl.
      rewrite <- Hout, <- Hmove.
      apply Permutation_app_head, Permutation_cons_append.
    + done.
Qed.

Lemma ledger_runs network get_isp_info domain proxies isp_flag threads w0 trace s s' :
  runs network get_isp_info domain proxies isp_flag trace s s' →
  invariant proxies w0 s →
  ledger network domain proxies isp_flag threads w0 s →
  ledger network domain proxies isp_flag threads w0 s'.
Proof.
  induction 1 as [s|w trace s s1 s2 Hstep _ IH]; [done|].
  intros Hinv Hled. apply IH.
  - by eapply invariant_step.
  - by eapply ledger_step.
Qed.

Lemma answered_in_flight ps : (tally_of answered ps ≤ tally_of in_flight ps)%nat.
Proof. apply tally_of_le. intros []; simpl; lia. Qed.

(** X13. At every moment of a scan the GETs of the target sent so far are
    at least the outcomes merged and at most the entries claimed, hence
    never more than the queue is long; and the console has grown by
    exactly one line for each of them, a line that names the target, a
    thread of the pool and an entry of the queue, and that shows an ISP
    only when [-isp] was given. *)
Theorem probes_and_lines
    (network : nat → reply) (get_isp_info : str → Py.result str) (domain : str)
    (proxies : list str) (isp_flag : bool) (threads : nat) (w0 : world)
    (trace : list nat) (s : pool) :
  runs network get_isp_info domain proxies isp_flag trace (start threads w0) s →
  (sent w0 + length (recorded s) ≤ sent (outside s))%nat
  ∧ (sent (outside s) ≤ sent w0 + request_count s)%nat
  ∧ (sent (outside s) ≤ sent w0 + length proxies)%nat
  ∧ ∃ new, console (outside s) = console w0 ++ new
      ∧ length new = (sent (outside s) - sent w0)%nat
      ∧ Forall (printed_by domain proxies isp_flag threads) new.
Proof.
  intros Hruns.
  pose proof (invariant_runs _ _ _ _ _ _ _ _ _ Hruns (invariant_start proxies w0 threads))
    as Hinv.
  pose proof (ledger_runs _ _ _ _ _ threads _ _ _ _ Hruns
                (invariant_start proxies w0 threads)
                (ledger_start network domain proxies isp_flag threads w0)) as Hled.
  pose proof (inv_sent _ _ _ Hinv) as Hsent.
  pose proof (inv_in_flight _ _ _ Hinv) as Hflight.
  pose proof (inv_cursor_bound _ _ _ Hinv) as Hbound.
  pose proof (answered_in_flight (places s)) as Hle.
  split_and!; [lia..|]. apply (led_console _ _ _ _ _ _ _ Hled).
Qed.

Lemma probes_and_lines_witness :
  let proxies := [u "1.2.3.4:80"; u "5.6.7.8:80"] in
  let w0 := {| sent := 1; console := [] |} in
  let s := exec example_network (λ _, Py.Ok []) (u "http://example.com") proxies false
                [0; 0; 0; 1; 1; 0]%nat (start 2 w0) in
  (sent w0 + length (recorded s) ≤ sent (outside s))%nat
  ∧ (sent (outside s) ≤ sent w0 + request_count s)%nat
  ∧ (sent (outside s) ≤ sent w0 + length proxies)%nat
  ∧ ∃ new, console (outside s) = console w0 ++ new
      ∧ length new = (sent (outside s) - sent w0)%nat
      ∧ Forall (printed_by (u "http://example.com") proxies false 2) new.
Proof.
  intros proxies w0 s.
  apply (probes_and_lines example_network (λ _, Py.Ok []) (u "http://example.com")
           proxies false 2 w0
           (effective example_network (λ _, Py.Ok []) (u "http://example.com") proxies false
                      [0; 0; 0; 1; 1; 0]%nat (start 2 w0))).
  apply runs_exec.
Defined.

Lemma count_of_fmap {A B} (f : B → bool) (g : A → B) (l : list A) :
  count_of f (g <$> l) = count_of (λ x, f (g x)) l.
Proof.
  induction l as [|x l IH]; [done|]. unfold count_of in *.
  rewrite fmap_cons. cbn [List.filter].
  destruct (f (g x)); cbn [length]; by rewrite IH.
Qed.

Lemma count_of_permutation {A} (f : A → bool) (l k : list A) :
  l ≡ₚ k → count_of f l = count_of f k.
Proof.
  unfold count_of. induction 1 as [|x l k _ IH|x y l|l k m _ IH1 _ IH2]; simpl.
  - done.
  - destruct (f x); simpl; by rewrite IH.
  - by destruct (f x), (f y).
  - by rewrite IH1.
Qed.

Lemma bind_none {A} (f : place → list A) (ps : list place) :
  (∀ w p, ps !! w = Some p → f p = []) → ps ≫= f = [].
Proof.
  induction ps as [|p ps IH]; intros H; [done|]. rewrite bind_cons.
  rewrite (H O p eq_refl), IH; [done|]. intros w q Hq. by apply (H (S w)).
Qed.

(** ** Workers that die *)

Lemma step_lost network get_isp_info domain proxies isp_flag w s s' :
  step network get_isp_info domain proxies isp_flag w s = Some s' →
  lost s' = lost s
  ∨ ∃ cur e, places s !! w = Some (Probing cur)
      ∧ visit_target network get_isp_info domain cur w isp_flag (outside s) = Py.Raise e
      ∧ lost s' = lost s ++ [(cur, e)].
Proof.
  unfold step. intros Hstep.
  destruct (places s !! w) as [p|] eqn:Hw; [|done].
  destruct p as [| |cur|cur|cur o|cur o| |e]; try done.
  - destruct (request_count_lock s); [done|]. injection Hstep as <-. by left.
  - destruct (total_requests proxies <=? request_count s)%nat.
    + injection Hstep as <-. by left.
    + destruct proxies as [|x proxies'].
      * injection Hstep as <-. by left.
      * destruct (Py.index (x :: proxies') (request_count s)) as [y|e];
          injection Hstep as <-; by left.
  - injection Hstep as <-. by left.
  - destruct (visit_target _ _ _ _ _ _ _) as [[o w1]|e] eqn:Hvisit;
      injection Hstep as <-; [by left|].
    right. by exists cur, e.
  - destruct (stats_lock s); [done|]. injection Hstep as <-. by left.
  - injection Hstep as <-. by left.
Qed.

(** A worker dies of nothing but a lookup that raises. *)
Lemma lost_runs network get_isp_info domain proxies isp_flag w0 trace s s' :
  runs network get_isp_info domain proxies isp_flag trace s s' →
  invariant proxies w0 s →
  Forall (lost_to_lookup get_isp_info isp_flag proxies) (lost s) →
  Forall (lost_to_lookup get_isp_info isp_flag proxies) (lost s').
Proof.
  induction 1 as [s|w trace s s1 s2 Hstep _ IH]; [done|].
  intros Hinv Hlost. apply IH; [by eapply invariant_step|].
  destruct (step_lost _ _ _ _ _ _ _ _ Hstep) as [->|(cur & e & Hw & Hvisit & ->)]; [done|].
  apply Forall_app. split; [done|]. apply Forall_singleton.
  destruct (visit_target_cases network get_isp_info domain cur w isp_flag (outside s))
    as [(e' & Hflag & _ & Hlookup & Hraise)|(l & Hok & _)]; [|congruence].
  assert (e' = e) as -> by congruence.
  destruct (in_hand_from_queue proxies w0 s w (Probing cur) cur Hinv Hw)
    as (x & -> & Hx); [by apply list_elem_of_singleton|].
  split; [done|]. by exists x.
Qed.

Lemma lost_from_start network get_isp_info domain proxies isp_flag threads w0 trace s :
  runs network get_isp_info domain proxies isp_flag trace (start threads w0) s →
  Forall (lost_to_lookup get_isp_info isp_flag proxies) (lost s).
Proof.
  intros Hruns.
  by apply (lost_runs _ _ _ _ _ w0 _ _ _ Hruns (invariant_start proxies w0 threads)).
Qed.

(** Where no lookup raises, no worker dies. *)
Lemma nothing_lost network get_isp_info domain proxies isp_flag threads w0 trace s :
  runs network get_isp_info domain proxies isp_flag trace (start threads w0) s →
  lookups_return get_isp_info isp_flag proxies →
  lost s = [].
Proof.
  intros Hruns Hreturn.
  pose proof (lost_from_start _ _ _ _ _ _ _ _ _ Hruns) as Hlost.
  destruct (lost s) as [|[cur e] rest]; [done|].
  apply Forall_inv in Hlost as (Hflag & p & _ & Hp & Hraise).
  destruct (Hreturn Hflag p Hp) as [label Hlabel]. simpl in Hraise. congruence.
Qed.

(** X14. Whatever the interleaving, the outcomes that the workers have
    merged or are carrying to the merge are the replies to the GETs sent,
    each reply once. When the workers have all ended, the outcomes merged
    are the replies to the GETs of the scan: the report shows as
    successful as many requests as were answered, and as failed as many
    as raised. There is one GET for each entry claimed, but for those of
    the workers that died, and a worker dies of nothing but a lookup of
    the ISP that raises: where no lookup raises (without the ISP flag
    none is made), a pool of at least one worker ends with one reply
    merged for each entry of the queue. *)
Theorem replies_counted_once
    (network : nat → reply) (get_isp_info : str → Py.result str) (domain : str)
    (proxies : list str) (isp_flag : bool) (threads : nat) (w0 : world)
    (trace : list nat) (s : pool) :
  runs network get_isp_info domain proxies isp_flag trace (start threads w0) s →
  (snd <$> recorded s) ++ (places s ≫= outcome_in_hand)
  ≡ₚ (λ n, outcome_of (network n)) <$> seq (sent w0) (sent (outside s) - sent w0)
  ∧ Forall (lost_to_lookup get_isp_info isp_flag proxies) (lost s)
  ∧ (all_joined s = true →
       snd <$> recorded s
       ≡ₚ (λ n, outcome_of (network n)) <$> seq (sent w0) (length (recorded s))
       ∧ sent (outside s) = (sent w0 + length (recorded s))%nat
       ∧ (length (recorded s) + length (lost s) = request_count s)%nat
       ∧ successful_requests (stats (shared s))
         = count_of (λ n, succeeded (outcome_of (network n)))
                    (seq (sent w0) (length (recorded s)))
       ∧ failed_requests (stats (shared s))
         = count_of (λ n, negb (succeeded (outcome_of (network n))))
                    (seq (sent w0) (length (recorded s))))
  ∧ ((1 ≤ threads)%nat → all_joined s = true →
     lookups_return get_isp_info isp_flag proxies →
       lost s = [] ∧ length (recorded s) = length proxies).
Proof.
  intros Hruns.
  pose proof (invariant_runs _ _ _ _ _ _ _ _ _ Hruns (invariant_start proxies w0 threads))
    as Hinv.
  pose proof (ledger_runs _ _ _ _ _ threads _ _ _ _ Hruns
                (invariant_start proxies w0 threads)
                (ledger_start network domain proxies isp_flag threads w0)) as Hled.
  pose proof (led_outcomes _ _ _ _ _ _ _ Hled) as Hout.
  split_and!; [done|by eapply lost_from_start| |].
  - intros Hjoined.
    destruct (joined_pool_accounts proxies w0 s Hinv Hjoined) as (Hcount & _ & Hsent).
    rewrite (bind_none outcome_in_hand (places s)), app_nil_r in Hout.
    2:{ intros w p Hw. pose proof (ended_places s Hjoined w p Hw). by destruct p. }
    replace (sent (outside s) - sent w0)%nat with (length (recorded s)) in Hout by lia.
    destruct (successes_counted (recorded s)) as [Hs Hf].
    rewrite (inv_shared _ _ _ Hinv), Hs, Hf.
    split_and!; try done.
    + rewrite <- (count_of_fmap succeeded snd), (count_of_permutation _ _ _ Hout).
      by rewrite count_of_fmap.
    + rewrite <- (count_of_fmap (λ o, negb (succeeded o)) snd),
        (count_of_permutation _ _ _ Hout).
      by rewrite count_of_fmap.
  - intros Hthreads Hjoined Hreturn.
    pose proof (nothing_lost _ _ _ _ _ _ _ _ _ Hruns Hreturn) as Hlost.
    assert (0 < length (places s))%nat as Hsome
      by (rewrite (led_threads _ _ _ _ _ _ _ Hled); lia).
    by destruct (joined_pool proxies w0 s Hinv Hjoined Hsome Hlost) as (_ & ? & _).
Qed.

Lemma replies_counted_once_witness :
  let proxies := [u "1.2.3.4:80"; u "5.6.7.8:80"; u "9.9.9.9:80"] in
  let w0 := {| sent := 1; console := [] |} in
  let s := exec example_network (λ _, Py.Ok []) (u "http://example.com") proxies true
                (round_robin 2 20) (start 2 w0) in
  all_joined s = true
  ∧ lost s = [] ∧ length (recorded s) = 3%nat
  ∧ successful_requests (stats (shared s)) = 2%nat
  ∧ failed_requests (stats (shared s)) = 1%nat.
Proof.
  intros proxies w0 s.
  assert (all_joined s = true) as Hjoined by (by vm_compute).
  destruct (replies_counted_once example_network (λ _, Py.Ok []) (u "http://example.com")
              proxies true 2 w0
              (effective example_network (λ _, Py.Ok []) (u "http://example.com") proxies
                         true (round_robin 2 20) (start 2 w0)) s)
    as (_ & _ & Hended & Hall); [apply runs_exec|].
  destruct Hall as [Hlost Hlen]; [lia|done|by intros _ p _; eexists|].
  destruct (Hended Hjoined) as (_ & _ & _ & Hs & Hf).
  rewrite Hs, Hf, Hlen. by split_and!.
Defined.

(** ** One worker *)

Lemma sequential_log_succ network w0 proxies n x :
  proxies !! n = Some x →
  sequential_log network w0 proxies (S n)
  = sequential_log network w0 proxies n
    ++ [(Some x, outcome_of (network (sent w0 + n)%nat))].
Proof.
  intros Hx. unfold sequential_log.
  rewrite (take_S_r _ _ _ Hx), imap_app. simpl.
  rewrite length_take_le by (apply Nat.lt_le_incl; by eapply lookup_lt_Some).
  by rewrite Nat.add_0_r.
Qed.

Lemma sequential_start network proxies w0 : sequential network proxies w0 (start 1 w0).
Proof. split; [done|]. by exists AtLoopHead. Qed.

Lemma sequential_step network get_isp_info domain proxies isp_flag w0 w s s' :
  invariant proxies w0 s →
  sequential network proxies w0 s →
  step network get_isp_info domain proxies isp_flag w s = Some s' →
  sequential network proxies w0 s'.
Proof.
  intros Hinv (Hlog & p & Hplaces & Hp) Hstep.
  pose proof (inv_in_flight _ _ _ Hinv) as Hflight.
  pose proof (inv_sent _ _ _ Hinv) as Hsent.
  pose proof (inv_dead _ _ _ Hinv) as Hdead.
  unfold step in Hstep. rewrite Hplaces in Hstep, Hflight, Hsent, Hdead.
  destruct w as [|w]; [|done]. simpl in Hstep.
  unfold tally_of in Hflight, Hsent, Hdead.
  destruct p as [| |cur|cur|cur o|cur o| |e]; simpl in Hflight, Hsent, Hdead; try done.
  - destruct (request_count_lock s); [done|]. injection Hstep as <-.
    split; simpl; [done|]. rewrite Hplaces. by eexists.
  - unfold total_requests in Hstep.
    destruct (length proxies <=? request_count s)%nat eqn:Hcmp.
    + injection Hstep as <-. split; simpl; [done|]. rewrite Hplaces. by eexists.
    + apply Nat.leb_gt in Hcmp.
      destruct (lookup_lt_is_Some_2 proxies _ Hcmp) as [p0 Hp0].
      unfold Py.index in Hstep. rewrite Hp0 in Hstep.
      destruct proxies as [|x proxies']; [done|]. injection Hstep as <-.
      split; simpl; [done|]. rewrite Hplaces. by eexists.
  - injection Hstep as <-. split; simpl; [done|]. rewrite Hplaces. eexists.
    split; [done|]. simpl.
    destruct (inv_claimed _ _ _ Hinv O cur) as (x & Hx & ->); [by rewrite Hplaces|].
    exists x. split; [|done]. by replace (length (recorded s)) with (request_count s) by lia.
  - destruct (visit_target_cases network get_isp_info domain cur 0 isp_flag (outside s))
      as [(e & _ & _ & _ & Hvisit)|(l & Hvisit & _)];
      rewrite Hvisit in Hstep; injection Hstep as <-.
    + split; simpl; [done|]. rewrite Hplaces. eexists. split; [done|]. simpl.
      destruct Hp as (x & Hx & ->). exists x. split; [done|].
      by destruct (lost s).
    + split; simpl; [done|]. rewrite Hplaces. eexists. split; [done|]. simpl.
      split; [done|]. f_equal. f_equal. lia.
  - destruct (stats_lock s); [done|]. injection Hstep as <-.
    split; simpl; [done|]. rewrite Hplaces. by eexists.
  - injection Hstep as <-. destruct Hp as [(x & Hx & ->) ->].
    split; simpl.
    + rewrite length_app. simpl. rewrite Nat.add_1_r.
      by rewrite (sequential_log_succ _ _ _ _ _ Hx), <- Hlog.
    + rewrite Hplaces. by eexists.
Qed.

Lemma sequential_runs network get_isp_info domain proxies isp_flag w0 trace s s' :
  runs network get_isp_info domain proxies isp_flag trace s s' →
  invariant proxies w0 s →
  sequential network proxies w0 s →
  sequential network proxies w0 s'.
Proof.
  induction 1 as [s|w trace s s1 s2 Hstep _ IH]; [done|].
  intros Hinv Hseq. apply IH.
  - by eapply invariant_step.
  - by eapply sequential_step.
Qed.

(** X15. With one worker, which is the default, a scan is sequential:
    at every moment the outcomes merged are those of the first entries of
    the queue, in the order of the queue, entry [i] with the reply to GET
    number [i] of the scan. A scan that was not interrupted ends in one
    of two ways, whatever the schedule was: with the statistics of
    merging the whole queue in that order; or, the ISP flag being set,
    with the worker dead at the entry that follows the merged ones,
    because the lookup of that entry raised. Where no lookup raises it
    is the first. *)
Theorem one_worker_scans_in_queue_order
    (env : environment) (domain : str) (proxy proxy_list : option str) (isp_flag : bool)
    (skipped queue : list str) (final : pool) (interrupted : bool)
    (shown : report) (saved : option file) :
  run_scan env domain proxy proxy_list 1 isp_flag
  = Py.Ok (Scanned skipped queue final interrupted shown saved) →
  let whole := imap (λ i p, (Some p, outcome_of (network env (S i)))) queue in
  recorded final
  = imap (λ i p, (Some p, outcome_of (network env (S i))))
         (take (length (recorded final)) queue)
  ∧ shared final = replay initial_tally (recorded final)
  ∧ (interrupted = false →
       (places final = [Returned] ∧ lost final = []
        ∧ recorded final = whole ∧ shared final = replay initial_tally whole)
       ∨ (∃ x e, places final = [Died e]
            ∧ isp_flag = true
            ∧ queue !! length (recorded final) = Some x
            ∧ lost final = [(Some x, e)]
            ∧ get_isp_info env (proxy_ip x) = Py.Raise e))
  ∧ (interrupted = false → lookups_return (get_isp_info env) isp_flag queue →
       recorded final = whole ∧ shared final = replay initial_tally whole).
Proof.
  intros Hrun whole.
  apply run_scan_scanned in Hrun as (_ & _ & Hfinal & Hinv & Hint & _).
  pose proof (runs_exec (network env) (get_isp_info env) (format_domain domain) queue
                isp_flag (schedule env) (start 1 {| sent := 1; console := [] |})) as Hruns.
  rewrite <- Hfinal in Hruns.
  destruct (sequential_runs _ _ _ _ _ _ _ _ _ Hruns
              (invariant_start queue _ 1) (sequential_start (network env) queue _))
    as (Hlog & p & Hplaces & Hp).
  unfold sequential_log in Hlog. simpl in Hlog.
  pose proof (lost_from_start _ _ _ _ _ _ _ _ _ Hruns) as Hlost.
  assert (interrupted = false →
          (places final = [Returned] ∧ lost final = []
           ∧ recorded final = whole ∧ shared final = replay initial_tally whole)
          ∨ (∃ x e, places final = [Died e]
               ∧ isp_flag = true
               ∧ queue !! length (recorded final) = Some x
               ∧ lost final = [(Some x, e)]
               ∧ get_isp_info env (proxy_ip x) = Py.Raise e)) as Hends.
  { intros ->.
    assert (all_joined final = true) as Hjoined by (by destruct (all_joined final)).
    pose proof (ended_places final Hjoined O p) as Hended.
    rewrite Hplaces in Hended. specialize (Hended eq_refl).
    destruct p as [| |cur|cur|cur o|cur o| |e]; try done.
    - left.
      assert (lost final = []) as Hnone.
      { pose proof (inv_dead _ _ _ Hinv) as Hdead. rewrite Hplaces in Hdead.
        by destruct (lost final). }
      destruct (joined_pool queue _ final Hinv Hjoined) as (_ & Hlen & _);
        [rewrite Hplaces; simpl; lia|done|].
      rewrite Hlen, firstn_all in Hlog.
      split_and!; try done. by rewrite (inv_shared _ _ _ Hinv), Hlog.
    - right. destruct Hp as (x & Hx & Hx').
      rewrite Hx' in Hlost. apply Forall_inv in Hlost as (Hflag & y & [= <-] & _ & Hraise).
      by exists x, e. }
  split_and!; [done|apply (inv_shared _ _ _ Hinv)|done|].
  intros Hint' Hreturn.
  destruct (Hends Hint') as [(_ & _ & ? & ?)|(x & e & _ & _ & _ & Hx & _)]; [done|].
  by rewrite (nothing_lost _ _ _ _ _ _ _ _ _ Hruns Hreturn) in Hx.
Qed.

Lemma one_worker_scans_in_queue_order_witness :
  let env := {| runtime := Py.ascii_runtime; network := example_network;
                get_isp_info := λ _, Py.Ok [];
                open_file := λ _, Some [u "1.2.3.4:80" ++ newline; u "5.6.7.8:80" ++ newline];
                now := now example_env;
                schedule := round_robin 1 20 |} in
  match run_scan env (u "example.com") None (Some (u "proxies.txt")) 1 true with
  | Py.Ok (Scanned _ queue final interrupted _ _) =>
      interrupted = false
      ∧ recorded final = imap (λ i p, (Some p, outcome_of (network env (S i)))) queue
      ∧ shared final
        = replay initial_tally
                 (imap (λ i p, (Some p, outcome_of (network env (S i)))) queue)
  | _ => False
  end.
Proof.
  intros env.
  destruct (run_scan env (u "example.com") None (Some (u "proxies.txt")) 1 true)
    as [[| | | |skipped queue final interrupted shown saved]|] eqn:Hrun;
    try (by vm_compute in Hrun).
  assert (interrupted = false ∧ queue = [u "1.2.3.4:80"; u "5.6.7.8:80"]) as [Hint Hqueue].
  { vm_compute in Hrun. by injection Hrun as _ <- _ <- _ _. }
  split; [done|].
  apply (one_worker_scans_in_queue_order env (u "example.com") None
           (Some (u "proxies.txt")) true skipped queue final interrupted shown saved Hrun);
    [done|].
  intros _ p _. by eexists.
Defined.

(** ** Two workers *)

(** X16. The probes of two workers do overlap: in a pool of at least two
    workers over a queue of at least two entries there is a run after
    which the first two entries are both at [visit_target], claimed by
    different workers, with neither GET sent yet and no lock held. *)
Theorem probes_overlap
    (network : nat → reply) (get_isp_info : str → Py.result str) (domain : str)
    (first second : str) (others : list str) (isp_flag : bool) (more : nat) (w0 : world) :
  ∃ trace s,
    runs network get_isp_info domain (first :: second :: others) isp_flag trace
         (start (S (S more)) w0) s
    ∧ places s !! 0%nat = Some (Probing (Some first))
    ∧ places s !! 1%nat = Some (Probing (Some second))
    ∧ request_count s = 2%nat
    ∧ request_count_lock s = None ∧ stats_lock s = None
    ∧ outside s = w0.
Proof.
  exists (effective network get_isp_info domain (first :: second :: others) isp_flag
                    [0; 0; 0; 1; 1; 1]%nat (start (S (S more)) w0)).
  exists (exec network get_isp_info domain (first :: second :: others) isp_flag
               [0; 0; 0; 1; 1; 1]%nat (start (S (S more)) w0)).
  split; [apply runs_exec|].
  split_and!; vm_compute; reflexivity.
Qed.

(** ** The queue, claimed and recorded *)



(** ** The lookup of the ISP *)

Section LookupFacts.
Context (web : str → Geo.answer) (str_of : Geo.json → str).
Context (json_error_is_request_exception : bool).

Lemma from_ipapi_cases data :
  if Geo.is_dict data
  then ∃ v, Geo.from_ipapi str_of data = Geo.Ok v ∧ Geo.truth v = true
  else Geo.from_ipapi str_of data = Geo.Raise Geo.AttributeError.
Proof.
  destruct data; try done. simpl. eexists. split; [done|].
  destruct (Geo.truth (default _ (items !! u "org"))) eqn:Horg; simpl.
  - destruct (Geo.truth (default _ (items !! u "asn"))) eqn:Hasn; simpl; [|done].
    by destruct (Geo.format _ _ ++ _) eqn:H; [apply app_eq_nil in H as [_ [=]]|].
  - by destruct (Geo.truth (default _ (items !! u "asn"))) eqn:Hasn.
Qed.

Lemma from_ip_api_cases data :
  if Geo.is_dict data
  then ∃ v, Geo.from_ip_api data = Geo.Ok v ∧ Geo.truth v = true
  else Geo.from_ip_api data = Geo.Raise Geo.AttributeError.
Proof.
  destruct data; try done. unfold Geo.from_ip_api. simpl.
  destruct (default Geo.JNull (items !! u "status")) as [|b|n|x|s|l|m];
    try (by eexists).
  destruct (decide (s = u "success")); [|by eexists].
  eexists. split; [done|].
  destruct (Geo.truth (default _ (items !! u "isp"))) eqn:Hisp; [done|].
  by destruct (Geo.truth (default _ (items !! u "org"))) eqn:Horg.
Qed.

Lemma urls_differ ip :
  Geo.ipapi_url ip ≠ Geo.ip_api_url ip
  ∧ Geo.ipapi_url ip ≠ Geo.ipwho_url ip
  ∧ Geo.ip_api_url ip ≠ Geo.ipwho_url ip.
Proof. split_and!; intros H; vm_compute in H; discriminate H. Qed.

End LookupFacts.

Lemma first_providers_cases web str_of ip :
  match web (Geo.ipapi_url ip) with
  | Geo.Refused =>
      Geo.first_providers web str_of ip = ([Geo.ipapi_url ip], Geo.Raise Geo.RequestError)
  | Geo.Answered c body =>
      if c =? 200 then
        Geo.first_providers web str_of ip
        = ([Geo.ipapi_url ip],
           match body with
           | None => Geo.Raise Geo.JSONError
           | Some data => Geo.from_ipapi str_of data
           end)
      else
        match web (Geo.ip_api_url ip) with
        | Geo.Refused =>
            Geo.first_providers web str_of ip
            = ([Geo.ipapi_url ip; Geo.ip_api_url ip], Geo.Raise Geo.RequestError)
        | Geo.Answered c' body' =>
            Geo.first_providers web str_of ip
            = ([Geo.ipapi_url ip; Geo.ip_api_url ip],
               if c' =? 200 then
                 match body' with
                 | None => Geo.Raise Geo.JSONError
                 | Some data => Geo.from_ip_api data
                 end
               else Geo.Ok Geo.unknown)
        end
  end.
Proof.
  unfold Geo.first_providers.
  destruct (web (Geo.ipapi_url ip)) as [c body|]; [|done].
  destruct (c =? 200); [by destruct body|].
  destruct (web (Geo.ip_api_url ip)) as [c' body'|]; [|done].
  destruct (c' =? 200); [by destruct body'|done].
Qed.

Set Warnings "-clear-no-such-hyp".

(** Hypotheses taken apart, down to equations. *)
Ltac crack :=
  repeat match goal with
         | H : _ ∧ _ |- _ => destruct H
         | H : ∃ _, _ |- _ => destruct H
         | H : _ ∨ _ |- _ => destruct H
         | H : False |- _ => destruct H
         | H : Geo.Answered _ _ = Geo.Answered _ _ |- _ => injection H as ? ?; subst
         | H : Some _ = Some _ |- _ => injection H as ?; subst
         end.

(** The end of a case analysis on what the providers answer: the URLs
    asked are a concrete list. *)
Ltac lookup_leaf :=
  simpl; split_and!;
  [ first [ by left | by (right; left) | by (right; right; left)
          | by (right; right; right) ]
  | rewrite ?elem_of_cons, ?elem_of_nil; naive_solver congruence .. ].

(** X17. The lookup asks [ipapi.co] first, and in every case; it asks
    [ip-api.com] second, exactly when [ipapi.co] answered with a status
    other than 200; and it asks [ipwho.is] last, exactly when one of the
    requests before raised, or when a body with status 200 was not JSON
    and the library reports that as a [RequestException]. No provider is
    asked twice, so a lookup costs at most three requests. *)
Theorem lookup_asks_in_order
    (web : str → Geo.answer) (str_of : Geo.json → str)
    (json_error_is_request_exception : bool) (ip : str) :
  let asked := snd (Geo.get_isp_info web str_of json_error_is_request_exception ip) in
  let first := Geo.ipapi_url ip in
  let second := Geo.ip_api_url ip in
  let third := Geo.ipwho_url ip in
  let second_asked := ∃ c body, web first = Geo.Answered c body ∧ c ≠ 200 in
  let request_raised :=
    web first = Geo.Refused ∨ (second_asked ∧ web second = Geo.Refused) in
  let body_not_json :=
    web first = Geo.Answered 200 None
    ∨ (second_asked ∧ web second = Geo.Answered 200 None) in
  (asked = [first] ∨ asked = [first; second] ∨ asked = [first; third]
   ∨ asked = [first; second; third])
  ∧ (second ∈ asked ↔ second_asked)
  ∧ (third ∈ asked
     ↔ request_raised ∨ (json_error_is_request_exception = true ∧ body_not_json)).
Proof.
  destruct (urls_differ ip) as (H12 & H13 & H23).
  pose proof (first_providers_cases web str_of ip) as Hfirst.
  unfold Geo.get_isp_info. simpl.
  destruct (web (Geo.ipapi_url ip)) as [c body|] eqn:Ha.
  - destruct (Z.eqb_spec c 200) as [->|Hc].
    + rewrite Hfirst. destruct body as [data|].
      * pose proof (from_ipapi_cases str_of data) as Hdata.
        destruct (Geo.is_dict data); [destruct Hdata as (v & -> & _)|rewrite Hdata];
          lookup_leaf.
      * destruct json_error_is_request_exception; lookup_leaf.
    + destruct (web (Geo.ip_api_url ip)) as [c' body'|] eqn:Hb; rewrite Hfirst.
      * destruct (Z.eqb_spec c' 200) as [->|Hc']; [|lookup_leaf].
        destruct body' as [data|].
        -- pose proof (from_ip_api_cases data) as Hdata.
           destruct (Geo.is_dict data); [destruct Hdata as (v & -> & _)|rewrite Hdata];
             lookup_leaf.
        -- destruct json_error_is_request_exception; lookup_leaf.
      * lookup_leaf.
  - rewrite Hfirst. lookup_leaf.
Qed.

(** What the lookup does, by what the providers answer. *)
Lemma lookup_cases web str_of jerr ip :
  let lookup := Geo.get_isp_info web str_of jerr ip in
  let first := Geo.ipapi_url ip in
  let second := Geo.ip_api_url ip in
  let third := Geo.ipwho_url ip in
  let read (from : Geo.json → Geo.result Geo.json) (body : option Geo.json)
           (asked : list str) :=
    match body with
    | None =>
        if jerr then lookup = (Geo.Ok (Geo.last_provider web ip), asked ++ [third])
        else lookup = (Geo.Raise Geo.JSONError, asked)
    | Some data =>
        if Geo.is_dict data
        then ∃ v, from data = Geo.Ok v ∧ Geo.truth v = true ∧ lookup = (Geo.Ok v, asked)
        else lookup = (Geo.Raise Geo.AttributeError, asked)
    end in
  match web first with
  | Geo.Refused => lookup = (Geo.Ok (Geo.last_provider web ip), [first; third])
  | Geo.Answered c body =>
      if c =? 200 then read (Geo.from_ipapi str_of) body [first]
      else
        match web second with
        | Geo.Refused => lookup = (Geo.Ok (Geo.last_provider web ip), [first; second; third])
        | Geo.Answered c' body' =>
            if c' =? 200 then read Geo.from_ip_api body' [first; second]
            else lookup = (Geo.Ok Geo.unknown, [first; second])
        end
  end.
Proof.
  pose proof (first_providers_cases web str_of ip) as Hfirst.
  unfold Geo.get_isp_info. simpl.
  destruct (web (Geo.ipapi_url ip)) as [c body|]; [|by rewrite Hfirst].
  destruct (c =? 200).
  - rewrite Hfirst. destruct body as [data|]; [|by destruct jerr].
    pose proof (from_ipapi_cases str_of data) as Hdata.
    destruct (Geo.is_dict data); [|by rewrite Hdata].
    destruct Hdata as (v & Hv & Htruth). exists v. by rewrite Hv.
  - destruct (web (Geo.ip_api_url ip)) as [c' body'|]; [|by rewrite Hfirst].
    rewrite Hfirst. destruct (c' =? 200); [|done].
    destruct body' as [data|]; [|by destruct jerr].
    pose proof (from_ip_api_cases data) as Hdata.
    destruct (Geo.is_dict data); [|by rewrite Hdata].
    destruct Hdata as (v & Hv & Htruth). exists v. by rewrite Hv.
Qed.

(** X18. A label that the lookup returns without asking [ipwho.is] is
    never empty and never [None]: a field that is missing, empty or null
    is passed over, down to ["Unknown ISP"]. When [ipapi.co] answers with
    both of its fields as strings that are not empty, the label is
    [org (asn)]. *)
Theorem first_providers_give_a_label
    (web : str → Geo.answer) (str_of : Geo.json → str)
    (json_error_is_request_exception : bool) (ip : str) :
  let lookup := Geo.get_isp_info web str_of json_error_is_request_exception ip in
  (∀ v, fst lookup = Geo.Ok v → Geo.ipwho_url ip ∉ snd lookup → Geo.truth v = true)
  ∧ (∀ items org asn,
       web (Geo.ipapi_url ip) = Geo.Answered 200 (Some (Geo.JDict items)) →
       items !! u "org" = Some (Geo.JStr org) →
       items !! u "asn" = Some (Geo.JStr asn) →
       org ≠ [] → asn ≠ [] →
       lookup = (Geo.Ok (Geo.JStr (org ++ u " (" ++ asn ++ u ")")), [Geo.ipapi_url ip])).
Proof.
  pose proof (lookup_cases web str_of json_error_is_request_exception ip) as Hcases.
  simpl in *. split.
  - intros v Hv Hthird.
    destruct (web (Geo.ipapi_url ip)) as [c body|].
    + destruct (c =? 200).
      * destruct body as [data|].
        -- destruct (Geo.is_dict data).
           ++ destruct Hcases as (v' & _ & Htruth & Hlookup).
              rewrite Hlookup in Hv. simpl in Hv. congruence.
           ++ by rewrite Hcases in Hv.
        -- destruct json_error_is_request_exception; rewrite Hcases in Hv, Hthird.
           ++ exfalso. apply Hthird. simpl. rewrite !elem_of_cons. auto.
           ++ done.
      * destruct (web (Geo.ip_api_url ip)) as [c' body'|].
        -- destruct (c' =? 200).
           ++ destruct body' as [data|].
              ** destruct (Geo.is_dict data).
                 --- destruct Hcases as (v' & _ & Htruth & Hlookup).
                     rewrite Hlookup in Hv. simpl in Hv. congruence.
                 --- by rewrite Hcases in Hv.
              ** destruct json_error_is_request_exception; rewrite Hcases in Hv, Hthird.
                 --- exfalso. apply Hthird. simpl. rewrite !elem_of_cons. auto.
                 --- done.
           ++ rewrite Hcases in Hv. simpl in Hv. by injection Hv as <-.
        -- rewrite Hcases in Hthird. exfalso. apply Hthird. simpl.
           rewrite !elem_of_cons. auto.
    + rewrite Hcases in Hthird. exfalso. apply Hthird. simpl.
      rewrite !elem_of_cons. auto.
  - intros items org asn Hweb Horg Hasn Hone Htwo.
    rewrite Hweb in Hcases. simpl in Hcases.
    destruct Hcases as (v & Hv & _ & ->). f_equal.
    unfold Geo.from_ipapi in Hv. simpl in Hv. rewrite Horg, Hasn in Hv. simpl in Hv.
    destruct org; [done|]. destruct asn; [done|]. simpl in Hv. done.
Qed.

(** X19. The label that comes from [ipwho.is] is the [isp] field as it
    is: when the first request raises and [ipwho.is] answers 200 with a
    [connection] object, the lookup returns the value of [isp] whatever it
    is, [None] or the empty string included, and ["Unknown ISP"] only when
    the field is missing. Everything that goes wrong there (the request,
    the status, a body that is not JSON or not an object) ends in
    ["Unknown ISP"]: from the handler nothing is raised. *)
Theorem last_provider_passes_the_field
    (web : str → Geo.answer) (str_of : Geo.json → str)
    (json_error_is_request_exception : bool) (ip : str) :
  web (Geo.ipapi_url ip) = Geo.Refused →
  let lookup := Geo.get_isp_info web str_of json_error_is_request_exception ip in
  snd lookup = [Geo.ipapi_url ip; Geo.ipwho_url ip]
  ∧ (∃ v, fst lookup = Geo.Ok v)
  ∧ (∀ items connection,
       web (Geo.ipwho_url ip) = Geo.Answered 200 (Some (Geo.JDict items)) →
       items !! u "connection" = Some (Geo.JDict connection) →
       fst lookup = Geo.Ok (default Geo.unknown (connection !! u "isp")))
  ∧ (∀ c body,
       web (Geo.ipwho_url ip) = Geo.Answered c body →
       c ≠ 200 ∨ body = None ∨ (∃ data, body = Some data ∧ Geo.is_dict data = false) →
       fst lookup = Geo.Ok Geo.unknown)
  ∧ (web (Geo.ipwho_url ip) = Geo.Refused → fst lookup = Geo.Ok Geo.unknown).
Proof.
  intros Hweb.
  pose proof (lookup_cases web str_of json_error_is_request_exception ip) as Hcases.
  simpl in *. rewrite Hweb in Hcases. rewrite Hcases. simpl.
  split_and!; [done|by eexists|..].
  - intros items connection Hthird Hconnection. unfold Geo.last_provider.
    rewrite Hthird, Z.eqb_refl.
    unfold Geo.json_of, Geo.from_ipwho, Geo.get, Geo.bind. by rewrite Hconnection.
  - intros c body Hthird Hwrong. unfold Geo.last_provider. rewrite Hthird.
    destruct (Z.eqb_spec c 200) as [->|Hc]; [|done].
    destruct Hwrong as [?|[->|(data & -> & Hdata)]]; [done|done|].
    by destruct data.
  - intros Hthird. unfold Geo.last_provider. by rewrite Hthird.
Qed.

Lemma last_provider_passes_the_field_witness :
  let web := λ url,
    if decide (url = Geo.ipwho_url (u "1.2.3.4"))
    then Geo.Answered 200
           (Some (Geo.JDict {[ u "connection" := Geo.JDict {[ u "isp" := Geo.JNull ]} ]}))
    else Geo.Refused in
  fst (Geo.get_isp_info web (λ _, []) true (u "1.2.3.4")) = Geo.Ok Geo.JNull.
Proof.
  intros web.
  destruct (last_provider_passes_the_field web (λ _, []) true (u "1.2.3.4"))
    as (_ & _ & Hfield & _); [reflexivity|].
  rewrite (Hfield {[ u "connection" := Geo.JDict {[ u "isp" := Geo.JNull ]} ]}
                  {[ u "isp" := Geo.JNull ]}) by reflexivity.
  reflexivity.
Defined.

Ltac raises_leaf :=
  simpl; rewrite ?elem_of_cons, ?elem_of_nil;
  split_and!; [try split..]; intros; crack; try congruence; eauto 10;
  let Hin := fresh in
  intros Hin; rewrite ?elem_of_cons, ?elem_of_nil in Hin; crack; congruence.

(** X20. The lookup never lets a [RequestException] out, but it does
    raise: an [AttributeError] exactly when the body that it reads from
    [ipapi.co] or [ip-api.com] is JSON and not an object, and the error
    of [response.json()] exactly when that body is not JSON and the
    library does not report this as a [RequestException]. In both cases
    [ipwho.is] is not asked. *)
Theorem lookup_raises
    (web : str → Geo.answer) (str_of : Geo.json → str)
    (json_error_is_request_exception : bool) (ip : str) :
  let lookup := Geo.get_isp_info web str_of json_error_is_request_exception ip in
  let read body :=
    web (Geo.ipapi_url ip) = Geo.Answered 200 body
    ∨ ((∃ c b, web (Geo.ipapi_url ip) = Geo.Answered c b ∧ c ≠ 200)
       ∧ web (Geo.ip_api_url ip) = Geo.Answered 200 body) in
  fst lookup ≠ Geo.Raise Geo.RequestError
  ∧ (fst lookup = Geo.Raise Geo.AttributeError
     ↔ ∃ data, Geo.is_dict data = false ∧ read (Some data))
  ∧ (fst lookup = Geo.Raise Geo.JSONError
     ↔ json_error_is_request_exception = false ∧ read None)
  ∧ (∀ e, fst lookup = Geo.Raise e → Geo.ipwho_url ip ∉ snd lookup).
Proof.
  destruct (urls_differ ip) as (H12 & H13 & H23).
  pose proof (lookup_cases web str_of json_error_is_request_exception ip) as Hcases.
  simpl in *.
  destruct (web (Geo.ipapi_url ip)) as [c body|].
  - destruct (Z.eqb_spec c 200) as [->|Hc].
    + destruct body as [data|].
      * destruct (Geo.is_dict data) eqn:Hdict;
          [destruct Hcases as (v & _ & _ & ->)|rewrite Hcases]; raises_leaf.
      * destruct json_error_is_request_exception; rewrite Hcases; raises_leaf.
    + destruct (web (Geo.ip_api_url ip)) as [c' body'|].
      * destruct (Z.eqb_spec c' 200) as [->|Hc'].
        -- destruct body' as [data|].
           ++ destruct (Geo.is_dict data) eqn:Hdict;
                [destruct Hcases as (v & _ & _ & ->)|rewrite Hcases]; raises_leaf.
           ++ destruct json_error_is_request_exception; rewrite Hcases; raises_leaf.
        -- rewrite Hcases; raises_leaf.
      * rewrite Hcases; raises_leaf.
  - rewrite Hcases; raises_leaf.
Qed.

(** ** The saved file, read back *)

Lemma digit_value_of_digit (d : N) :
  (d < 10)%N → Py.digit_value (48 + d) = Some (Z.of_N d).
Proof.
  intros Hd. unfold Py.digit_value.
  destruct (N.leb_spec 48 (48 + d)), (N.leb_spec (48 + d) 57); simpl; try lia.
  f_equal. lia.
Qed.

(** The digits that [str] writes for a number are read back by the
    scanner of [int] as that number. *)
Lemma digits_fuel_spec fuel n acc :
  (N.to_nat n < fuel)%nat →
  ∃ ds, Py.digits_fuel fuel n acc = ds ++ acc
    ∧ ds ≠ []
    ∧ Forall (λ c, 48 ≤ c ≤ 57)%N ds
    ∧ (∀ j, (n < 10 ^ N.of_nat j)%N → (1 ≤ j)%nat → (length ds ≤ j)%nat)
    ∧ ∀ a k tail,
        Py.scan_digits a k false (ds ++ tail)
        = Py.scan_digits (a * 10 ^ Z.of_nat (length ds) + Z.of_N n)
                         (k + length ds) false tail.
Proof.
  revert n acc. induction fuel as [|fuel IH]; intros n acc Hfuel; [lia|].
  assert (n `mod` 10 < 10)%N as Hmod by (by apply N.mod_lt).
  pose proof (N.div_mod' n 10) as Hdiv.
  simpl.
  generalize dependent (n `mod` 10)%N. intros r Hmod.
  generalize (IH (n `div` 10)%N ((48 + r)%N :: acc)).
  generalize (n `div` 10)%N. intros q IHq Hdiv.
  destruct (N.ltb_spec n 10) as [Hsmall|Hbig].
  - exists [(48 + r)%N]. assert (r = n) as -> by lia.
    split_and!; [done|done| | |].
    + apply Forall_singleton. lia.
    + intros j _ Hj. simpl. lia.
    + intros a k tail. simpl. rewrite (digit_value_of_digit n Hsmall).
      f_equal; lia.
  - destruct IHq as (ds & Hds & Hne & Hall & Hlen & Hscan); [lia|].
    exists (ds ++ [(48 + r)%N]). rewrite Hds, <- (assoc_L (++)). simpl.
    split_and!; [done| | | |].
    + by destruct ds.
    + apply Forall_app. split; [done|]. apply Forall_singleton. lia.
    + intros j Hj Hone. rewrite length_app. simpl.
      destruct j as [|j]; [lia|].
      rewrite Nat2N.inj_succ, N.pow_succ_r' in Hj.
      assert (1 ≤ j)%nat as Hj1.
      { destruct j as [|j]; [|lia]. simpl in Hj. lia. }
      pose proof (Hlen j) as Hle.
      assert (q < 10 ^ N.of_nat j)%N as Hq by lia.
      specialize (Hle Hq Hj1). lia.
    + intros a k tail. rewrite <- (assoc_L (++)). simpl. rewrite Hscan. simpl.
      rewrite digit_value_of_digit by lia.
      rewrite length_app. simpl.
      f_equal; [|lia].
      rewrite Nat2Z.inj_add, Z.pow_add_r by lia.
      change (10 ^ Z.of_nat 1) with 10. lia.
Qed.

Lemma str_of_nat_spec (n : nat) :
  ∃ ds, Py.str_of_nat n = ds
    ∧ ds ≠ []
    ∧ Forall (λ c, 48 ≤ c ≤ 57)%N ds
    ∧ (Z.of_nat n ≤ 65535 → (length ds ≤ 5)%nat)
    ∧ Py.scan_digits 0 O false ds = Some (Z.of_nat n, length ds, []).
Proof.
  unfold Py.str_of_nat.
  destruct (digits_fuel_spec (S n) (N.of_nat n) []) as (ds & Hds & Hne & Hall & Hlen & Hscan);
    [lia|].
  rewrite app_nil_r in Hds. exists ds. split_and!; try done.
  - intros Hn. apply (Hlen 5%nat); [|lia]. change (10 ^ N.of_nat 5)%N with 100000%N. lia.
  - specialize (Hscan 0 O []). rewrite app_nil_r in Hscan. rewrite Hscan. simpl.
    by rewrite nat_N_Z.
Qed.

Lemma digit_is_not_space rt c : (48 ≤ c ≤ 57)%N → Py.isspace rt c = false.
Proof.
  intros Hc. unfold Py.isspace.
  destruct (N.ltb_spec c 128); [|lia].
  destruct (N.leb_spec 9 c), (N.leb_spec c 13), (N.leb_spec 28 c), (N.leb_spec c 32);
    simpl; try done; lia.
Qed.

Lemma lstrip_at_digit rt c s : (48 ≤ c ≤ 57)%N → Py.lstrip rt (c :: s) = c :: s.
Proof. intros Hc. simpl. by rewrite digit_is_not_space. Qed.

Lemma skip_spaces_at_digit c s : (48 ≤ c ≤ 57)%N → Py.skip_spaces (c :: s) = c :: s.
Proof.
  intros Hc. simpl. unfold Py.c_isspace.
  destruct (N.leb_spec 9 c), (N.leb_spec c 13), (N.eqb_spec c 32); simpl; try done; lia.
Qed.

Lemma digit_cases (d : N) :
  (48 ≤ d ≤ 57)%N →
  (d = 48 ∨ d = 49 ∨ d = 50 ∨ d = 51 ∨ d = 52 ∨ d = 53 ∨ d = 54 ∨ d = 55 ∨ d = 56
   ∨ d = 57)%N.
Proof. lia. Qed.

(** [int] reads a blank and the digits that [str] wrote as the number. *)
Lemma parse_int_of_str rt (n : nat) :
  Z.of_nat n ≤ 65535 →
  Py.parse_int rt (32%N :: Py.str_of_nat n) = Some (Z.of_nat n).
Proof.
  intros Hn.
  destruct (str_of_nat_spec n) as (ds & -> & Hne & Hall & Hlen & Hscan).
  specialize (Hlen Hn).
  destruct ds as [|d ds]; [done|].
  pose proof (Forall_inv Hall) as Hd.
  unfold Py.parse_int, Py.to_ascii.
  assert (forallb (λ c, c <? 128)%N (32%N :: d :: ds) = true) as ->.
  { apply forallb_forall. intros c [<-|Hc]; [done|].
    apply N.ltb_lt. rewrite Forall_forall in Hall.
    assert (48 ≤ c ≤ 57)%N by (apply Hall; by apply list_elem_of_In). lia. }
  change (Py.skip_spaces (32%N :: d :: ds)) with (Py.skip_spaces (d :: ds)).
  rewrite (skip_spaces_at_digit d ds Hd).
  assert (Py.exceeds_digit_limit rt (length (d :: ds)) = false) as Hlimit.
  { unfold Py.exceeds_digit_limit.
    destruct (Nat.ltb_spec 640 (length (d :: ds))); [lia|done]. }
  destruct (digit_cases d Hd) as [->|[->|[->|[->|[->|[->|[->|[->|[->| ->]]]]]]]]];
    cbv beta iota zeta; rewrite Hscan; simpl length in *; cbv beta iota;
    change (Py.skip_spaces []) with (@nil N); cbv beta iota;
    rewrite Hlimit; f_equal; lia.
Qed.

(** The count line of the saved file, as the loader of a proxy list
    reads it. *)
Lemma count_line_loads rt (n : nat) :
  Z.of_nat n ≤ 65535 →
  cleaned rt (u "Total Working Proxies Found: " ++ Py.str_of_nat n ++ newline)
  = u "Total Working Proxies Found: " ++ Py.str_of_nat n
  ∧ validate_proxy rt (u "Total Working Proxies Found: " ++ Py.str_of_nat n) = Py.Ok true.
Proof.
  intros Hn.
  pose proof (parse_int_of_str rt n Hn) as Hparse.
  destruct (str_of_nat_spec n) as (ds & Hds & Hne & Hall & _ & _).
  rewrite Hds in *. clear Hds.
  assert (validate_proxy rt (u "Total Working Proxies Found: " ++ ds) = Py.Ok true)
    as Hvalid.
  { apply (validate_proxy_host_port rt (u "Total Working Proxies Found") (32%N :: ds)
             (Z.of_nat n)).
    - apply (bool_decide_unpack _). by vm_compute.
    - intros [?|Hin]%elem_of_cons; [done|].
      rewrite Forall_forall in Hall. apply Hall in Hin. lia.
    - done.
    - lia. }
  split; [|done].
  unfold cleaned.
  assert (Py.strip rt (u "Total Working Proxies Found: " ++ ds ++ newline)
          = u "Total Working Proxies Found: " ++ ds) as ->.
  { unfold Py.strip.
    change (Py.lstrip rt (u "Total Working Proxies Found: " ++ ds ++ newline))
      with (u "Total Working Proxies Found: " ++ ds ++ newline).
    unfold Py.rstrip, newline.
    rewrite (assoc_L (++)), rev_app_distr.
    change (rev [10%N] ++ ?x) with (10%N :: x).
    change (Py.lstrip rt (10%N :: ?x)) with (Py.lstrip rt x).
    rewrite rev_app_distr.
    destruct (rev ds) as [|c r] eqn:Hrev.
    { apply (f_equal (@length N)) in Hrev. rewrite length_rev in Hrev.
      by destruct ds. }
    assert (48 ≤ c ≤ 57)%N as Hc.
    { rewrite Forall_forall in Hall. apply Hall, list_elem_of_In, in_rev.
      rewrite Hrev. by left. }
    rewrite <- app_comm_cons, (lstrip_at_digit rt c _ Hc), app_comm_cons, <- Hrev.
    by rewrite rev_app_distr, !rev_involutive. }
  by apply (validated_format_proxy rt).
Qed.

Lemma load_proxies_keeps rt line rest kept skipped :
  validate_proxy rt (cleaned rt line) = Py.Ok true →
  load_proxies rt rest = Py.Ok (kept, skipped) →
  load_proxies rt (line :: rest) = Py.Ok (cleaned rt line :: kept, skipped).
Proof.
  intros Hvalid Hrest. cbn [load_proxies]. fold (cleaned rt line).
  by rewrite Hvalid, Hrest.
Qed.

(** X21. The file of working proxies is not itself a proxy list: read
    back with [-l], its second line, the count of the proxies, has one
    colon and a number behind it, so that the loader keeps it as a proxy,
    and a scan would probe through it; the line of dashes is skipped. *)
Theorem saved_file_count_line_reads_as_proxy
    (rt : Py.Runtime) (domain : str) (now : datetime) (working : gset str) (f : file) :
  persist domain now working = Some f →
  Z.of_nat (size working) ≤ 65535 →
  ∃ count rule,
    written f !! 1%nat = Some (count ++ newline)
    ∧ written f !! 2%nat = Some (rule ++ newline)
    ∧ count = u "Total Working Proxies Found: " ++ Py.str_of_nat (size working)
    ∧ load_proxies rt [count ++ newline; rule ++ newline] = Py.Ok ([count], [rule]).
Proof.
  intros Hpersist Hsize. unfold persist in Hpersist.
  destruct (decide (working = ∅)); [done|]. injection Hpersist as <-.
  destruct (count_line_loads rt (size working) Hsize) as [Hclean Hvalid].
  exists (u "Total Working Proxies Found: " ++ Py.str_of_nat (size working)),
         (u "-----------------------").
  split_and!.
  - rewrite <- (assoc_L (++)). reflexivity.
  - reflexivity.
  - reflexivity.
  - rewrite <- (assoc_L (++)).
    rewrite <- Hclean at 1.
    apply load_proxies_keeps; [by rewrite Hclean|]. by vm_compute.
Qed.

Lemma saved_file_count_line_reads_as_proxy_witness :
  let f := {| filename := u "working_proxies_20240307_090500.txt";
              written := [ u "Target Domain: http://example.com" ++ newline;
                           u "Total Working Proxies Found: 1" ++ newline;
                           u "-----------------------" ++ newline;
                           u "1.2.3.4:80" ++ newline ] |} in
  ∃ count rule,
    written f !! 1%nat = Some (count ++ newline)
    ∧ written f !! 2%nat = Some (rule ++ newline)
    ∧ count = u "Total Working Proxies Found: "
              ++ Py.str_of_nat (size ({[ u "1.2.3.4:80" ]} : gset str))
    ∧ load_proxies Py.ascii_runtime [count ++ newline; rule ++ newline]
      = Py.Ok ([count], [rule]).
Proof.
  apply (saved_file_count_line_reads_as_proxy Py.ascii_runtime (u "http://example.com")
           (now example_env) {[ u "1.2.3.4:80" ]}); by vm_compute.
Defined.
